(** * findy-agent: protocol state machine surface, Service-Agent callback,
      pairwise map and the gRPC protocol server

    A shallow embedding of the Go sources.  Go packages become modules of the
    same name; a Go function keeps its name.  Pointers to agents are addresses
    into an explicit heap, Go maps are [gmap]s, a Go [(value, error)] result
    with a possible panic is the three-way [outcome] type below. *)

From Stdlib Require Import ZArith Bool Lia.
From stdpp Require Import gmap strings list fin_maps pretty.

Local Open Scope Z_scope.

(** ** Results of Go calls *)

(** A Go call either returns normally, returns a non-nil [error] (also the
    way an [err2.Check] failure surfaces at the nearest [err2] handler), or
    panics with a value that is not an [error] and is therefore not caught by
    [err2.Handle] / [err2.Return]. *)
Inductive outcome (A : Type) : Type :=
| Returns (a : A)
| Fails (e : string)
| Panics (what : string).
Arguments Returns {A} a.
Arguments Fails {A} e.
Arguments Panics {A} what.

Definition bind {A B} (x : outcome A) (f : A -> outcome B) : outcome B :=
  match x with
  | Returns a => f a
  | Fails e => Fails e
  | Panics p => Panics p
  end.

Notation "x <- e1 ;; e2" := (bind e1 (fun x => e2))
  (at level 100, e1 at next level, right associativity).

(** [int32(x)], and the result of int32 arithmetic: the value kept to 32
    bits, two's complement. *)
Definition int32 (x : Z) : Z := (x + 2^31) mod 2^32 - 2^31.

(** ** Package didcomm: the typed message the SA callback exchanges *)

Module didcomm.

Record AttrInfo := { attr_Name : string }.

Record PredicateInfo := { pred_Name : string; pred_PType : string; pred_PValue : Z }.

(** [anoncreds.ProofRequest] as the permissive handler fills it in. *)
Record ProofRequest := {
  pr_Name : string;
  pr_Version : string;
  pr_Nonce : string;
  pr_RequestedAttributes : gmap string AttrInfo;
  pr_RequestedPredicates : gmap string PredicateInfo
}.

(** The sub-message is a JSON object; the handlers below either leave it
    alone or replace it by a serialised proof request. *)
Inductive SubMsg :=
| SubNil
| SubProofRequest (r : ProofRequest)
| SubOpaque (json : string).

Record Msg := {
  Info : string;
  Ready : bool;
  Sub : SubMsg;
  ThreadID : string
}.

Definition SetReady (yes : bool) (m : Msg) : Msg :=
  {| Info := Info m; Ready := yes; Sub := Sub m; ThreadID := ThreadID m |}.

Definition SetInfo (s : string) (m : Msg) : Msg :=
  {| Info := s; Ready := Ready m; Sub := Sub m; ThreadID := ThreadID m |}.

Definition SetSubMsg (s : SubMsg) (m : Msg) : Msg :=
  {| Info := Info m; Ready := Ready m; Sub := s; ThreadID := ThreadID m |}.

End didcomm.

(** ** Package pb: the enumerations of the gRPC API *)

Module pb.

Inductive ProtocolState_State :=
| ProtocolState_RUNNING
| ProtocolState_OK
| ProtocolState_ERR
| ProtocolState_NACK
| ProtocolState_WAIT_ACTION
| ProtocolState_ACK.

Definition ProtocolState_State_eqb (a b : ProtocolState_State) : bool :=
  match a, b with
  | ProtocolState_RUNNING, ProtocolState_RUNNING
  | ProtocolState_OK, ProtocolState_OK
  | ProtocolState_ERR, ProtocolState_ERR
  | ProtocolState_NACK, ProtocolState_NACK
  | ProtocolState_WAIT_ACTION, ProtocolState_WAIT_ACTION
  | ProtocolState_ACK, ProtocolState_ACK => true
  | _, _ => false
  end.

Inductive Protocol_Role :=
| Protocol_UNKNOWN
| Protocol_INITIATOR
| Protocol_ADDRESSEE
| Protocol_RESUME.

(** The protocol types, numbered as the [protocolName] table of the server
    indexes them. *)
Inductive Protocol_Type :=
| Protocol_NONE
| Protocol_CONNECT
| Protocol_ISSUE
| Protocol_PROOF
| Protocol_TRUST_PING
| Protocol_BASIC_MESSAGE.

Definition Protocol_Type_num (t : Protocol_Type) : Z :=
  match t with
  | Protocol_NONE => 0
  | Protocol_CONNECT => 1
  | Protocol_ISSUE => 2
  | Protocol_PROOF => 3
  | Protocol_TRUST_PING => 4
  | Protocol_BASIC_MESSAGE => 5
  end.

End pb.

(** ** Package psm: substates and the persisted record *)

Module psm.

(** Modelled from the spec: package psm is not among the sources.  Section 3
    describes the substate as a bitfield over
    {Sending, Waiting, Ready, Failure, ACK, NACK, Archiving}; the flags get
    one bit each, in that order. *)
Definition SubState := Z.

Definition Sending : SubState := 1.
Definition Waiting : SubState := 2.
Definition Ready : SubState := 4.
Definition Failure : SubState := 8.
Definition ACK : SubState := 16.
Definition NACK : SubState := 32.
Definition Archiving : SubState := 64.

Definition ReadyACK : SubState := Z.lor Ready ACK.
Definition ReadyNACK : SubState := Z.lor Ready NACK.

(** Modelled from the spec: [Pure()] projects the ACK/NACK decision away;
    "terminal states are any substate whose Pure() projection is Ready or
    Failure (archiving bit may accompany)", so the archiving bit stays. *)
Definition Pure (ss : SubState) : SubState := Z.ldiff ss (Z.lor ACK NACK).

Record StateKey := { DID : string; Nonce : string }.

#[global] Instance StateKey_eq_dec : EqDecision StateKey.
Proof. solve_decision. Defined.

(** Modelled from the spec: one entry of the append-only record, with the
    fields section 3 lists (the task payload is kept as its thread-id and
    type-id) and the message type a [Waiting] entry is tagged with. *)
Record State := {
  Sub : SubState;
  Timestamp : Z;
  Initiator : bool;
  TaskID : string;
  TypeID : string;
  ConnID : string;
  Next : string;
  UserAction : bool
}.

Record PSM := { Key : StateKey; States : list State }.

(** Modelled from the spec: "the last entry is the authoritative current
    state"; [nil] in Go when the record has no entry. *)
Definition LastState (m : PSM) : option State := last (States m).

(** Modelled from the spec: the optional "pending user action" flag of the
    current state. *)
Definition PendingUserAction (m : PSM) : bool :=
  match LastState m with
  | Some s => UserAction s
  | None => false
  end.

(** Modelled from the spec: a substate is terminal when its [Pure()]
    projection is [Ready] or [Failure], with or without the archiving bit. *)
Definition terminal (ss : SubState) : bool :=
  let p := Pure ss in
  (p =? Ready) || (p =? Z.lor Ready Archiving)
  || (p =? Failure) || (p =? Z.lor Failure Archiving).

End psm.


(** ** Package pltype: payload type names *)

Module pltype.

(** The string constants of package pltype are not among the sources; the
    functions below take them as a parameter.  The Go compiler rejects a
    [switch] or a map literal with two equal constant cases, which is what
    [distinct_questions] records for the cases of the permissive handler. *)
Record Consts := {
  Terminate : string;
  ConnectionError : string;
  CANotifyStatus : string;
  CANotifyUserAction : string;
  SAPing : string;
  SAIssueCredentialAcceptPropose : string;
  SAPresentProofAcceptPropose : string;
  SAPresentProofAcceptValues : string;
  CAPairwiseCreate : string;
  CACredOffer : string;
  CACredRequest : string;
  CAProofRequest : string;
  CAProofPropose : string;
  CATrustPing : string;
  CABasicMessage : string;
  CAContinueIssueCredentialProtocol : string;
  CAContinuePresentProofProtocol : string
}.

Definition handler_cases (pl : Consts) : list string :=
  [CANotifyStatus pl; SAPing pl; SAIssueCredentialAcceptPropose pl;
   SAPresentProofAcceptPropose pl; SAPresentProofAcceptValues pl].

Definition distinct_questions (pl : Consts) : Prop := NoDup (handler_cases pl).

(** The payload types on which the agency asks the SA a question and waits
    for the answer: the [ANSWER_NEEDED_*] rows of [notificationTypeID]. *)
Definition questions (pl : Consts) : list string :=
  [SAPing pl; SAIssueCredentialAcceptPropose pl;
   SAPresentProofAcceptPropose pl; SAPresentProofAcceptValues pl].

End pltype.

(** ** The part of the process state the callbacks can reach *)

(** [drawn] counts the nonces and UUIDs handed out so far by
    [utils.NewNonceStr] / [utils.UUID]; [psms] is the PSM store, one record
    per (worker DID, nonce). *)
Record World := {
  drawn : nat;
  psms : gmap (string * string) psm.PSM
}.

Definition draw (w : World) : nat * World :=
  (drawn w, {| drawn := S (drawn w); psms := psms w |}).

(** ** Package sa: Service-Agent implementations *)

Module sa.

Import didcomm.

Definition PermissiveSA : string := "permissive_sa".

(** A registered SA implementation: [func(WDID, plType string, im Msg)
    (om Msg, err error)].  A nil [om] is [None]. *)
Definition Handler : Type :=
  string -> string -> Msg -> World -> outcome (option Msg) * World.

Section Permissive.

Variable pl : pltype.Consts.
Variable NewNonceStr : nat -> string.

Definition permissiveHandler (WDID plType : string) (im : Msg) (w : World)
  : outcome (option Msg) * World :=
  if String.eqb plType (pltype.CANotifyStatus pl) then
    (Returns None, w)
  else if String.eqb plType (pltype.SAPing pl) then
    let om := im in
    let om := SetReady true om in
    let om := SetInfo "SA ping OK" om in
    (Returns (Some om), w)
  else if String.eqb plType (pltype.SAIssueCredentialAcceptPropose pl) then
    let om := im in
    let om := SetReady true om in
    (Returns (Some om), w)
  else if String.eqb plType (pltype.SAPresentProofAcceptPropose pl) then
    let om := im in
    let attrInfo := {| attr_Name := "email" |} in
    let reqAttrs : gmap string AttrInfo := {[ "attr1_referent"%string := attrInfo ]} in
    let '(n, w) := draw w in
    let nonce := NewNonceStr n in
    let proofRequest :=
      {| pr_Name := "FirstProofReq";
         pr_Version := "0.1";
         pr_Nonce := nonce;
         pr_RequestedAttributes := reqAttrs;
         pr_RequestedPredicates := ∅ |} in
    let om := SetSubMsg (SubProofRequest proofRequest) om in
    let om := SetReady true om in
    (Returns (Some om), w)
  else if String.eqb plType (pltype.SAPresentProofAcceptValues pl) then
    let om := im in
    let om := SetReady true om in
    (Returns (Some om), w)
  else
    (Returns None, w).

End Permissive.

(** Modelled from the spec: [sa.Add] and [sa.Get] are not among the
    sources; "the SA implementation is chosen by a string identifier", a
    string map of implementations, in which [init] of this package puts the
    permissive handler under its id. *)
Definition Get (registry : gmap string Handler) (implID : string) : option Handler :=
  registry !! implID.

End sa.

(** ** Packages ssi, sec, service, trans: the values an agent holds *)

Module ssi.

Record DID := { Did : string; VerKey : string }.

End ssi.

Module sec.

(** A secure pipe: my DID in, their DID out.  Both pointers are taken to be
    set. *)
Record Pipe := { In : ssi.DID; Out : ssi.DID }.

End sec.

Module service.

Record Addr := { Endp : string; Key : string }.

End service.

Module trans.

Record Transport := { PLPipe : sec.Pipe; MsgPipe : sec.Pipe }.

Definition PayloadPipe (t : Transport) : sec.Pipe := PLPipe t.

(** The typed reply of an endpoint call. *)
Record Payload := { Type_ : string; Message : didcomm.Msg }.

End trans.

Module indypw.

Record Data := { MyDid : string; TheirDid : string; Metadata : string }.

End indypw.

(** ** Package cloud: the agent *)

Module cloud.

Import didcomm.

Definition addr := positive.

Definition PipeMap := gmap string sec.Pipe.

(** [AgentType], [Root], [SAImplID], [EAEndp] and [Wallet] are the fields
    of the embedded [ssi.DIDAgent] the code below reads; [worker] and [ca]
    are pointers into the heap of agents; a [PipeMap] that was never made is
    [None]. *)
Record Agent := {
  AgentType : Z;
  Root : ssi.DID;
  SAImplID : string;
  EAEndp : option service.Addr;
  Wallet : Z;
  Tr : trans.Transport;
  worker : option addr;
  ca : option addr;
  pws : option (gmap string sec.Pipe);
  pwNames : option (gmap string sec.Pipe)
}.

Definition set_SAImplID (s : string) (a : Agent) : Agent :=
  {| AgentType := AgentType a; Root := Root a; SAImplID := s; EAEndp := EAEndp a;
     Wallet := Wallet a; Tr := Tr a; worker := worker a; ca := ca a;
     pws := pws a; pwNames := pwNames a |}.

Definition set_EAEndp (e : option service.Addr) (a : Agent) : Agent :=
  {| AgentType := AgentType a; Root := Root a; SAImplID := SAImplID a; EAEndp := e;
     Wallet := Wallet a; Tr := Tr a; worker := worker a; ca := ca a;
     pws := pws a; pwNames := pwNames a |}.

Definition set_worker (w : option addr) (a : Agent) : Agent :=
  {| AgentType := AgentType a; Root := Root a; SAImplID := SAImplID a; EAEndp := EAEndp a;
     Wallet := Wallet a; Tr := Tr a; worker := w; ca := ca a;
     pws := pws a; pwNames := pwNames a |}.

Definition set_maps (p n : option (gmap string sec.Pipe)) (a : Agent) : Agent :=
  {| AgentType := AgentType a; Root := Root a; SAImplID := SAImplID a; EAEndp := EAEndp a;
     Wallet := Wallet a; Tr := Tr a; worker := worker a; ca := ca a;
     pws := p; pwNames := n |}.

(** What the agent calls outside this package: the type flags and predicates
    of [ssi.DIDAgent], the default implementation id [sa.GRPCSA], the wallet
    and enclave services and the transport's endpoint call. *)
Record Externals := {
  Edge : Z;
  Worker : Z;
  IsCA : Z -> bool;
  IsWorker : Z -> bool;
  GRPCSA : string;
  Meta : Z -> string -> outcome string;
  AddrFromJSON : string -> service.Addr;
  DIDComCallEndp : string -> string -> Msg -> outcome trans.Payload;
  LoadDID : string -> ssi.DID;
  WalletKeyByDID : string -> outcome string;
  CreateWorkerWallet : Z -> string -> string -> Z * bool;
  NewWalletMasterSecret : string -> outcome string;
  ProverCreateMasterSecret : Z -> string -> outcome string;
  List_ : Z -> outcome (list indypw.Data)
}.

Definition callType := Z.
Definition callTypeImplID : callType := 1.
Definition callTypeEndp : callType := 2.

(** The heap of agents and the process-wide table [comm.ActiveRcvrs]. *)
Record Machine := {
  agents : gmap addr Agent;
  ActiveRcvrs : gmap string addr
}.

Section Agent.

Variable pl : pltype.Consts.
Variable ext : Externals.
Variable registry : gmap string sa.Handler.

Definition AutoPermission (a : Agent) : bool := String.eqb (SAImplID a) "permissive_sa".

Definition WDID (a : Agent) : string := ssi.Did (sec.Out (trans.PayloadPipe (Tr a))).

Definition checkSAImpl (a : Agent) : callType * Agent :=
  if negb (String.eqb (SAImplID a) "") then
    (callTypeImplID, a)
  else
    let a := set_SAImplID (GRPCSA ext) a in
    (callTypeImplID, a).

Definition callableEA (a : Agent) : outcome callType * Agent :=
  if negb (IsCA ext (AgentType a)) then
    (Panics "not a CA", a)
  else
    let a :=
      if String.eqb (SAImplID a) "" && negb (bool_decide (is_Some (EAEndp a))) then
        let theirDid := ssi.Did (sec.Out (trans.PayloadPipe (Tr a))) in
        match Meta ext (Wallet a) theirDid with
        | Returns str1 =>
            if negb (String.eqb str1 "pairwise") && negb (String.eqb str1 "") then
              set_EAEndp (Some (AddrFromJSON ext str1)) a
            else a
        | _ => a
        end
      else a in
    let '(ct, a) := checkSAImpl a in
    (Returns ct, a).

Definition callEA (a : Agent) (plType : string) (msg : Msg) : outcome (option Msg) :=
  match EAEndp a with
  | None => Panics "nil pointer dereference"
  | Some endp =>
      ipl <- DIDComCallEndp ext (service.Endp endp) plType msg ;;
      if String.eqb (trans.Type_ ipl) (pltype.ConnectionError pl) then
        Fails "call ea api"
      else
        Returns (Some (trans.Message ipl))
  end.

(** The handler [CallEA] defers with [err2.Handle]: it runs when the body
    ended with an error and rewrites the results. *)
Definition CallEA_deferred (im : Msg) (r : outcome (option Msg)) : outcome (option Msg) :=
  match r with
  | Fails _ =>
      let om := im in
      let om := SetReady false om in
      Returns (Some om)
  | _ => r
  end.

(** The [switch] of [CallEA], on the value [callableEA] returned. *)
Definition CallEA_switch (ct : callType) (a : Agent) (plType : string) (im : Msg) (w : World)
  : outcome (option Msg) * World :=
  if ct =? callTypeEndp then
    (callEA a plType im, w)
  else if ct =? callTypeImplID then
    match sa.Get registry (SAImplID a) with
    | Some impl => impl (WDID a) plType im w
    | None => (Panics "nil pointer dereference", w)
    end
  else
    let om := im in
    let om := SetReady false om in
    let info := "no SA endpoint or implementation ID set"%string in
    let om := SetInfo info om in
    (Returns (Some om), w).

Definition CallEA (a : Agent) (plType : string) (im : Msg) (w : World)
  : outcome (option Msg) * Agent * World :=
  match callableEA a with
  | (Returns ct, a) =>
      let '(r, w) := CallEA_switch ct a plType im w in
      (CallEA_deferred im r, a, w)
  | (Fails e, a) => (CallEA_deferred im (Fails e), a, w)
  | (Panics p, a) => (Panics p, a, w)
  end.

Definition MyCA (self : addr) (m : Machine) : outcome addr :=
  match agents m !! self with
  | None => Panics "nil pointer dereference"
  | Some a =>
      if negb (IsWorker ext (AgentType a)) then
        Panics "not a worker agent! don't have CA"
      else match ca a with
           | None => Panics "CA is nil in Worker EA"
           | Some c => Returns c
           end
  end.

Definition loadPWMap_step (a : Agent) (d : indypw.Data) : outcome Agent :=
  let outDID := LoadDID ext (indypw.TheirDid d) in
  let p := {| sec.In := LoadDID ext (indypw.MyDid d); sec.Out := outDID |} in
  match pws a, pwNames a with
  | Some byDID, Some byName =>
      Returns (set_maps (Some (<[indypw.MyDid d := p]> byDID))
                        (Some (<[indypw.Metadata d := p]> byName)) a)
  | _, _ => Panics "assignment to entry in nil map"
  end.

Fixpoint loadPWMap_range (a : Agent) (pwd : list indypw.Data) : outcome Agent :=
  match pwd with
  | [] => Returns a
  | d :: rest => a <- loadPWMap_step a d ;; loadPWMap_range a rest
  end.

Definition loadPWMap (a : Agent) : outcome Agent :=
  match List_ ext (Wallet a) with
  | Returns pwd => loadPWMap_range a pwd
  | _ => Returns a
  end.

Definition AddToPWMap (a : Agent) (me you : ssi.DID) (name : string)
  : outcome (sec.Pipe * Agent) :=
  let pipe := {| sec.In := me; sec.Out := you |} in
  match pws a, pwNames a with
  | Some byDID, Some byName =>
      Returns (pipe, set_maps (Some (<[ssi.Did me := pipe]> byDID))
                              (Some (<[name := pipe]> byName)) a)
  | _, _ => Panics "assignment to entry in nil map"
  end.

Definition AddPipeToPWMap (a : Agent) (p : sec.Pipe) (name : string) : outcome Agent :=
  match pws a, pwNames a with
  | Some byDID, Some byName =>
      Returns (set_maps (Some (<[ssi.Did (sec.In p) := p]> byDID))
                        (Some (<[name := p]> byName)) a)
  | _, _ => Panics "assignment to entry in nil map"
  end.

(** [a.pws[meDID]]; a missing key is [None] (the zero pipe in Go). *)
Definition SecPipe (a : Agent) (meDID : string) : option sec.Pipe :=
  match pws a with
  | Some byDID => byDID !! meDID
  | None => None
  end.

Definition PwName (a : Agent) (name : string) : option sec.Pipe :=
  match pwNames a with
  | Some byName => byName !! name
  | None => None
  end.

Definition store (self : addr) (a : Agent) (m : Machine) : Machine :=
  {| agents := <[self := a]> (agents m); ActiveRcvrs := ActiveRcvrs m |}.

(** The tail of [workerAgent], after [comm.ActiveRcvrs.Add]: the master
    secret of a wallet that is new, then the pairwise map.  The worker is
    already reachable from its CA when one of these panics. *)
Definition workerAgent_finish (self w : addr) (a wa : Agent)
    (walletInitializedBefore : bool) (m : Machine) : outcome addr * Machine :=
  let secret : outcome unit :=
    if negb walletInitializedBefore then
      match NewWalletMasterSecret ext (ssi.Did (Root a)) with
      | Returns masterSec =>
          match ProverCreateMasterSecret ext (Wallet wa) masterSec with
          | Returns str1 =>
              if String.eqb masterSec str1 then Returns tt else Panics "nil"
          | Fails e => Fails e
          | Panics p => Panics p
          end
      | Fails e => Fails e
      | Panics p => Panics p
      end
    else Returns tt in
  match secret with
  | Returns _ =>
      match loadPWMap wa with
      | Returns wa => (Returns w, store w wa m)
      | Fails e => (Fails e, m)
      | Panics p => (Panics p, m)
      end
  | Fails e => (Fails e, m)
  | Panics p => (Panics p, m)
  end.

Definition workerAgent (self : addr) (rcvrDID suffix : string) (m : Machine)
  : outcome addr * Machine :=
  match agents m !! self with
  | None => (Panics "nil pointer dereference", m)
  | Some a =>
      match worker a with
      | Some w => (Returns w, m)
      | None =>
          if negb (String.eqb rcvrDID (ssi.Did (sec.Out (trans.PayloadPipe (Tr a))))) then
            (Panics "Agent URL doesn't match with Transport", m)
          else
            match WalletKeyByDID ext (ssi.Did (Root a)) with
            | Returns key =>
                let '(handle, walletInitializedBefore) :=
                  CreateWorkerWallet ext (Wallet a) suffix key in
                let workerMeDID := LoadDID ext rcvrDID in
                let workerYouDID := sec.In (trans.PayloadPipe (Tr a)) in
                let cloudPipe := {| sec.In := workerMeDID; sec.Out := workerYouDID |} in
                let transport := {| trans.PLPipe := cloudPipe; trans.MsgPipe := cloudPipe |} in
                let w : addr := fresh (dom (agents m)) in
                let wa :=
                  {| AgentType := Z.lor (Edge ext) (Worker ext);
                     Root := Root a;
                     SAImplID := "";
                     EAEndp := None;
                     Wallet := handle;
                     Tr := transport;
                     worker := None;
                     ca := Some self;
                     pws := Some ∅;
                     pwNames := Some ∅ |} in
                let m := store w wa m in
                let m := store self (set_worker (Some w) a) m in
                let m := {| agents := agents m;
                            ActiveRcvrs := <[rcvrDID := w]> (ActiveRcvrs m) |} in
                workerAgent_finish self w a wa walletInitializedBefore m
            | Fails e => (Fails e, m)
            | Panics p => (Panics p, m)
            end
      end
  end.

Definition WEA (self : addr) (m : Machine) : outcome addr * Machine :=
  match agents m !! self with
  | None => (Panics "nil pointer dereference", m)
  | Some a =>
      match worker a with
      | Some w => (Returns w, m)
      | None =>
          let rcvrDID := ssi.Did (sec.Out (trans.PayloadPipe (Tr a))) in
          workerAgent self rcvrDID "_worker" m
      end
  end.

Definition WorkerEA (self : addr) (m : Machine) : outcome addr * Machine := WEA self m.

End Agent.

End cloud.

(** ** Package comm: packets and task headers *)

Module comm.

Record TaskHeader := {
  TaskID : string;
  TypeID : string;
  ConnID : string;
  UserActionType : string
}.

(** An inbound packet: the payload's protocol message name, type and
    thread-id, its message, and the worker DID of the receiving agent. *)
Record Packet := {
  ProtocolMsg : string;
  Type_ : string;
  ThreadID : string;
  Message : didcomm.Msg;
  ReceiverWDID : string;
  Address : string
}.

End comm.

(** ** Package prot: the PSM engine *)

Module prot.

Import didcomm.

Record Envelope := {
  env_Type : string;
  env_ThreadID : string;
  env_To : string;
  env_Msg : Msg
}.

(** The store of PSM records, the clock that stamps entries, the events
    posted on the notification bus and the envelopes handed to the pairwise
    pipe, oldest first. *)
Record Engine := {
  world : World;
  clock : Z;
  events : list ((string * string) * psm.SubState);
  outbox : list Envelope
}.

(** [InOut] gets the connection id, the inbound message and the outbound
    message under construction; it answers with the ACK bit and the outbound
    message as it left it, or with an error. *)
Record Transition := {
  Packet : comm.Packet;
  SendNext : string;
  WaitingNext : string;
  Task : option comm.TaskHeader;
  InOut : string -> Msg -> Msg -> outcome (bool * Msg)
}.

(** Modelled from the spec: step 1, "look up (or create) PSM by key". *)
Definition lookupPSM (key : string * string) (e : Engine) : psm.PSM :=
  default {| psm.Key := {| psm.DID := key.1; psm.Nonce := key.2 |}; psm.States := [] |}
          (psms (world e) !! key).

(** Modelled from the spec: a transition writes exactly one new entry at
    the end of the record of [key], stamped by the clock, and every substate
    transition is posted on the bus for that key. *)
Definition persist (key : string * string) (s : psm.State) (e : Engine) : Engine :=
  let m := lookupPSM key e in
  let entry :=
    {| psm.Sub := psm.Sub s; psm.Timestamp := clock e; psm.Initiator := psm.Initiator s;
       psm.TaskID := psm.TaskID s; psm.TypeID := psm.TypeID s; psm.ConnID := psm.ConnID s;
       psm.Next := psm.Next s; psm.UserAction := psm.UserAction s |} in
  let m := {| psm.Key := psm.Key m; psm.States := psm.States m ++ [entry] |} in
  {| world := {| drawn := drawn (world e); psms := <[key := m]> (psms (world e)) |};
     clock := clock e + 1;
     events := events e ++ [(key, psm.Sub s)];
     outbox := outbox e |}.

(** Modelled from the spec: "send the envelope via the pairwise pipe". *)
Definition post (env : Envelope) (e : Engine) : Engine :=
  {| world := world e; clock := clock e; events := events e; outbox := outbox e ++ [env] |}.

Section Engine.

Variable pl : pltype.Consts.

(** What section 4.C leaves to the host: which messages to a closed
    instance a protocol takes for permitted retransmissions, whether the
    durable store takes a write for a key, and whether the pairwise pipe
    delivers an envelope. *)
Variable permitted : psm.PSM -> comm.Packet -> bool.
Variable writable : string * string -> bool.
Variable pipeSend : Envelope -> bool.

(** Modelled from the spec: "the record's last state is terminal". *)
Definition closed (m : psm.PSM) : bool :=
  match psm.LastState m with
  | Some last => psm.terminal (psm.Sub last)
  | None => false
  end.

(** Modelled from the spec: the entry a transition persists, with the
    substate, the role of the instance, the task, the connection and the
    tag and flag of a [Waiting] entry. *)
Definition entryOf (t : Transition) (m : psm.PSM) (sub : psm.SubState) (next : string)
    (waitsUser : bool) : psm.State :=
  {| psm.Sub := sub;
     psm.Timestamp := 0;
     psm.Initiator := match head (psm.States m) with
                      | Some first => psm.Initiator first
                      | None => false
                      end;
     psm.TaskID := comm.ThreadID (Packet t);
     psm.TypeID := match Task t with
                   | Some h => comm.TypeID h
                   | None => comm.Type_ (Packet t)
                   end;
     psm.ConnID := comm.Address (Packet t);
     psm.Next := next;
     psm.UserAction := waitsUser |}.

(** Modelled from the spec: [prot.ExecPSM] is not among the sources.  The
    steps are those of section 4.C.2: (1) look the record up by
    (worker DID, thread-id); a record whose last state is terminal gets no
    further entry (section 3: the terminal states are absorbing; section 8:
    a terminal instance gets zero entries and its terminal substate stays
    the last), so the message is refused with [ProtocolClosed], unless it is
    a retransmission the protocol permits, which is dropped without a state
    change; (2) persist [Sending], (3) build the outbound message and run
    [InOut], (4) on error persist [Failure], (5) on [Terminate] persist
    [ReadyACK] or [ReadyNACK] and send nothing, (6) else send and persist
    [Waiting], (7) with the pending-user-action flag when the task waits
    for a user decision. *)
Definition ExecPSM (t : Transition) (e : Engine) : outcome unit * Engine :=
  let packet := Packet t in
  let key := (comm.ReceiverWDID packet, comm.ThreadID packet) in
  let m := lookupPSM key e in
  if closed m then
    if permitted m packet then (Returns tt, e) else (Fails "ProtocolClosed", e)
  else if negb (writable key) then
    (Fails "PersistenceFailure", e)
  else
    let e := persist key (entryOf t m psm.Sending "" false) e in
    let im := comm.Message packet in
    let om := {| Info := ""; Ready := false; Sub := SubNil; ThreadID := comm.ThreadID packet |} in
    match InOut t (comm.Address packet) im om with
    | Returns (ack, om) =>
        if String.eqb (SendNext t) (pltype.Terminate pl) then
          let sub := if ack then psm.ReadyACK else psm.ReadyNACK in
          (Returns tt, persist key (entryOf t m sub "" false) e)
        else
          let env := {| env_Type := SendNext t; env_ThreadID := comm.ThreadID packet;
                        env_To := comm.Address packet; env_Msg := om |} in
          if pipeSend env then
            let waitsUser :=
              match Task t with
              | Some h => negb (String.eqb (comm.UserActionType h) "")
              | None => false
              end in
            (Returns tt,
             persist key (entryOf t m psm.Waiting (WaitingNext t) waitsUser) (post env e))
          else
            (Fails "TransportFailure", persist key (entryOf t m psm.Failure "" false) e)
    | Fails err => (Fails err, persist key (entryOf t m psm.Failure "" false) e)
    | Panics p => (Panics p, e)
    end.

End Engine.

End prot.

(** ** Package issuecredential *)

Module issuecredential.

Import didcomm.

Section Processor.

Variable pl : pltype.Consts.
Variable permitted : psm.PSM -> comm.Packet -> bool.
Variable writable : string * string -> bool.
Variable pipeSend : prot.Envelope -> bool.

(** The transition [handleCredentialNACK] hands to [prot.ExecPSM]. *)
Definition credentialNACK (packet : comm.Packet) : prot.Transition :=
  {| prot.Packet := packet;
     prot.SendNext := pltype.Terminate pl;
     prot.WaitingNext := pltype.Terminate pl;
     prot.Task := None;
     prot.InOut := fun (connID : string) (im om : Msg) => Returns (false, om) |}.

Definition handleCredentialNACK (packet : comm.Packet) (e : prot.Engine)
  : outcome unit * prot.Engine :=
  prot.ExecPSM pl permitted writable pipeSend (credentialNACK packet) e.

End Processor.

End issuecredential.

(** ** Package presentproof *)

Module presentproof.

Import didcomm.

Section Processor.

Variable pl : pltype.Consts.
Variable permitted : psm.PSM -> comm.Packet -> bool.
Variable writable : string * string -> bool.
Variable pipeSend : prot.Envelope -> bool.

Definition proofACK (packet : comm.Packet) (proofTask : option comm.TaskHeader)
  : prot.Transition :=
  {| prot.Packet := packet;
     prot.SendNext := pltype.Terminate pl;
     prot.WaitingNext := pltype.Terminate pl;
     prot.Task := proofTask;
     prot.InOut := fun (connID : string) (im om : Msg) => Returns (true, om) |}.

Definition proofNACK (packet : comm.Packet) (proofTask : option comm.TaskHeader)
  : prot.Transition :=
  {| prot.Packet := packet;
     prot.SendNext := pltype.Terminate pl;
     prot.WaitingNext := pltype.Terminate pl;
     prot.Task := proofTask;
     prot.InOut := fun (connID : string) (im om : Msg) => Returns (false, om) |}.

Definition handleProofACK (packet : comm.Packet) (proofTask : option comm.TaskHeader)
    (e : prot.Engine) : outcome unit * prot.Engine :=
  prot.ExecPSM pl permitted writable pipeSend (proofACK packet proofTask) e.

Definition handleProofNACK (packet : comm.Packet) (proofTask : option comm.TaskHeader)
    (e : prot.Engine) : outcome unit * prot.Engine :=
  prot.ExecPSM pl permitted writable pipeSend (proofNACK packet proofTask) e.

(** The task [handleProtocol] builds for a packet that carries a thread-id. *)
Definition taskOf (packet : comm.Packet) : option comm.TaskHeader :=
  if negb (String.eqb (comm.ThreadID packet) "") then
    Some {| comm.TaskID := comm.ThreadID packet;
            comm.TypeID := comm.Type_ packet;
            comm.ConnID := "";
            comm.UserActionType := "" |}
  else None.

End Processor.

End presentproof.

(** ** Package server: the gRPC protocol service *)

Module server.

Import pb.

Record Attribute := { attr_Name : string; attr_Value : string }.

Record ProofAttribute := {
  pa_Name : string;
  pa_CredDefID : string;
  pa_Predicate : string
}.

Record Invitation := { ID : string; inv_Label : string; inv_Endpoint : string }.

Record Protocol_Connection := { InvitationJson : string; Label : string }.

Inductive AttrFmt (A : Type) :=
| NoAttrs
| Attrs (l : list A)
| AttributesJson (json : string).
Arguments NoAttrs {A}.
Arguments Attrs {A} l.
Arguments AttributesJson {A} json.

Record Protocol_Issuing := { CredDefId : string; iss_AttrFmt : AttrFmt Attribute }.

Record Protocol_Proof := { proof_AttrFmt : AttrFmt ProofAttribute }.

(** The [StartMsg] oneof of [pb.Protocol]. *)
Inductive StartMsg :=
| NoStartMsg
| ConnAttr (c : Protocol_Connection)
| CredDef (c : Protocol_Issuing)
| ProofReq (p : Protocol_Proof)
| BasicMessage (s : string).

Record Protocol := {
  ConnectionId : string;
  TypeId : Protocol_Type;
  Role : Protocol_Role;
  Start : StartMsg
}.

Definition GetBasicMessage (p : Protocol) : string :=
  match Start p with BasicMessage s => s | _ => "" end.

Definition GetConnAttr (p : Protocol) : option Protocol_Connection :=
  match Start p with ConnAttr c => Some c | _ => None end.

Definition GetCredDef (p : Protocol) : option Protocol_Issuing :=
  match Start p with CredDef c => Some c | _ => None end.

Definition GetProofReq (p : Protocol) : option Protocol_Proof :=
  match Start p with ProofReq r => Some r | _ => None end.

Record ProtocolID := {
  pid_TypeID : Protocol_Type;
  pid_Role : Protocol_Role;
  pid_ID : string
}.

Record ProtocolState := {
  ProtocolID_ : option ProtocolID;
  State : ProtocolState_State;
  Info : string
}.

(** [state.GetState()]. *)
Definition GetState (s : ProtocolState) : ProtocolState_State := State s.

(** [comm.Task] as [taskFrom] fills it in. *)
Record Task := {
  Nonce : string;
  TypeID : string;
  Message : string;
  task_Info : string;
  ConnectionInvitation : option Invitation;
  CredDefID : option string;
  CredentialAttrs : option (list Attribute);
  ProofAttrs : option (list ProofAttribute)
}.

(** Modelled from the spec: [task.ID()] is not among the sources; "the
    nonce is the protocol thread-id". *)
Definition Task_ID (t : Task) : string := Nonce t.

(** An entry of the agency's handler table: a CA that is a [comm.Receiver]
    (kept as its worker DID), or a handler of another kind. *)
Inductive AgencyHandler :=
| Receiver (workerDID : string)
| Other.

(** One call forwarded to [prot.Resume]. *)
Record ResumeCall := {
  rc_Receiver : string;
  rc_TypeID : string;
  rc_ProtocolID : string;
  rc_Ack : bool
}.

(** A delivery on one of the two channels [Run] selects on. *)
Inductive BusEvent :=
| OnStatus (status : psm.SubState)
| OnUserAction (status : psm.SubState).

(** How a call of [Run] stands after the deliveries it was given: it returned
    (with or without an error), or it is blocked in [select]. *)
Inductive RunEnd :=
| Returned (err : option string)
| Panicked (what : string)
| Selecting.

Section Server.

Variable pl : pltype.Consts.

(** The numbering of [pb.Protocol_Role], the UUID and JSON helpers, token
    validation and the agency's handler table. *)
Variable Protocol_Role_num : Protocol_Role -> Z.
Variable UUID : nat -> string.
Variable InvitationFromJSON : string -> Invitation.
Variable CredAttrsFromJSON : string -> list Attribute.
Variable ProofAttrsFromJSON : string -> list ProofAttribute.
Variable CheckTokenValidity : string -> outcome string.
Variable agency : gmap string AgencyHandler.

(** The n-th [server.Send] on the stream succeeds or not. *)
Variable sendOk : nat -> bool.

(** The externals of package cloud, and the agent on the heap that a
    receiver of the handler table is. *)
Variable ext : cloud.Externals.
Variable agentOf : string -> cloud.addr.

Definition typeKey (role : Protocol_Role) (id : Protocol_Type) : Z :=
  int32 (int32 (10 * Protocol_Role_num role) + int32 (Protocol_Type_num id)).

Definition typeID : gmap Z string :=
  list_to_map
    [ (typeKey Protocol_INITIATOR Protocol_CONNECT, pltype.CAPairwiseCreate pl);
      (typeKey Protocol_INITIATOR Protocol_ISSUE, pltype.CACredOffer pl);
      (typeKey Protocol_ADDRESSEE Protocol_ISSUE, pltype.CACredRequest pl);
      (typeKey Protocol_INITIATOR Protocol_PROOF, pltype.CAProofRequest pl);
      (typeKey Protocol_ADDRESSEE Protocol_PROOF, pltype.CAProofPropose pl);
      (typeKey Protocol_INITIATOR Protocol_TRUST_PING, pltype.CATrustPing pl);
      (typeKey Protocol_INITIATOR Protocol_BASIC_MESSAGE, pltype.CABasicMessage pl);
      (typeKey Protocol_RESUME Protocol_ISSUE, pltype.CAContinueIssueCredentialProtocol pl);
      (typeKey Protocol_RESUME Protocol_PROOF, pltype.CAContinuePresentProofProtocol pl) ].

Definition uniqueTypeID (role : Protocol_Role) (id : Protocol_Type) : outcome string :=
  let i := typeKey role id in
  match typeID !! i with
  | Some s => Returns s
  | None => Panics "cannot find typeid"
  end.

Definition ca (ctx : string) : outcome (string * string) :=
  let caDID := ctx in
  match agency !! caDID with
  | None => Fails "handler is not in this agency"
  | Some (Receiver rcvr) => Returns (caDID, rcvr)
  | Some Other => Fails "no ca did"
  end.

Definition set_Info (s : string) (t : Task) : Task :=
  {| Nonce := Nonce t; TypeID := TypeID t; Message := Message t; task_Info := s;
     ConnectionInvitation := ConnectionInvitation t; CredDefID := CredDefID t;
     CredentialAttrs := CredentialAttrs t; ProofAttrs := ProofAttrs t |}.

Definition set_Nonce (s : string) (t : Task) : Task :=
  {| Nonce := s; TypeID := TypeID t; Message := Message t; task_Info := task_Info t;
     ConnectionInvitation := ConnectionInvitation t; CredDefID := CredDefID t;
     CredentialAttrs := CredentialAttrs t; ProofAttrs := ProofAttrs t |}.

Definition set_ConnectionInvitation (i : Invitation) (t : Task) : Task :=
  {| Nonce := Nonce t; TypeID := TypeID t; Message := Message t; task_Info := task_Info t;
     ConnectionInvitation := Some i; CredDefID := CredDefID t;
     CredentialAttrs := CredentialAttrs t; ProofAttrs := ProofAttrs t |}.

Definition set_CredDefID (s : string) (t : Task) : Task :=
  {| Nonce := Nonce t; TypeID := TypeID t; Message := Message t; task_Info := task_Info t;
     ConnectionInvitation := ConnectionInvitation t; CredDefID := Some s;
     CredentialAttrs := CredentialAttrs t; ProofAttrs := ProofAttrs t |}.

Definition set_CredentialAttrs (l : list Attribute) (t : Task) : Task :=
  {| Nonce := Nonce t; TypeID := TypeID t; Message := Message t; task_Info := task_Info t;
     ConnectionInvitation := ConnectionInvitation t; CredDefID := CredDefID t;
     CredentialAttrs := Some l; ProofAttrs := ProofAttrs t |}.

Definition set_ProofAttrs (l : list ProofAttribute) (t : Task) : Task :=
  {| Nonce := Nonce t; TypeID := TypeID t; Message := Message t; task_Info := task_Info t;
     ConnectionInvitation := ConnectionInvitation t; CredDefID := CredDefID t;
     CredentialAttrs := CredentialAttrs t; ProofAttrs := Some l |}.

(** [taskFrom]; a [panic(errors.New(..))] is caught by the deferred
    [err2.Return] and comes back as the error, the string panic of
    [uniqueTypeID] is not. *)
Definition taskFrom (protocol : Protocol) (w : World) : outcome Task * World :=
  let '(n, w) := draw w in
  match uniqueTypeID (Role protocol) (TypeId protocol) with
  | Returns tid =>
      let task :=
        {| Nonce := UUID n; TypeID := tid; Message := ConnectionId protocol;
           task_Info := ""; ConnectionInvitation := None; CredDefID := None;
           CredentialAttrs := None; ProofAttrs := None |} in
      match TypeId protocol with
      | Protocol_TRUST_PING => (Returns task, w)
      | Protocol_BASIC_MESSAGE =>
          (Returns (set_Info (GetBasicMessage protocol) task), w)
      | Protocol_CONNECT =>
          match GetConnAttr protocol with
          | None => (Fails "connection attrs cannot be nil", w)
          | Some connAttr =>
              let invitation := InvitationFromJSON (InvitationJson connAttr) in
              let task := set_ConnectionInvitation invitation task in
              let task := set_Info (Label connAttr) task in
              let task := set_Nonce (ID invitation) task in
              (Returns task, w)
          end
      | Protocol_ISSUE =>
          match Role protocol with
          | Protocol_INITIATOR =>
              match GetCredDef protocol with
              | None => (Fails "cred def cannot be nil for issuing protocol", w)
              | Some credDef =>
                  let task := set_CredDefID (CredDefId credDef) task in
                  match iss_AttrFmt credDef with
                  | Attrs l =>
                      let attributes :=
                        map (fun a => {| attr_Name := attr_Name a; attr_Value := attr_Value a |}) l in
                      (Returns (set_CredentialAttrs attributes task), w)
                  | AttributesJson json =>
                      if negb (String.eqb json "") then
                        (Returns (set_CredentialAttrs (CredAttrsFromJSON json) task), w)
                      else (Returns task, w)
                  | NoAttrs => (Returns task, w)
                  end
              end
          | _ => (Returns task, w)
          end
      | Protocol_PROOF =>
          match Role protocol with
          | Protocol_INITIATOR =>
              match GetProofReq protocol with
              | None => (Returns task, w)
              | Some proofReq =>
                  match proof_AttrFmt proofReq with
                  | AttributesJson json =>
                      if negb (String.eqb json "") then
                        (Returns (set_ProofAttrs (ProofAttrsFromJSON json) task), w)
                      else (Returns task, w)
                  | Attrs l =>
                      let attributes :=
                        map (fun a => {| pa_Name := pa_Name a; pa_CredDefID := pa_CredDefID a;
                                         pa_Predicate := pa_Predicate a |}) l in
                      (Returns (set_ProofAttrs attributes task), w)
                  | NoAttrs => (Returns task, w)
                  end
              end
          | _ => (Returns task, w)
          end
      | Protocol_NONE => (Returns task, w)
      end
  | Fails e => (Fails e, w)
  | Panics p => (Panics p, w)
  end.

(** The stream of a [Run] call: what the client received, and how many
    sends were tried. *)
Record Stream := { sent : list ProtocolState; attempts : nat }.

Definition Send (status : ProtocolState) (s : Stream) : bool * Stream :=
  if sendOk (attempts s) then
    (true, {| sent := sent s ++ [status]; attempts := S (attempts s) |})
  else
    (false, {| sent := sent s; attempts := S (attempts s) |}).

(** The handler [Run] defers with [err2.Handle]: an [ERR] state that carries
    the error text; a failure of this send is only logged. *)
Definition Run_deferred (err : string) (s : Stream) : Stream :=
  let status := {| ProtocolID_ := None; State := ProtocolState_ERR; Info := err |} in
  (Send status s).2.

Definition stateOf (task : Task) (code : ProtocolState_State) : ProtocolState :=
  {| ProtocolID_ := Some {| pid_TypeID := Protocol_NONE; pid_Role := Protocol_UNKNOWN;
                            pid_ID := Task_ID task |};
     State := code;
     Info := "" |}.

Inductive LoopExit :=
| Break (statusCode : ProtocolState_State)
| SendFailed
| Blocked.

(** The [for { select { .. } }] of [Run] over the deliveries on the two
    channels, in the order [select] took them. *)
Fixpoint Run_loop (task : Task) (evs : list BusEvent) (s : Stream) : LoopExit * Stream :=
  match evs with
  | [] => (Blocked, s)
  | OnStatus status :: rest =>
      if (status =? psm.ReadyACK) || (status =? psm.ACK) then
        (Break ProtocolState_OK, s)
      else if (status =? psm.ReadyNACK) || (status =? psm.NACK) then
        (Break ProtocolState_NACK, s)
      else if status =? psm.Failure then
        (Break ProtocolState_ERR, s)
      else Run_loop task rest s
  | OnUserAction status :: rest =>
      if status =? psm.Waiting then
        let '(ok, s) := Send (stateOf task ProtocolState_WAIT_ACTION) s in
        if ok then Run_loop task rest s else (SendFailed, s)
      else Run_loop task rest s
  end.

(** Modelled from the spec: package bus is not among the sources; a
    listener "keyed by (workerDID, nonce)" receives the events posted for
    that key, in the order they were posted. *)
Definition delivered (key : string * string) (posted : list ((string * string) * BusEvent))
  : list BusEvent :=
  map snd (filter (fun e => bool_decide (e.1 = key)) posted).

(** Modelled from the spec: [psm.NewStateKey] is not among the sources; an
    instance is keyed by "(workerDID, nonce)", the DID under which the
    worker agent receives. *)
Definition NewStateKey (agent : cloud.Agent) (nonce : string) : string * string :=
  (ssi.Did (sec.In (trans.MsgPipe (cloud.Tr agent))), nonce).

(** [Run].  [receiver.WorkerEA()] makes the worker of the CA when there is
    none; an error it panics with is caught by the deferred handler like
    every other error.  [prot.FindAndStartTask] is not among the sources:
    the call is recorded in [started], oldest first.  [posted] is what is
    posted on the bus once the two listeners are added.  The error of a
    failed [server.Send] is written "send". *)
Definition Run (ctx : string) (protocol : Protocol)
    (posted : list ((string * string) * BusEvent)) (w : World) (m : cloud.Machine)
    (started : list (string * Task))
  : RunEnd * list ProtocolState * World * cloud.Machine * list (string * Task) :=
  let s0 := {| sent := []; attempts := 0 |} in
  match CheckTokenValidity ctx with
  | Returns ctx =>
      match ca ctx with
      | Returns (caDID, receiver) =>
          match taskFrom protocol w with
          | (Returns task, w) =>
              match cloud.WorkerEA ext (agentOf receiver) m with
              | (Returns wa, m) =>
                  match cloud.agents m !! wa with
                  | Some worker =>
                      let key := NewStateKey worker (Task_ID task) in
                      let started := started ++ [(receiver, task)] in
                      match Run_loop task (delivered key posted) s0 with
                      | (Break statusCode, s) =>
                          let '(ok, s) := Send (stateOf task statusCode) s in
                          if ok then (Returned None, sent s, w, m, started)
                          else (Returned (Some "send"), sent (Run_deferred "send" s),
                                w, m, started)
                      | (SendFailed, s) =>
                          (Returned (Some "send"), sent (Run_deferred "send" s), w, m, started)
                      | (Blocked, s) => (Selecting, sent s, w, m, started)
                      end
                  | None => (Panicked "nil pointer dereference", [], w, m, started)
                  end
              | (Fails e, m) => (Returned (Some e), sent (Run_deferred e s0), w, m, started)
              | (Panics p, m) => (Panicked p, [], w, m, started)
              end
          | (Fails e, w) => (Returned (Some e), sent (Run_deferred e s0), w, m, started)
          | (Panics p, w) => (Panicked p, [], w, m, started)
          end
      | Fails e => (Returned (Some e), sent (Run_deferred e s0), w, m, started)
      | Panics p => (Panicked p, [], w, m, started)
      end
  | Fails e => (Returned (Some e), sent (Run_deferred e s0), w, m, started)
  | Panics p => (Panicked p, [], w, m, started)
  end.

Definition Resume (ctx : string) (state : ProtocolState) (calls : list ResumeCall)
  : outcome ProtocolID * list ResumeCall :=
  match ca ctx with
  | Returns (caDID, receiver) =>
      match ProtocolID_ state with
      | None => (Panics "nil pointer dereference", calls)
      | Some pid =>
          match uniqueTypeID (pid_Role pid) (pid_TypeID pid) with
          | Returns tid =>
              let call :=
                {| rc_Receiver := receiver;
                   rc_TypeID := tid;
                   rc_ProtocolID := pid_ID pid;
                   rc_Ack := ProtocolState_State_eqb (GetState state) ProtocolState_ACK |} in
              (Returns pid, calls ++ [call])
          | Fails e => (Fails e, calls)
          | Panics p => (Panics p, calls)
          end
      end
  | Fails e => (Fails e, calls)
  | Panics p => (Panics p, calls)
  end.

Definition calcProtocolState (m : option psm.PSM) : ProtocolState_State :=
  match m with
  | Some m =>
      if psm.PendingUserAction m then ProtocolState_WAIT_ACTION
      else
        match psm.LastState m with
        | Some last =>
            let pure := psm.Pure (psm.Sub last) in
            if (pure =? psm.Ready) || (pure =? Z.lor psm.Ready psm.Archiving) then
              if negb (Z.land (psm.Sub last) psm.ACK =? 0) then ProtocolState_OK
              else ProtocolState_NACK
            else if (pure =? psm.Failure) || (pure =? Z.lor psm.Failure psm.Archiving) then
              ProtocolState_ERR
            else ProtocolState_RUNNING
        | None => ProtocolState_RUNNING
        end
  | None => ProtocolState_RUNNING
  end.

(** The state computation as the description of [Status] words it: the
    [Pure()] projection is compared with [Ready] and [Failure] only. *)
Definition calcProtocolState_described (m : option psm.PSM) : ProtocolState_State :=
  match m with
  | Some m =>
      if psm.PendingUserAction m then ProtocolState_WAIT_ACTION
      else
        match psm.LastState m with
        | Some last =>
            let pure := psm.Pure (psm.Sub last) in
            if pure =? psm.Ready then
              if negb (Z.land (psm.Sub last) psm.ACK =? 0) then ProtocolState_OK
              else ProtocolState_NACK
            else if pure =? psm.Failure then ProtocolState_ERR
            else ProtocolState_RUNNING
        | None => ProtocolState_RUNNING
        end
  | None => ProtocolState_RUNNING
  end.

End Server.

(** The state [Status] reports, as a relation: the reading of the
    description with the archiving overlay admitted next to [Ready] and
    [Failure]. *)
Inductive Reported : option psm.PSM -> ProtocolState_State -> Prop :=
| Reported_none :
    Reported None ProtocolState_RUNNING
| Reported_wait m :
    psm.PendingUserAction m = true ->
    Reported (Some m) ProtocolState_WAIT_ACTION
| Reported_empty m :
    psm.PendingUserAction m = false -> psm.LastState m = None ->
    Reported (Some m) ProtocolState_RUNNING
| Reported_ok m last :
    psm.PendingUserAction m = false -> psm.LastState m = Some last ->
    psm.Pure (psm.Sub last) = psm.Ready \/
      psm.Pure (psm.Sub last) = Z.lor psm.Ready psm.Archiving ->
    Z.land (psm.Sub last) psm.ACK <> 0 ->
    Reported (Some m) ProtocolState_OK
| Reported_nack m last :
    psm.PendingUserAction m = false -> psm.LastState m = Some last ->
    psm.Pure (psm.Sub last) = psm.Ready \/
      psm.Pure (psm.Sub last) = Z.lor psm.Ready psm.Archiving ->
    Z.land (psm.Sub last) psm.ACK = 0 ->
    Reported (Some m) ProtocolState_NACK
| Reported_err m last :
    psm.PendingUserAction m = false -> psm.LastState m = Some last ->
    psm.Pure (psm.Sub last) = psm.Failure \/
      psm.Pure (psm.Sub last) = Z.lor psm.Failure psm.Archiving ->
    Reported (Some m) ProtocolState_ERR
| Reported_running m last :
    psm.PendingUserAction m = false -> psm.LastState m = Some last ->
    psm.Pure (psm.Sub last) <> psm.Ready ->
    psm.Pure (psm.Sub last) <> Z.lor psm.Ready psm.Archiving ->
    psm.Pure (psm.Sub last) <> psm.Failure ->
    psm.Pure (psm.Sub last) <> Z.lor psm.Failure psm.Archiving ->
    Reported (Some m) ProtocolState_RUNNING.

End server.

(** * Vocabulary of the properties, and concrete instances *)

Definition pl0 : pltype.Consts :=
  {| pltype.Terminate := "TERMINATE";
     pltype.ConnectionError := "CONNECTION_ERROR";
     pltype.CANotifyStatus := "CA_NOTIFY_STATUS";
     pltype.CANotifyUserAction := "CA_NOTIFY_USER_ACTION";
     pltype.SAPing := "SA_PING";
     pltype.SAIssueCredentialAcceptPropose := "SA_ISSUE_CREDENTIAL_ACCEPT_PROPOSE";
     pltype.SAPresentProofAcceptPropose := "SA_PRESENT_PROOF_ACCEPT_PROPOSE";
     pltype.SAPresentProofAcceptValues := "SA_PRESENT_PROOF_ACCEPT_VALUES";
     pltype.CAPairwiseCreate := "CA_PAIRWISE_CREATE";
     pltype.CACredOffer := "CA_CRED_OFFER";
     pltype.CACredRequest := "CA_CRED_REQUEST";
     pltype.CAProofRequest := "CA_PROOF_REQUEST";
     pltype.CAProofPropose := "CA_PROOF_PROPOSE";
     pltype.CATrustPing := "CA_TRUST_PING";
     pltype.CABasicMessage := "CA_BASIC_MESSAGE";
     pltype.CAContinueIssueCredentialProtocol := "CA_CONTINUE_ISSUE_CREDENTIAL_PROTOCOL";
     pltype.CAContinuePresentProofProtocol := "CA_CONTINUE_PRESENT_PROOF_PROTOCOL" |}.

Definition hello : didcomm.Msg :=
  {| didcomm.Info := "hello"; didcomm.Ready := false;
     didcomm.Sub := didcomm.SubNil; didcomm.ThreadID := "t-1" |}.

Definition w0 : World := {| drawn := 0; psms := ∅ |}.

Definition nonce0 (n : nat) : string := String.concat "" (repeat "7"%string (S n)).

(** A record whose only entry is [Ready|ACK] with the archiving overlay. *)
Definition archivedACK : psm.PSM :=
  {| psm.Key := {| psm.DID := "did:w"; psm.Nonce := "n-1" |};
     psm.States :=
       [ {| psm.Sub := Z.lor psm.ReadyACK psm.Archiving; psm.Timestamp := 0;
            psm.Initiator := true; psm.TaskID := "n-1"; psm.TypeID := "";
            psm.ConnID := ""; psm.Next := ""; psm.UserAction := false |} ] |}.

Definition roleNum0 (r : pb.Protocol_Role) : Z :=
  match r with
  | pb.Protocol_UNKNOWN => 0
  | pb.Protocol_INITIATOR => 1
  | pb.Protocol_ADDRESSEE => 2
  | pb.Protocol_RESUME => 3
  end.

Definition agency0 : gmap string server.AgencyHandler :=
  {[ "ca-1"%string := server.Receiver "w-1" ]}.

Definition uuid0 (n : nat) : string := String.concat "-" (repeat "u"%string (S n)).

(** The invitation parser of the examples reads the whole text as the id. *)
Definition invitation0 (json : string) : server.Invitation :=
  {| server.ID := json; server.inv_Label := ""; server.inv_Endpoint := "" |}.

Definition connect0 : server.Protocol :=
  {| server.ConnectionId := "";
     server.TypeId := pb.Protocol_CONNECT;
     server.Role := pb.Protocol_INITIATOR;
     server.Start := server.ConnAttr
       {| server.InvitationJson := "inv-42"; server.Label := "alice" |} |}.

Definition pid0 : server.ProtocolID :=
  {| server.pid_TypeID := pb.Protocol_PROOF; server.pid_Role := pb.Protocol_RESUME;
     server.pid_ID := "n-1" |}.

Definition resumeNACK : server.ProtocolState :=
  {| server.ProtocolID_ := Some pid0;
     server.State := pb.ProtocolState_NACK;
     server.Info := "" |}.

(** The substates on which the stream ends, with the state that ends it. *)
Inductive Final : psm.SubState -> pb.ProtocolState_State -> Prop :=
| Final_ReadyACK : Final psm.ReadyACK pb.ProtocolState_OK
| Final_ACK : Final psm.ACK pb.ProtocolState_OK
| Final_ReadyNACK : Final psm.ReadyNACK pb.ProtocolState_NACK
| Final_NACK : Final psm.NACK pb.ProtocolState_NACK
| Final_Failure : Final psm.Failure pb.ProtocolState_ERR.

(** A delivery that does not end the stream: a user-action event, or a
    status that is none of the five above. *)
Definition quiet (e : server.BusEvent) : Prop :=
  match e with
  | server.OnStatus s => forall code, ~ Final s code
  | server.OnUserAction _ => True
  end.

(** The number of [Waiting] user-action events among deliveries. *)
Fixpoint waiting (evs : list server.BusEvent) : nat :=
  match evs with
  | [] => 0
  | server.OnUserAction s :: rest =>
      if decide (s = psm.Waiting) then S (waiting rest) else waiting rest
  | server.OnStatus _ :: rest => waiting rest
  end.

Definition task0 : server.Task :=
  {| server.Nonce := "inv-42";
     server.TypeID := pltype.CAPairwiseCreate pl0;
     server.Message := "";
     server.task_Info := "alice";
     server.ConnectionInvitation := Some (invitation0 "inv-42");
     server.CredDefID := None;
     server.CredentialAttrs := None;
     server.ProofAttrs := None |}.

Definition didMe : ssi.DID := {| ssi.Did := "did:me"; ssi.VerKey := "vk-me" |}.
Definition didYou : ssi.DID := {| ssi.Did := "did:you"; ssi.VerKey := "vk-you" |}.
Definition pipe0 : sec.Pipe := {| sec.In := didMe; sec.Out := didYou |}.

(** A worker agent with both maps made and empty. *)
Definition worker0 : cloud.Agent :=
  {| cloud.AgentType := 3;
     cloud.Root := {| ssi.Did := "did:root"; ssi.VerKey := "vk-root" |};
     cloud.SAImplID := "";
     cloud.EAEndp := None;
     cloud.Wallet := 7;
     cloud.Tr := {| trans.PLPipe := pipe0; trans.MsgPipe := pipe0 |};
     cloud.worker := None;
     cloud.ca := Some 1%positive;
     cloud.pws := Some ∅;
     cloud.pwNames := Some ∅ |}.

Definition nackPacket : comm.Packet :=
  {| comm.ProtocolMsg := "nack"; comm.Type_ := "present-proof/nack";
     comm.ThreadID := "n-1"; comm.Message := hello;
     comm.ReceiverWDID := "w-1"; comm.Address := "conn-1" |}.

Definition engine0 : prot.Engine :=
  {| prot.world := w0; prot.clock := 0; prot.events := []; prot.outbox := [] |}.

Definition keyOf (packet : comm.Packet) : string * string :=
  (comm.ReceiverWDID packet, comm.ThreadID packet).

(** What a terminating transition leaves behind for [key]: two more
    entries at the end of the record, [Sending] and then [sub], the same two
    substates on the bus, and no envelope. *)
Definition ended (key : string * string) (sub : psm.SubState) (e e' : prot.Engine) : Prop :=
  (exists s1 s2,
      psm.States (prot.lookupPSM key e') = psm.States (prot.lookupPSM key e) ++ [s1; s2]
      /\ psm.Sub s1 = psm.Sending /\ psm.Sub s2 = sub)
  /\ prot.events e' = prot.events e ++ [(key, psm.Sending); (key, sub)]
  /\ prot.outbox e' = prot.outbox e.

Definition entry0 (sub : psm.SubState) (stamp : Z) (next : string) : psm.State :=
  {| psm.Sub := sub; psm.Timestamp := stamp; psm.Initiator := true; psm.TaskID := "n-1";
     psm.TypeID := "present-proof/request"; psm.ConnID := "conn-1"; psm.Next := next;
     psm.UserAction := false |}.

Definition request0 : prot.Envelope :=
  {| prot.env_Type := "present-proof/request"; prot.env_ThreadID := "n-1";
     prot.env_To := "conn-1"; prot.env_Msg := hello |}.

(** An engine in which the instance of [nackPacket]'s key was started and
    waits for the peer: [Sending], [Waiting]; the request went out. *)
Definition engine1 : prot.Engine :=
  {| prot.world :=
       {| drawn := 1;
          psms := {[ ("w-1", "n-1")%string :=
                       {| psm.Key := {| psm.DID := "w-1"; psm.Nonce := "n-1" |};
                          psm.States := [entry0 psm.Sending 0 "";
                                         entry0 psm.Waiting 1 "presentation"] |} ]} |};
     prot.clock := 2;
     prot.events := [(("w-1", "n-1")%string, psm.Sending); (("w-1", "n-1")%string, psm.Waiting)];
     prot.outbox := [request0] |}.

(** The same instance after the peer's ACK closed it in [ReadyACK]. *)
Definition engine2 : prot.Engine :=
  {| prot.world :=
       {| drawn := 1;
          psms := {[ ("w-1", "n-1")%string :=
                       {| psm.Key := {| psm.DID := "w-1"; psm.Nonce := "n-1" |};
                          psm.States := [entry0 psm.Sending 0 "";
                                         entry0 psm.Waiting 1 "presentation";
                                         entry0 psm.Sending 2 "";
                                         entry0 psm.ReadyACK 3 ""] |} ]} |};
     prot.clock := 4;
     prot.events := [(("w-1", "n-1")%string, psm.Sending); (("w-1", "n-1")%string, psm.Waiting);
                     (("w-1", "n-1")%string, psm.Sending); (("w-1", "n-1")%string, psm.ReadyACK)];
     prot.outbox := [request0] |}.

Definition ext0 : cloud.Externals :=
  {| cloud.Edge := 1;
     cloud.Worker := 2;
     cloud.IsCA := fun t => Z.land t 1 =? 0;
     cloud.IsWorker := fun t => negb (Z.land t 2 =? 0);
     cloud.GRPCSA := "grpc";
     cloud.Meta := fun _ _ => Fails "no meta";
     cloud.AddrFromJSON := fun s => {| service.Endp := s; service.Key := "" |};
     cloud.DIDComCallEndp := fun _ _ _ => Fails "no endpoint";
     cloud.LoadDID := fun s => {| ssi.Did := s; ssi.VerKey := "" |};
     cloud.WalletKeyByDID := fun _ => Returns "key"%string;
     cloud.CreateWorkerWallet := fun h _ _ => (h + 1, false);
     cloud.NewWalletMasterSecret := fun _ => Returns "master"%string;
     cloud.ProverCreateMasterSecret := fun _ s => Returns s;
     cloud.List_ := fun _ =>
       Returns [ {| indypw.MyDid := "did:me"; indypw.TheirDid := "did:you";
                    indypw.Metadata := "alice" |} ] |}.

(** A CA that has no worker yet, alone on the heap. *)
Definition ca0 : cloud.Agent :=
  {| cloud.AgentType := 0;
     cloud.Root := {| ssi.Did := "did:root"; ssi.VerKey := "vk-root" |};
     cloud.SAImplID := "";
     cloud.EAEndp := None;
     cloud.Wallet := 7;
     cloud.Tr := {| trans.PLPipe := pipe0; trans.MsgPipe := pipe0 |};
     cloud.worker := None;
     cloud.ca := None;
     cloud.pws := None;
     cloud.pwNames := None |}.

Definition machine0 : cloud.Machine :=
  {| cloud.agents := {[ 1%positive := ca0 ]}; cloud.ActiveRcvrs := ∅ |}.

(** What is posted on the bus during the example call of [Run]: the worker
    of [ca0] receives under "did:you". *)
Definition posted1 : list ((string * string) * server.BusEvent) :=
  [ (("did:you", "inv-42")%string, server.OnStatus psm.Sending);
    (("did:you", "inv-42")%string, server.OnUserAction psm.Waiting);
    (("did:you", "other")%string, server.OnStatus psm.Failure);
    (("did:you", "inv-42")%string, server.OnStatus psm.Waiting);
    (("did:you", "inv-42")%string, server.OnStatus psm.ReadyNACK);
    (("did:you", "inv-42")%string, server.OnUserAction psm.Waiting) ].

(** A stream whose first send fails and whose later sends succeed. *)
Definition firstSendFails (n : nat) : bool := negb (Nat.eqb n 0).

Definition returned {A} (o : outcome A) (d : A) : A :=
  match o with
  | Returns a => a
  | _ => d
  end.

(** Every worker pointer on the heap leads to a worker agent that points
    back: the invariant [workerAgent], the only writer of [worker] and [ca],
    maintains. *)
Definition linked (ext : cloud.Externals) (m : cloud.Machine) : Prop :=
  forall c A w,
    cloud.agents m !! c = Some A -> cloud.worker A = Some w ->
    exists W, cloud.agents m !! w = Some W /\ cloud.ca W = Some c
              /\ cloud.IsWorker ext (cloud.AgentType W) = true.

Definition same_links (a a' : cloud.Agent) : Prop :=
  cloud.AgentType a' = cloud.AgentType a /\ cloud.ca a' = cloud.ca a /\ cloud.worker a' = cloud.worker a.

(** * Further vocabulary *)

(** The table [typeID] read as a function of the role and the type. *)
Definition typeName (pl : pltype.Consts) (role : pb.Protocol_Role) (id : pb.Protocol_Type)
  : option string :=
  match role, id with
  | pb.Protocol_INITIATOR, pb.Protocol_CONNECT => Some (pltype.CAPairwiseCreate pl)
  | pb.Protocol_INITIATOR, pb.Protocol_ISSUE => Some (pltype.CACredOffer pl)
  | pb.Protocol_ADDRESSEE, pb.Protocol_ISSUE => Some (pltype.CACredRequest pl)
  | pb.Protocol_INITIATOR, pb.Protocol_PROOF => Some (pltype.CAProofRequest pl)
  | pb.Protocol_ADDRESSEE, pb.Protocol_PROOF => Some (pltype.CAProofPropose pl)
  | pb.Protocol_INITIATOR, pb.Protocol_TRUST_PING => Some (pltype.CATrustPing pl)
  | pb.Protocol_INITIATOR, pb.Protocol_BASIC_MESSAGE => Some (pltype.CABasicMessage pl)
  | pb.Protocol_RESUME, pb.Protocol_ISSUE =>
      Some (pltype.CAContinueIssueCredentialProtocol pl)
  | pb.Protocol_RESUME, pb.Protocol_PROOF =>
      Some (pltype.CAContinuePresentProofProtocol pl)
  | _, _ => None
  end.

(** An issuing request of an initiator with two attributes, and a trust
    ping, for the examples. *)
Definition issue0 : server.Protocol :=
  {| server.ConnectionId := "conn-1";
     server.TypeId := pb.Protocol_ISSUE;
     server.Role := pb.Protocol_INITIATOR;
     server.Start := server.CredDef
       {| server.CredDefId := "cd:1";
          server.iss_AttrFmt := server.Attrs
            [ {| server.attr_Name := "email"; server.attr_Value := "a@b" |};
              {| server.attr_Name := "name"; server.attr_Value := "alice" |} ] |} |}.

Definition ping0 : server.Protocol :=
  {| server.ConnectionId := "conn-1";
     server.TypeId := pb.Protocol_TRUST_PING;
     server.Role := pb.Protocol_INITIATOR;
     server.Start := server.NoStartMsg |}.

Definition uuidOf (n : nat) : string := pretty n.

(** A CA whose Service Agent is the permissive one, and a registry that
    holds the permissive handler under its id. *)
Definition caPermissive : cloud.Agent :=
  cloud.set_SAImplID sa.PermissiveSA ca0.

Definition registry0 : gmap string sa.Handler :=
  {[ sa.PermissiveSA := sa.permissiveHandler pl0 nonce0 ]}.

Definition didOther : ssi.DID := {| ssi.Did := "did:other"; ssi.VerKey := "vk-other" |}.

(** The pipe [loadPWMap] builds for one pairwise of the wallet. *)
Definition pipeOf (ext : cloud.Externals) (d : indypw.Data) : sec.Pipe :=
  {| sec.In := cloud.LoadDID ext (indypw.MyDid d);
     sec.Out := cloud.LoadDID ext (indypw.TheirDid d) |}.

Definition pairwises0 : list indypw.Data :=
  [ {| indypw.MyDid := "did:a"; indypw.TheirDid := "did:x"; indypw.Metadata := "alice" |};
    {| indypw.MyDid := "did:b"; indypw.TheirDid := "did:y"; indypw.Metadata := "bob" |};
    {| indypw.MyDid := "did:a"; indypw.TheirDid := "did:z"; indypw.Metadata := "carol" |} ].

(** The services of [ext0], with a wallet that lists [pairwises0]. *)
Definition ext1 : cloud.Externals :=
  {| cloud.Edge := cloud.Edge ext0;
     cloud.Worker := cloud.Worker ext0;
     cloud.IsCA := cloud.IsCA ext0;
     cloud.IsWorker := cloud.IsWorker ext0;
     cloud.GRPCSA := cloud.GRPCSA ext0;
     cloud.Meta := fun _ _ => Returns "{endp}"%string;
     cloud.AddrFromJSON := cloud.AddrFromJSON ext0;
     cloud.DIDComCallEndp := cloud.DIDComCallEndp ext0;
     cloud.LoadDID := cloud.LoadDID ext0;
     cloud.WalletKeyByDID := cloud.WalletKeyByDID ext0;
     cloud.CreateWorkerWallet := cloud.CreateWorkerWallet ext0;
     cloud.NewWalletMasterSecret := cloud.NewWalletMasterSecret ext0;
     cloud.ProverCreateMasterSecret := cloud.ProverCreateMasterSecret ext0;
     cloud.List_ := fun _ => Returns pairwises0 |}.

(** The transport [workerAgent] gives the worker of the CA [a]: the CA's
    pipe the other way round. *)
Definition workerTransport (ext : cloud.Externals) (a : cloud.Agent) : trans.Transport :=
  let cloudPipe :=
    {| sec.In := cloud.LoadDID ext (cloud.WDID a);
       sec.Out := sec.In (trans.PayloadPipe (cloud.Tr a)) |} in
  {| trans.PLPipe := cloudPipe; trans.MsgPipe := cloudPipe |}.

(** The services of [ext0], with an enclave that has no master secret to
    give. *)
Definition ext2 : cloud.Externals :=
  {| cloud.Edge := cloud.Edge ext0;
     cloud.Worker := cloud.Worker ext0;
     cloud.IsCA := cloud.IsCA ext0;
     cloud.IsWorker := cloud.IsWorker ext0;
     cloud.GRPCSA := cloud.GRPCSA ext0;
     cloud.Meta := cloud.Meta ext0;
     cloud.AddrFromJSON := cloud.AddrFromJSON ext0;
     cloud.DIDComCallEndp := cloud.DIDComCallEndp ext0;
     cloud.LoadDID := cloud.LoadDID ext0;
     cloud.WalletKeyByDID := cloud.WalletKeyByDID ext0;
     cloud.CreateWorkerWallet := cloud.CreateWorkerWallet ext0;
     cloud.NewWalletMasterSecret := fun _ => Fails "enclave is closed";
     cloud.ProverCreateMasterSecret := cloud.ProverCreateMasterSecret ext0;
     cloud.List_ := cloud.List_ ext0 |}.

(** * Further code of the packages *)

(** ** Package endp: the address of an agent's endpoint *)

Module endp.

Record Addr := {
  BasePath : string;
  Service : string;
  PlRcvr : string;
  MsgRcvr : string;
  RcvrDID : string;
  VerKey : string
}.

End endp.

(** ** Package cloud, further methods of the agent *)

Module agent.

Import cloud.

(** The services these methods call outside the package: the JSON text of
    an address, the wallet's DID metadata and pairwise records, and the
    agency's settings. *)
Record Services := {
  ToJSON : service.Addr -> string;
  SetMeta : Z -> string -> string -> outcome unit;
  Pairwise : Z -> string -> outcome (string * string);
  HostAddr : string;
  ServiceName : string;
  ServiceName2 : string
}.

(** [x.f = v] on the agent at address [x]. *)
Definition update (x : addr) (f : Agent -> Agent) (m : Machine) : Machine :=
  match agents m !! x with
  | Some a => store x (f a) m
  | None => m
  end.

Section Methods.

Variable ext : Externals.
Variable svc : Services.

Definition AttachAPIEndp (self : addr) (endp : service.Addr) (m : Machine)
  : outcome unit * Machine :=
  match agents m !! self with
  | None => (Panics "nil pointer dereference", m)
  | Some a =>
      let m := store self (set_EAEndp (Some endp) a) m in
      let theirDid := ssi.Did (sec.Out (trans.PayloadPipe (Tr a))) in
      let endpJSONStr := ToJSON svc endp in
      match SetMeta svc (Wallet a) theirDid endpJSONStr with
      | Returns _ => (Returns tt, m)
      | Fails e => (Fails e, m)
      | Panics p => (Panics p, m)
      end
  end.

(** [AttachSAImpl]; an error met on the way is caught by the deferred
    [err2.Catch], which logs it, and the method returns. *)
Definition AttachSAImpl (self : addr) (implID : string) (persistent : bool) (m : Machine)
  : outcome unit * Machine :=
  match agents m !! self with
  | None => (Panics "nil pointer dereference", m)
  | Some a =>
      let m := update self (set_SAImplID implID) m in
      if IsCA ext (AgentType a) then
        match WorkerEA ext self m with
        | (Returns wa, m) =>
            let '(attached, m) :=
              if persistent then
                let implEndp := (implID ++ "://localhost")%string in
                AttachAPIEndp self {| service.Endp := implEndp; service.Key := "" |} m
              else (Returns tt, m) in
            match attached with
            | Returns _ => (Returns tt, update wa (set_SAImplID implID) m)
            | Fails _ => (Returns tt, m)
            | Panics p => (Panics p, m)
            end
        | (Fails _, m) => (Returns tt, m)
        | (Panics p, m) => (Panics p, m)
        end
      else (Returns tt, m)
  end.

(** [CAEndp]; [None] is the nil address of an agent that is no CA. *)
Definition CAEndp (a : Agent) (wantWorker : bool) : option endp.Addr :=
  let hostname := HostAddr svc in
  if negb (IsCA ext (AgentType a)) then None
  else
    let caDID := ssi.Did (sec.In (trans.PayloadPipe (Tr a))) in
    let rcvrDID := caDID in
    let vk := ssi.VerKey (sec.In (trans.PayloadPipe (Tr a))) in
    let serviceName := ServiceName svc in
    let '(rcvrDID, serviceName) :=
      if wantWorker then
        (ssi.Did (sec.Out (trans.PayloadPipe (Tr a))), ServiceName2 svc)
      else (rcvrDID, serviceName) in
    Some {| endp.BasePath := hostname;
            endp.Service := serviceName;
            endp.PlRcvr := caDID;
            endp.MsgRcvr := caDID;
            endp.RcvrDID := rcvrDID;
            endp.VerKey := vk |}.

(** [PwPipe]; reading a map that was never made finds nothing. *)
Definition PwPipe (a : Agent) (pw : string) : outcome sec.Pipe :=
  match PwName a pw with
  | Some secPipe => Returns secPipe
  | None =>
      dids <- Pairwise svc (Wallet a) pw ;;
      let '(in_, out) := dids in
      if String.eqb in_ "" || String.eqb out "" then
        Fails "cannot find pw"
      else
        let outDID := LoadDID ext out in
        Returns {| sec.In := LoadDID ext in_; sec.Out := outDID |}
  end.

End Methods.

End agent.

Definition svc0 : agent.Services :=
  {| agent.ToJSON := fun a => service.Endp a;
     agent.SetMeta := fun _ _ _ => Returns tt;
     agent.Pairwise := fun _ pw =>
       if String.eqb pw "carol" then Returns ("did:c", "did:w")%string
       else Returns (""%string, ""%string);
     agent.HostAddr := "http://agency";
     agent.ServiceName := "ca-api";
     agent.ServiceName2 := "a2a" |}.

(** The services of [svc0], with a wallet that refuses metadata. *)
Definition svc1 : agent.Services :=
  {| agent.ToJSON := agent.ToJSON svc0;
     agent.SetMeta := fun _ _ _ => Fails "wallet is closed";
     agent.Pairwise := agent.Pairwise svc0;
     agent.HostAddr := agent.HostAddr svc0;
     agent.ServiceName := agent.ServiceName svc0;
     agent.ServiceName2 := agent.ServiceName2 svc0 |}.

(** The endpoint [AttachSAImpl] stores for a persistent implementation. *)
Definition implEndp (implID : string) : service.Addr :=
  {| service.Endp := (implID ++ "://localhost")%string; service.Key := "" |}.

(** ** Package server, the type id of a message as it arrives *)

Module wire.

Section TypeID.

Variable pl : pltype.Consts.
Variable Protocol_Role_num : pb.Protocol_Role -> Z.

(** [uniqueTypeID] on the numbers a message carries: [pb.Protocol_Role] and
    [pb.Protocol_Type] are int32 types, and the role and the type of a
    message need not be among the declared constants. *)
Definition uniqueTypeID (role id : Z) : outcome string :=
  let i := int32 (int32 (10 * role) + int32 id) in
  match server.typeID pl Protocol_Role_num !! i with
  | Some s => Returns s
  | None => Panics "cannot find typeid"
  end.

End TypeID.

End wire.

(** ** Package server, further entry points and tables *)

Module rpc.

Import pb server.

(** The names of the protocol families in package pltype, which the tables
    below hold; taken as a parameter like the other names of that
    package. *)
Record Families := {
  Nothing : string;
  AriesProtocolConnection : string;
  ProtocolIssueCredential : string;
  ProtocolPresentProof : string;
  ProtocolTrustPing : string;
  ProtocolBasicMessage : string
}.

(** The keys of the map literal [protocolType]; the Go compiler rejects a
    literal with two equal constant keys. *)
Definition family_keys (f : Families) : list string :=
  [AriesProtocolConnection f; ProtocolIssueCredential f; ProtocolPresentProof f;
   ProtocolTrustPing f; ProtocolBasicMessage f].

(** [protocolName[t]]. *)
Definition protocolName (f : Families) (t : Protocol_Type) : string :=
  match t with
  | Protocol_NONE => Nothing f
  | Protocol_CONNECT => AriesProtocolConnection f
  | Protocol_ISSUE => ProtocolIssueCredential f
  | Protocol_PROOF => ProtocolPresentProof f
  | Protocol_TRUST_PING => ProtocolTrustPing f
  | Protocol_BASIC_MESSAGE => ProtocolBasicMessage f
  end.

Definition protocolType (f : Families) : gmap string Protocol_Type :=
  list_to_map
    [ (AriesProtocolConnection f, Protocol_CONNECT);
      (ProtocolIssueCredential f, Protocol_ISSUE);
      (ProtocolPresentProof f, Protocol_PROOF);
      (ProtocolTrustPing f, Protocol_TRUST_PING);
      (ProtocolBasicMessage f, Protocol_BASIC_MESSAGE) ].

(** [protocolType[s]]: the zero value for a missing key. *)
Definition protocolTypeOf (f : Families) (s : string) : Protocol_Type :=
  default Protocol_NONE (protocolType f !! s).

Definition roleType (isInitiator : bool) : Protocol_Role :=
  if isInitiator then Protocol_INITIATOR else Protocol_ADDRESSEE.

Section Service.

Variable pl : pltype.Consts.
Variable Protocol_Role_num : Protocol_Role -> Z.
Variable UUID : nat -> string.
Variable InvitationFromJSON : string -> Invitation.
Variable CredAttrsFromJSON : string -> list Attribute.
Variable ProofAttrsFromJSON : string -> list ProofAttribute.
Variable agency : gmap string AgencyHandler.

(** [Start]; [started] is the list of the calls made to
    [prot.FindAndStartTask], oldest first. *)
Definition Start (ctx : string) (protocol : Protocol) (w : World)
    (started : list (string * Task))
  : outcome ProtocolID * World * list (string * Task) :=
  match ca agency ctx with
  | Returns (caDID, receiver) =>
      match taskFrom pl Protocol_Role_num UUID InvitationFromJSON CredAttrsFromJSON
                     ProofAttrsFromJSON protocol w with
      | (Returns task, w) =>
          (Returns {| pid_TypeID := Protocol_NONE; pid_Role := Protocol_UNKNOWN;
                      pid_ID := Task_ID task |},
           w, started ++ [(receiver, task)])
      | (Fails e, w) => (Fails e, w, started)
      | (Panics p, w) => (Panics p, w, started)
      end
  | Fails e => (Fails e, w, started)
  | Panics p => (Panics p, w, started)
  end.

End Service.

End rpc.

(** ** Package presentproof, the proof request and the dispatch *)

Module proofreq.

Record Filter := { CredDefID : string }.

(** [anoncreds.AttrInfo] with its restrictions. *)
Record AttrInfo := { Name : string; Restrictions : list Filter }.

Record ProofRequest := {
  pr_Name : string;
  pr_Version : string;
  pr_Nonce : string;
  RequestedAttributes : gmap string AttrInfo;
  RequestedPredicates : gmap string didcomm.PredicateInfo
}.

(** [didcomm.ProofAttribute] and [didcomm.ProofPredicate] of the task. *)
Record ProofAttribute := {
  pa_ID : string;
  pa_Name : string;
  pa_CredDefID : string
}.

Record ProofPredicate := {
  pp_ID : string;
  pp_Name : string;
  pp_PType : string;
  pp_PValue : Z
}.

Record TaskPresentProof := {
  ProofAttrs : list ProofAttribute;
  ProofPredicates : list ProofPredicate
}.

(** The key of the [index]-th attribute, counted from 0:
    ["attr_referent_" + strconv.Itoa(index+1)] unless the attribute names
    its own. *)
Definition attrKey (index : nat) (attr : ProofAttribute) : string :=
  let id := ("attr_referent_" ++ pretty (index + 1)%nat)%string in
  if negb (String.eqb (pa_ID attr) "") then pa_ID attr else id.

Definition attrInfo (attr : ProofAttribute) : AttrInfo :=
  let restrictions : list Filter := [] in
  let restrictions :=
    if negb (String.eqb (pa_CredDefID attr) "")
    then restrictions ++ [ {| CredDefID := pa_CredDefID attr |} ]
    else restrictions in
  {| Name := pa_Name attr; Restrictions := restrictions |}.

(** [for index, attr := range proofTask.ProofAttrs], from [index] on. *)
Fixpoint rangeAttrs (index : nat) (attrs : list ProofAttribute)
    (reqAttrs : gmap string AttrInfo) : gmap string AttrInfo :=
  match attrs with
  | [] => reqAttrs
  | attr :: rest => rangeAttrs (S index) rest (<[attrKey index attr := attrInfo attr]> reqAttrs)
  end.

Definition predicateKey (index : nat) (predicate : ProofPredicate) : string :=
  let id := ("predicate_" ++ pretty (index + 1)%nat)%string in
  if negb (String.eqb (pp_ID predicate) "") then pp_ID predicate else id.

Definition predicateInfo (predicate : ProofPredicate) : didcomm.PredicateInfo :=
  {| didcomm.pred_Name := pp_Name predicate;
     didcomm.pred_PType := pp_PType predicate;
     didcomm.pred_PValue := pp_PValue predicate |}.

Fixpoint rangePredicates (index : nat) (predicates : list ProofPredicate)
    (reqPredicates : gmap string didcomm.PredicateInfo) : gmap string didcomm.PredicateInfo :=
  match predicates with
  | [] => reqPredicates
  | predicate :: rest =>
      rangePredicates (S index) rest
        (<[predicateKey index predicate := predicateInfo predicate]> reqPredicates)
  end.

Section Request.

Variable NewNonceStr : nat -> string.

Definition generateProofRequest (proofTask : TaskPresentProof) (w : World)
  : ProofRequest * World :=
  let reqAttrs := rangeAttrs 0 (ProofAttrs proofTask) ∅ in
  let reqPredicates := rangePredicates 0 (ProofPredicates proofTask) ∅ in
  let '(n, w) := draw w in
  ({| pr_Name := "ProofReq";
      pr_Version := "0.1";
      pr_Nonce := NewNonceStr n;
      RequestedAttributes := reqAttrs;
      RequestedPredicates := reqPredicates |}, w).

End Request.

(** The names of the present-proof handlers in package pltype. *)
Record Handlers := {
  HandlerPresentProofPropose : string;
  HandlerPresentProofRequest : string;
  HandlerPresentProofPresentation : string;
  HandlerPresentProofACK : string;
  HandlerPresentProofNACK : string
}.

(** The cases of the switch of [handleProtocol]; the Go compiler rejects a
    switch with two equal constant cases. *)
Definition handler_cases (h : Handlers) : list string :=
  [HandlerPresentProofPropose h; HandlerPresentProofRequest h;
   HandlerPresentProofPresentation h; HandlerPresentProofACK h;
   HandlerPresentProofNACK h].

Definition Handler : Type :=
  comm.Packet -> option comm.TaskHeader -> prot.Engine -> outcome unit * prot.Engine.

Section Dispatch.

Variable pl : pltype.Consts.
Variable h : Handlers.
Variable permitted : psm.PSM -> comm.Packet -> bool.
Variable writable : string * string -> bool.
Variable pipeSend : prot.Envelope -> bool.

(** The handlers of the packages verifier and prover. *)
Variable HandleProposePresentation : Handler.
Variable HandleRequestPresentation : Handler.
Variable HandlePresentation : Handler.

Definition handleProtocol (packet : comm.Packet) (e : prot.Engine)
  : outcome unit * prot.Engine :=
  let proofTask := presentproof.taskOf packet in
  let msg := comm.ProtocolMsg packet in
  if String.eqb msg (HandlerPresentProofPropose h) then
    HandleProposePresentation packet proofTask e
  else if String.eqb msg (HandlerPresentProofRequest h) then
    HandleRequestPresentation packet proofTask e
  else if String.eqb msg (HandlerPresentProofPresentation h) then
    HandlePresentation packet proofTask e
  else if String.eqb msg (HandlerPresentProofACK h) then
    presentproof.handleProofACK pl permitted writable pipeSend packet proofTask e
  else if String.eqb msg (HandlerPresentProofNACK h) then
    presentproof.handleProofNACK pl permitted writable pipeSend packet proofTask e
  else
    (Fails "no present proof handler", e).

End Dispatch.

End proofreq.

(** ** Package agent of the commands: the export command *)

Module cmds.

Record ExportCmd := {
  WalletName : string;
  WalletKey : string;
  WalletKeyLegacy : bool;
  Filename : string;
  ExportKey : string
}.

(** The checks of package cmds and the wallet configuration; [None] is a
    nil error. *)
Record Checks := {
  Cmd_Validate : string -> string -> option string;
  ValidateWalletExistence : string -> string -> bool -> option string;
  Exists_ : string -> string -> bool -> bool;
  ValidateKey : string -> string -> option string
}.

Definition Validate (k : Checks) (c : ExportCmd) : option string :=
  let walletErr :=
    if negb (WalletKeyLegacy c) then
      match Cmd_Validate k (WalletName c) (WalletKey c) with
      | Some err => Some err
      | None => ValidateWalletExistence k (WalletName c) (WalletKey c) true
      end
    else
      let exists_ := Exists_ k (WalletName c) (WalletKey c) false in
      if negb exists_ then Some "legacy wallet not exist"%string else None in
  match walletErr with
  | Some err => Some err
  | None =>
      if String.eqb (Filename c) "" then Some "export path cannot be empty"%string
      else
        match ValidateKey k (ExportKey c) "export" with
        | Some err => Some err
        | None => None
        end
  end.

End cmds.

Definition families0 : rpc.Families :=
  {| rpc.Nothing := "";
     rpc.AriesProtocolConnection := "connections";
     rpc.ProtocolIssueCredential := "issue-credential";
     rpc.ProtocolPresentProof := "present-proof";
     rpc.ProtocolTrustPing := "trust_ping";
     rpc.ProtocolBasicMessage := "basicmessage" |}.

Definition checks0 : cmds.Checks :=
  {| cmds.Cmd_Validate := fun name key =>
       if String.eqb name "" then Some "wallet name missing"%string else None;
     cmds.ValidateWalletExistence := fun _ _ _ => None;
     cmds.Exists_ := fun _ _ _ => true;
     cmds.ValidateKey := fun key _ =>
       if String.eqb key "" then Some "export key missing"%string else None |}.

Definition export0 : cmds.ExportCmd :=
  {| cmds.WalletName := "wallet"; cmds.WalletKey := "key"; cmds.WalletKeyLegacy := false;
     cmds.Filename := "out.export"; cmds.ExportKey := "secret" |}.

Definition handlers0 : proofreq.Handlers :=
  {| proofreq.HandlerPresentProofPropose := "propose";
     proofreq.HandlerPresentProofRequest := "request";
     proofreq.HandlerPresentProofPresentation := "presentation";
     proofreq.HandlerPresentProofACK := "ack";
     proofreq.HandlerPresentProofNACK := "nack" |}.

Definition proofTask0 : proofreq.TaskPresentProof :=
  {| proofreq.ProofAttrs :=
       [ {| proofreq.pa_ID := ""; proofreq.pa_Name := "email"; proofreq.pa_CredDefID := "cd-1" |};
         {| proofreq.pa_ID := ""; proofreq.pa_Name := "name"; proofreq.pa_CredDefID := "" |} ];
     proofreq.ProofPredicates := [] |}.

(** * Properties *)

(** ** The permissive Service Agent *)

Section PermissiveFacts.

Import didcomm.

Variable pl : pltype.Consts.
Variable NewNonceStr : nat -> string.

Lemma distinct_questions_neq i j x y :
  pltype.distinct_questions pl ->
  pltype.handler_cases pl !! i = Some x ->
  pltype.handler_cases pl !! j = Some y ->
  i <> j -> String.eqb x y = false.
Proof.
  intros Hnd Hi Hj Hne. apply String.eqb_neq. intros ->.
  apply Hne. eapply NoDup_lookup; eauto.
Qed.

(** The handler never touches the PSM store. *)
Lemma permissiveHandler_store WDID plType im w :
  psms (sa.permissiveHandler pl NewNonceStr WDID plType im w).2 = psms w.
Proof.
  unfold sa.permissiveHandler.
  repeat (destruct (String.eqb plType _); [reflexivity|]). reflexivity.
Qed.

(** Outside the four questions the handler answers with a nil message. *)
Lemma permissiveHandler_not_a_question WDID plType im w :
  plType ∉ pltype.questions pl ->
  sa.permissiveHandler pl NewNonceStr WDID plType im w = (Returns None, w).
Proof.
  intros Hq. unfold sa.permissiveHandler.
  destruct (String.eqb plType (pltype.CANotifyStatus pl)); [reflexivity|].
  unfold pltype.questions in Hq.
  repeat match goal with
  | |- context [String.eqb plType ?c] =>
      destruct (String.eqb_spec plType c) as [->|_]; [exfalso; apply Hq; set_solver|]
  end.
  reflexivity.
Qed.

(** C2. For every inbound question (ping, issue accept-propose, proof
    accept-propose, proof accept-values) the permissive handler returns the
    inbound message as the outbound one with [ready] set, and no error: the
    thread-id is the inbound one, the info is the inbound one except for a
    ping, whose answer has the info "SA ping OK" and is otherwise the
    inbound message with ready=true, the sub-message is the inbound one
    except for proof accept-propose; the PSM store is left as it was. *)
Theorem permissiveHandler_accepts WDID plType im w :
  pltype.distinct_questions pl ->
  plType ∈ pltype.questions pl ->
  exists om w',
    sa.permissiveHandler pl NewNonceStr WDID plType im w = (Returns (Some om), w')
    /\ Ready om = true
    /\ ThreadID om = ThreadID im
    /\ (plType <> pltype.SAPing pl -> Info om = Info im)
    /\ (plType <> pltype.SAPresentProofAcceptPropose pl -> Sub om = Sub im)
    /\ (plType = pltype.SAPing pl ->
        Info om = "SA ping OK"%string
        /\ om = {| Info := "SA ping OK"; Ready := true; Sub := Sub im;
                   ThreadID := ThreadID im |}
        /\ w' = w)
    /\ psms w' = psms w.
Proof.
  intros Hnd Hq.
  pose proof (fun i j x y => distinct_questions_neq i j x y Hnd) as D.
  unfold pltype.questions in Hq.
  apply elem_of_cons in Hq as [->|Hq];
    [|apply elem_of_cons in Hq as [->|Hq];
      [|apply elem_of_cons in Hq as [->|Hq];
        [|apply list_elem_of_singleton in Hq as ->]]].
  - unfold sa.permissiveHandler.
    rewrite (D 1%nat 0%nat _ _ eq_refl eq_refl) by lia.
    rewrite String.eqb_refl.
    eexists _, _. split; [reflexivity|]. simpl. repeat split; try done.
  - unfold sa.permissiveHandler.
    rewrite (D 2%nat 0%nat _ _ eq_refl eq_refl) by lia.
    rewrite (D 2%nat 1%nat _ _ eq_refl eq_refl) by lia.
    rewrite String.eqb_refl.
    assert (N : pltype.handler_cases pl !!! 2%nat <> pltype.SAPing pl).
    { apply String.eqb_neq, (D 2%nat 1%nat); [reflexivity..|lia]. }
    eexists _, _. split; [reflexivity|]. simpl. repeat split; try done; by destruct N.
  - unfold sa.permissiveHandler.
    rewrite (D 3%nat 0%nat _ _ eq_refl eq_refl) by lia.
    rewrite (D 3%nat 1%nat _ _ eq_refl eq_refl) by lia.
    rewrite (D 3%nat 2%nat _ _ eq_refl eq_refl) by lia.
    rewrite String.eqb_refl.
    assert (N : pltype.handler_cases pl !!! 3%nat <> pltype.SAPing pl).
    { apply String.eqb_neq, (D 3%nat 1%nat); [reflexivity..|lia]. }
    eexists _, _. split; [reflexivity|]. simpl. repeat split; try done; by destruct N.
  - unfold sa.permissiveHandler.
    rewrite (D 4%nat 0%nat _ _ eq_refl eq_refl) by lia.
    rewrite (D 4%nat 1%nat _ _ eq_refl eq_refl) by lia.
    rewrite (D 4%nat 2%nat _ _ eq_refl eq_refl) by lia.
    rewrite (D 4%nat 3%nat _ _ eq_refl eq_refl) by lia.
    rewrite String.eqb_refl.
    assert (N : pltype.handler_cases pl !!! 4%nat <> pltype.SAPing pl).
    { apply String.eqb_neq, (D 4%nat 1%nat); [reflexivity..|lia]. }
    eexists _, _. split; [reflexivity|]. simpl. repeat split; try done; by destruct N.
Qed.

End PermissiveFacts.

(** The permissive SA ping scenario: info "hello" in, ready=true and
    "SA ping OK" out, the store untouched. *)
Lemma permissiveHandler_accepts_witness :
  exists om w',
    sa.permissiveHandler pl0 nonce0 "wdid" (pltype.SAPing pl0) hello w0
      = (Returns (Some om), w')
    /\ didcomm.Ready om = true
    /\ didcomm.ThreadID om = didcomm.ThreadID hello
    /\ (pltype.SAPing pl0 <> pltype.SAPing pl0 -> didcomm.Info om = didcomm.Info hello)
    /\ (pltype.SAPing pl0 <> pltype.SAPresentProofAcceptPropose pl0 ->
        didcomm.Sub om = didcomm.Sub hello)
    /\ (pltype.SAPing pl0 = pltype.SAPing pl0 ->
        didcomm.Info om = "SA ping OK"%string
        /\ om = {| didcomm.Info := "SA ping OK"; didcomm.Ready := true;
                   didcomm.Sub := didcomm.Sub hello;
                   didcomm.ThreadID := didcomm.ThreadID hello |}
        /\ w' = w0)
    /\ psms w' = psms w0.
Proof.
  apply (permissiveHandler_accepts pl0 nonce0 "wdid" (pltype.SAPing pl0) hello w0).
  - apply (bool_decide_unpack _). vm_compute. exact I.
  - apply list_elem_of_here.
Defined.

(** ** The state reported by [Status] *)

Section StatusFacts.

Import pb server.

Lemma calcProtocolState_reported m : Reported m (calcProtocolState m).
Proof.
  destruct m as [m|]; [|constructor]. unfold calcProtocolState.
  destruct (psm.PendingUserAction m) eqn:P; [by constructor|].
  destruct (psm.LastState m) as [last|] eqn:L; [|by constructor].
  cbv zeta.
  destruct (_ =? psm.Ready) eqn:E1; cbn [orb].
  { apply Z.eqb_eq in E1.
    destruct (Z.eqb_spec (Z.land (psm.Sub last) psm.ACK) 0) as [B|B]; cbn [negb];
      [eapply Reported_nack|eapply Reported_ok]; eauto. }
  destruct (_ =? Z.lor psm.Ready psm.Archiving) eqn:E2; cbn [orb].
  { apply Z.eqb_eq in E2.
    destruct (Z.eqb_spec (Z.land (psm.Sub last) psm.ACK) 0) as [B|B]; cbn [negb];
      [eapply Reported_nack|eapply Reported_ok]; eauto. }
  destruct (_ =? psm.Failure) eqn:E3; cbn [orb].
  { apply Z.eqb_eq in E3. eapply Reported_err; eauto. }
  destruct (_ =? Z.lor psm.Failure psm.Archiving) eqn:E4; cbn [orb].
  { apply Z.eqb_eq in E4. eapply Reported_err; eauto. }
  apply Z.eqb_neq in E1, E2, E3, E4. eapply Reported_running; eauto.
Qed.

Lemma Reported_functional m s1 s2 : Reported m s1 -> Reported m s2 -> s1 = s2.
Proof.
  intros H1 H2.
  inversion H1; subst; inversion H2; subst; try reflexivity; try congruence;
    repeat match goal with
    | A : psm.LastState ?m = Some ?x, B : psm.LastState ?m = Some ?y |- _ =>
        assert (x = y) by congruence; subst y; clear B
    | H : _ \/ _ |- _ => destruct H
    end;
    try congruence;
    exfalso;
    match goal with
    | A : psm.Pure ?x = _, B : psm.Pure ?x = _ |- _ => rewrite A in B; discriminate B
    end.
Qed.

(** C4 (amended). The state [Status] computes for a record [m]: WAIT_ACTION
    when a user action is pending; otherwise OK when the [Pure()] projection
    of the last substate is [Ready] or [Ready|Archiving] and the ACK bit is
    set, NACK when it is one of these two without the ACK bit, ERR when it is
    [Failure] or [Failure|Archiving], and RUNNING in every other case, also
    when there is no record or no entry. *)
Theorem calcProtocolState_spec m st :
  Reported m st <-> calcProtocolState m = st.
Proof.
  split.
  - intros H. eapply Reported_functional; [apply calcProtocolState_reported|exact H].
  - intros <-. apply calcProtocolState_reported.
Qed.

(** C4 as stated fails on an archived instance: its [Pure()] projection is
    [Ready|Archiving], not [Ready], and the code reports OK where the
    description says RUNNING. *)
Lemma calcProtocolState_archived :
  psm.Pure (Z.lor psm.ReadyACK psm.Archiving) <> psm.Ready
  /\ calcProtocolState (Some archivedACK) = ProtocolState_OK
  /\ calcProtocolState_described (Some archivedACK) = ProtocolState_RUNNING
  /\ calcProtocolState (Some archivedACK) <> calcProtocolState_described (Some archivedACK).
Proof. repeat split; (reflexivity || discriminate). Qed.

End StatusFacts.

(** ** The gRPC protocol service *)

Section ServerFacts.

Import pb server.

Variable pl : pltype.Consts.
Variable Protocol_Role_num : Protocol_Role -> Z.
Variable UUID : nat -> string.
Variable InvitationFromJSON : string -> Invitation.
Variable CredAttrsFromJSON : string -> list Attribute.
Variable ProofAttrsFromJSON : string -> list ProofAttribute.
Variable CheckTokenValidity : string -> outcome string.
Variable agency : gmap string AgencyHandler.

Lemma ProtocolState_State_eqb_eq a b :
  ProtocolState_State_eqb a b = true <-> a = b.
Proof. destruct a, b; simpl; split; (reflexivity || discriminate). Qed.

(** C6. [Resume] hands the user's decision on to the protocol: when the
    caller is a CA of this agency and the protocol id names a known type, one
    call is forwarded to [prot.Resume], for the same protocol id, and its
    decision is ACK exactly when the state field of the supplied
    [ProtocolState] is ACK; every other value of the field, not only NACK, is
    forwarded as NACK. *)
Theorem Resume_forwards_decision ctx state calls caDID receiver pid tid :
  ca agency ctx = Returns (caDID, receiver) ->
  ProtocolID_ state = Some pid ->
  uniqueTypeID pl Protocol_Role_num (pid_Role pid) (pid_TypeID pid) = Returns tid ->
  exists call,
    Resume pl Protocol_Role_num agency ctx state calls = (Returns pid, calls ++ [call])
    /\ rc_Receiver call = receiver
    /\ rc_TypeID call = tid
    /\ rc_ProtocolID call = pid_ID pid
    /\ (rc_Ack call = true <-> State state = ProtocolState_ACK)
    /\ (State state <> ProtocolState_ACK -> rc_Ack call = false).
Proof.
  intros Hca Hpid Htid. unfold Resume. rewrite Hca, Hpid, Htid.
  eexists. split; [reflexivity|]. simpl. repeat split; try done.
  - apply ProtocolState_State_eqb_eq.
  - apply ProtocolState_State_eqb_eq.
  - intros Hne. unfold GetState. destruct (State state); try reflexivity.
    by destruct Hne.
Qed.

(** A CONNECT task that [taskFrom] returns always has connection
    attributes behind it, and the invitation's id as its nonce. *)
Lemma taskFrom_connect_inv protocol w task w' :
  TypeId protocol = Protocol_CONNECT ->
  taskFrom pl Protocol_Role_num UUID InvitationFromJSON CredAttrsFromJSON
           ProofAttrsFromJSON protocol w = (Returns task, w') ->
  exists connAttr,
    GetConnAttr protocol = Some connAttr
    /\ Nonce task = ID (InvitationFromJSON (InvitationJson connAttr)).
Proof.
  intros Ht. unfold taskFrom. rewrite Ht. simpl.
  destruct (uniqueTypeID _ _ _ _); try discriminate.
  destruct (GetConnAttr protocol) as [c|]; try discriminate.
  intros [= <- <-]. by exists c.
Qed.

(** C7. A CONNECT task built from an RPC [Protocol] message (the role has a
    type id, the connection attributes are set) carries the id of the
    invitation as its nonce, whatever UUID was drawn for it first; [task.ID()],
    from which [Run] forms the state key, is that id, and the invitation
    itself is attached to the task. *)
Theorem taskFrom_connect_nonce protocol w connAttr tid :
  TypeId protocol = Protocol_CONNECT ->
  GetConnAttr protocol = Some connAttr ->
  uniqueTypeID pl Protocol_Role_num (Role protocol) Protocol_CONNECT = Returns tid ->
  exists task,
    taskFrom pl Protocol_Role_num UUID InvitationFromJSON CredAttrsFromJSON
             ProofAttrsFromJSON protocol w = (Returns task, (draw w).2)
    /\ Nonce task = ID (InvitationFromJSON (InvitationJson connAttr))
    /\ Task_ID task = ID (InvitationFromJSON (InvitationJson connAttr))
    /\ ConnectionInvitation task = Some (InvitationFromJSON (InvitationJson connAttr))
    /\ task_Info task = Label connAttr
    /\ TypeID task = tid.
Proof.
  intros Ht Hc Hu. unfold taskFrom. rewrite Ht. simpl. rewrite Hu, Hc.
  eexists. split; [reflexivity|]. by repeat split.
Qed.

End ServerFacts.

Lemma Resume_forwards_decision_witness :
  exists call,
    server.Resume pl0 roleNum0 agency0 "ca-1" resumeNACK [] = (Returns pid0, [] ++ [call])
    /\ server.rc_Receiver call = "w-1"%string
    /\ server.rc_TypeID call = pltype.CAContinuePresentProofProtocol pl0
    /\ server.rc_ProtocolID call = server.pid_ID pid0
    /\ (server.rc_Ack call = true <-> server.State resumeNACK = pb.ProtocolState_ACK)
    /\ (server.State resumeNACK <> pb.ProtocolState_ACK -> server.rc_Ack call = false).
Proof.
  apply (Resume_forwards_decision pl0 roleNum0 agency0 "ca-1" resumeNACK [] "ca-1" "w-1"
           pid0 (pltype.CAContinuePresentProofProtocol pl0)).
  - vm_compute. reflexivity.
  - reflexivity.
  - vm_compute. reflexivity.
Defined.

Lemma taskFrom_connect_nonce_witness :
  exists task,
    server.taskFrom pl0 roleNum0 uuid0 invitation0 (fun _ => []) (fun _ => []) connect0 w0
      = (Returns task, (draw w0).2)
    /\ server.Nonce task = "inv-42"%string
    /\ server.Task_ID task = "inv-42"%string
    /\ server.ConnectionInvitation task
       = Some {| server.ID := "inv-42"; server.inv_Label := ""; server.inv_Endpoint := "" |}
    /\ server.task_Info task = "alice"%string
    /\ server.TypeID task = pltype.CAPairwiseCreate pl0.
Proof.
  apply (taskFrom_connect_nonce pl0 roleNum0 uuid0 invitation0 (fun _ => []) (fun _ => [])
           connect0 w0
           {| server.InvitationJson := "inv-42"; server.Label := "alice" |}
           (pltype.CAPairwiseCreate pl0)).
  - reflexivity.
  - reflexivity.
  - vm_compute. reflexivity.
Defined.

(** ** The stream of [Run] *)

Section RunFacts.

Import pb server.

Variable pl : pltype.Consts.
Variable Protocol_Role_num : Protocol_Role -> Z.
Variable UUID : nat -> string.
Variable InvitationFromJSON : string -> Invitation.
Variable CredAttrsFromJSON : string -> list Attribute.
Variable ProofAttrsFromJSON : string -> list ProofAttribute.
Variable CheckTokenValidity : string -> outcome string.
Variable agency : gmap string AgencyHandler.
Variable sendOk : nat -> bool.
Variable ext : cloud.Externals.
Variable agentOf : string -> cloud.addr.

Lemma Final_tests s :
  (((s =? psm.ReadyACK) || (s =? psm.ACK) = true) <-> Final s ProtocolState_OK)
  /\ (((s =? psm.ReadyNACK) || (s =? psm.NACK) = true) <-> Final s ProtocolState_NACK)
  /\ ((s =? psm.Failure) = true <-> Final s ProtocolState_ERR).
Proof.
  repeat split.
  - intros [E|E]%orb_true_iff; apply Z.eqb_eq in E; subst; constructor.
  - inversion 1; reflexivity.
  - intros [E|E]%orb_true_iff; apply Z.eqb_eq in E; subst; constructor.
  - inversion 1; reflexivity.
  - intros E; apply Z.eqb_eq in E; subst; constructor.
  - inversion 1; reflexivity.
Qed.

Lemma Final_functional s c1 c2 : Final s c1 -> Final s c2 -> c1 = c2.
Proof. inversion 1; inversion 1; congruence. Qed.

Lemma quiet_status s :
  quiet (OnStatus s) ->
  (s =? psm.ReadyACK) || (s =? psm.ACK) = false
  /\ (s =? psm.ReadyNACK) || (s =? psm.NACK) = false
  /\ (s =? psm.Failure) = false.
Proof.
  intros Q. destruct (Final_tests s) as (A & B & C).
  repeat split; apply not_true_is_false; intros E;
    [apply A in E|apply B in E|apply C in E]; exact (Q _ E).
Qed.

(** On a final status the loop breaks with the code of the status. *)
Lemma Run_loop_final task st code rest s :
  Final st code -> Run_loop sendOk task (OnStatus st :: rest) s = (Break code, s).
Proof.
  intros F. cbn [Run_loop]. destruct (Final_tests st) as (A & B & C).
  destruct ((st =? psm.ReadyACK) || (st =? psm.ACK)) eqn:E1.
  { by rewrite (Final_functional _ _ _ F (proj1 A eq_refl)). }
  destruct ((st =? psm.ReadyNACK) || (st =? psm.NACK)) eqn:E2.
  { by rewrite (Final_functional _ _ _ F (proj1 B eq_refl)). }
  destruct (st =? psm.Failure) eqn:E3.
  { by rewrite (Final_functional _ _ _ F (proj1 C eq_refl)). }
  exfalso. inversion F; subst; discriminate.
Qed.

(** Over deliveries that hold no final status the loop goes on, as long as
    the WAIT_ACTION states go out: one per [Waiting] user-action event. *)
Lemma Run_loop_quiet task pre rest s :
  Forall quiet pre ->
  (forall i, (i < waiting pre)%nat -> sendOk (attempts s + i) = true) ->
  Run_loop sendOk task (pre ++ rest) s
  = Run_loop sendOk task rest
      {| sent := sent s ++ repeat (stateOf task ProtocolState_WAIT_ACTION) (waiting pre);
         attempts := (attempts s + waiting pre)%nat |}.
Proof.
  intros Q. revert s. induction Q as [|e pre Qe Q IH]; intros s Ok.
  - simpl. rewrite app_nil_r, Nat.add_0_r. by destruct s.
  - destruct e as [st|st].
    + destruct (quiet_status st Qe) as (A & B & C).
      cbn [app Run_loop waiting] in *. rewrite A, B, C. by rewrite IH.
    + cbn [app Run_loop waiting] in *.
      destruct (decide (st = psm.Waiting)) as [->|Hne].
      * assert (S0 : sendOk (attempts s) = true).
        { rewrite <- (Nat.add_0_r (attempts s)). apply Ok. lia. }
        rewrite Z.eqb_refl. unfold Send. rewrite S0. rewrite IH.
        -- cbn [sent attempts repeat]. rewrite <- app_assoc. do 2 f_equal. lia.
        -- intros i Hi. cbn [attempts].
           replace (S (attempts s) + i)%nat with (attempts s + S i)%nat by lia.
           apply Ok. lia.
      * apply Z.eqb_neq in Hne. rewrite Hne. by rewrite IH.
Qed.

(** C5 (amended). A [Run] call that got as far as its loop: the token is
    valid, the caller a CA of this agency, the task built and the worker of
    the CA there.  The task is handed to [prot.FindAndStartTask] once.
    Over deliveries [pre] for the task's key that hold no final status, and
    as long as the sends succeed, the client has received one WAIT_ACTION
    state per [Waiting] user-action event and the call is still selecting,
    on whatever other substates were delivered.  When the next delivery is a
    status [st] that is final ([ReadyACK] or [ACK] for OK, [ReadyNACK] or
    [NACK] for NACK, [Failure] for ERR) and the send succeeds, the call
    returns without error and the stream ends with exactly one more state,
    which carries that code.  A send that fails, at a [Waiting] user-action
    event or at the final status, ends the call with the error of the send:
    the only state streamed after it is ERR with the error text, if that
    send succeeds. *)
Theorem Run_streams ctx ctx' protocol posted w m started caDID receiver task w' wa m' worker
    pre :
  CheckTokenValidity ctx = Returns ctx' ->
  ca agency ctx' = Returns (caDID, receiver) ->
  taskFrom pl Protocol_Role_num UUID InvitationFromJSON CredAttrsFromJSON
           ProofAttrsFromJSON protocol w = (Returns task, w') ->
  cloud.WorkerEA ext (agentOf receiver) m = (Returns wa, m') ->
  cloud.agents m' !! wa = Some worker ->
  Forall quiet pre ->
  (forall i, (i < waiting pre)%nat -> sendOk i = true) ->
  (delivered (ssi.Did (sec.In (trans.MsgPipe (cloud.Tr worker))), Nonce task) posted = pre ->
   Run pl Protocol_Role_num UUID InvitationFromJSON CredAttrsFromJSON ProofAttrsFromJSON
       CheckTokenValidity agency sendOk ext agentOf ctx protocol posted w m started
   = (Selecting,
      repeat {| ProtocolID_ := Some {| pid_TypeID := Protocol_NONE;
                                       pid_Role := Protocol_UNKNOWN;
                                       pid_ID := Nonce task |};
                State := ProtocolState_WAIT_ACTION;
                Info := "" |}
             (waiting pre),
      w', m', started ++ [(receiver, task)]))
  /\ (forall st post code,
        delivered (ssi.Did (sec.In (trans.MsgPipe (cloud.Tr worker))), Nonce task) posted
        = pre ++ OnStatus st :: post ->
        Final st code ->
        Run pl Protocol_Role_num UUID InvitationFromJSON CredAttrsFromJSON ProofAttrsFromJSON
            CheckTokenValidity agency sendOk ext agentOf ctx protocol posted w m started
        = if sendOk (waiting pre) then
            (Returned None,
             repeat {| ProtocolID_ := Some {| pid_TypeID := Protocol_NONE;
                                              pid_Role := Protocol_UNKNOWN;
                                              pid_ID := Nonce task |};
                       State := ProtocolState_WAIT_ACTION;
                       Info := "" |}
                    (waiting pre)
             ++ [ {| ProtocolID_ := Some {| pid_TypeID := Protocol_NONE;
                                            pid_Role := Protocol_UNKNOWN;
                                            pid_ID := Nonce task |};
                     State := code;
                     Info := "" |} ],
             w', m', started ++ [(receiver, task)])
          else
            (Returned (Some "send"%string),
             repeat {| ProtocolID_ := Some {| pid_TypeID := Protocol_NONE;
                                              pid_Role := Protocol_UNKNOWN;
                                              pid_ID := Nonce task |};
                       State := ProtocolState_WAIT_ACTION;
                       Info := "" |}
                    (waiting pre)
             ++ (if sendOk (S (waiting pre))
                 then [ {| ProtocolID_ := None; State := ProtocolState_ERR; Info := "send" |} ]
                 else []),
             w', m', started ++ [(receiver, task)]))
  /\ (forall post,
        delivered (ssi.Did (sec.In (trans.MsgPipe (cloud.Tr worker))), Nonce task) posted
        = pre ++ OnUserAction psm.Waiting :: post ->
        sendOk (waiting pre) = false ->
        Run pl Protocol_Role_num UUID InvitationFromJSON CredAttrsFromJSON ProofAttrsFromJSON
            CheckTokenValidity agency sendOk ext agentOf ctx protocol posted w m started
        = (Returned (Some "send"%string),
           repeat {| ProtocolID_ := Some {| pid_TypeID := Protocol_NONE;
                                            pid_Role := Protocol_UNKNOWN;
                                            pid_ID := Nonce task |};
                     State := ProtocolState_WAIT_ACTION;
                     Info := "" |}
                  (waiting pre)
           ++ (if sendOk (S (waiting pre))
               then [ {| ProtocolID_ := None; State := ProtocolState_ERR; Info := "send" |} ]
               else []),
           w', m', started ++ [(receiver, task)])).
Proof.
  intros Htok Hca Htask Hw Hl Q Ok.
  assert (Ok0 : forall i, (i < waiting pre)%nat -> sendOk (0 + i) = true) by exact Ok.
  split; [|split].
  - intros D. unfold Run. rewrite Htok, Hca, Htask, Hw, Hl.
    unfold Task_ID, NewStateKey. rewrite D.
    rewrite <- (app_nil_r pre) at 1.
    rewrite (Run_loop_quiet task pre [] {| sent := []; attempts := 0 |} Q Ok0).
    reflexivity.
  - intros st post code D F. unfold Run. rewrite Htok, Hca, Htask, Hw, Hl.
    unfold Task_ID, NewStateKey.
    rewrite D.
    rewrite (Run_loop_quiet task pre _ {| sent := []; attempts := 0 |} Q Ok0).
    rewrite (Run_loop_final _ _ _ _ _ F). unfold Send, Run_deferred, Send.
    cbn [sent attempts Nat.add app fst snd].
    destruct (sendOk (waiting pre)); [reflexivity|]. cbn [sent attempts].
    destruct (sendOk (S (waiting pre))); cbn [snd sent]; [reflexivity|by rewrite app_nil_r].
  - intros post D F. unfold Run. rewrite Htok, Hca, Htask, Hw, Hl.
    unfold Task_ID, NewStateKey.
    rewrite D.
    rewrite (Run_loop_quiet task pre _ {| sent := []; attempts := 0 |} Q Ok0).
    cbn [Run_loop]. rewrite Z.eqb_refl. unfold Send, Run_deferred, Send.
    cbn [sent attempts Nat.add app fst snd]. rewrite F. cbn [sent attempts].
    destruct (sendOk (S (waiting pre))); cbn [snd sent]; [reflexivity|by rewrite app_nil_r].
Qed.

End RunFacts.

(** The verifier-NACK scenario on the stream: one WAIT_ACTION, then the
    final NACK; the delivery for another key and the ones after the final
    status play no part. *)
Lemma Run_streams_witness :
  server.Run pl0 roleNum0 uuid0 invitation0 (fun _ => []) (fun _ => []) Returns agency0
             (fun _ => true) ext0 (fun _ => 1%positive) "ca-1" connect0 posted1 w0 machine0 []
  = (server.Returned None,
     [ {| server.ProtocolID_ :=
            Some {| server.pid_TypeID := pb.Protocol_NONE;
                    server.pid_Role := pb.Protocol_UNKNOWN; server.pid_ID := "inv-42" |};
          server.State := pb.ProtocolState_WAIT_ACTION; server.Info := "" |};
       {| server.ProtocolID_ :=
            Some {| server.pid_TypeID := pb.Protocol_NONE;
                    server.pid_Role := pb.Protocol_UNKNOWN; server.pid_ID := "inv-42" |};
          server.State := pb.ProtocolState_NACK; server.Info := "" |} ],
     (draw w0).2,
     (cloud.WorkerEA ext0 1%positive machine0).2,
     [("w-1"%string, task0)]).
Proof.
  refine (proj1 (proj2
    (Run_streams pl0 roleNum0 uuid0 invitation0 (fun _ => []) (fun _ => [])
       Returns agency0 (fun _ => true) ext0 (fun _ => 1%positive)
       "ca-1" "ca-1" connect0 posted1 w0 machine0 [] "ca-1" "w-1" task0 (draw w0).2
       2%positive (cloud.WorkerEA ext0 1%positive machine0).2
       (default ca0 (cloud.agents (cloud.WorkerEA ext0 1%positive machine0).2 !! 2%positive))
       [server.OnStatus psm.Sending; server.OnUserAction psm.Waiting;
        server.OnStatus psm.Waiting]
       _ _ _ _ _ _ _))
    psm.ReadyNACK [server.OnUserAction psm.Waiting] pb.ProtocolState_NACK _ _).
  - reflexivity.
  - vm_compute. reflexivity.
  - vm_compute. reflexivity.
  - vm_compute. reflexivity.
  - vm_compute. reflexivity.
  - repeat constructor; intros code F; inversion F.
  - reflexivity.
  - vm_compute. reflexivity.
  - constructor.
Defined.

(** C5 as stated fails on a call whose first send fails: a [Waiting]
    user-action event and then [ReadyNACK] are delivered for the task's key,
    but the loop is left at the user-action event, the call returns the
    error of the send, and the stream holds neither a WAIT_ACTION nor the
    final NACK: its only state is the ERR of the deferred handler. *)
Lemma Run_send_fails :
  server.OnUserAction psm.Waiting ∈ server.delivered ("did:you", "inv-42")%string posted1
  /\ server.OnStatus psm.ReadyNACK ∈ server.delivered ("did:you", "inv-42")%string posted1
  /\ exists out,
      server.Run pl0 roleNum0 uuid0 invitation0 (fun _ => []) (fun _ => []) Returns agency0
        firstSendFails ext0 (fun _ => 1%positive) "ca-1" connect0 posted1 w0 machine0 []
      = (server.Returned (Some "send"%string), out, (draw w0).2,
         (cloud.WorkerEA ext0 1%positive machine0).2, [("w-1"%string, task0)])
      /\ out = [ {| server.ProtocolID_ := None; server.State := pb.ProtocolState_ERR;
                    server.Info := "send" |} ]
      /\ (forall st, st ∈ out -> server.State st <> pb.ProtocolState_WAIT_ACTION)
      /\ server.State <$> last out <> Some pb.ProtocolState_NACK.
Proof.
  assert (D : server.delivered ("did:you", "inv-42")%string posted1
              = [server.OnStatus psm.Sending; server.OnUserAction psm.Waiting;
                 server.OnStatus psm.Waiting; server.OnStatus psm.ReadyNACK;
                 server.OnUserAction psm.Waiting]) by (vm_compute; reflexivity).
  rewrite D. split; [|split].
  - repeat (first [apply list_elem_of_here | apply list_elem_of_further]).
  - repeat (first [apply list_elem_of_here | apply list_elem_of_further]).
  - eexists. split; [vm_compute; reflexivity|]. split; [reflexivity|]. split.
    + intros st H. apply list_elem_of_singleton in H. subst st. discriminate.
    + discriminate.
Qed.

(** ** The Service-Agent callback of the cloud agent *)

Section CallEAFacts.

Import didcomm cloud.

Variable pl : pltype.Consts.
Variable ext : Externals.
Variable registry : gmap string sa.Handler.

Lemma checkSAImpl_callType a : (checkSAImpl ext a).1 = callTypeImplID.
Proof. unfold checkSAImpl. by destruct (negb _). Qed.

Lemma callableEA_returns a ct a' :
  callableEA ext a = (Returns ct, a') -> ct = callTypeImplID.
Proof.
  unfold callableEA. destruct (negb (IsCA ext _)); [discriminate|].
  match goal with |- context [checkSAImpl ext ?x] =>
    pose proof (checkSAImpl_callType x) as H; destruct (checkSAImpl ext x) as [c b] end.
  simpl in H. intros [= <- <-]. exact H.
Qed.

Lemma callableEA_no_error a e a' : callableEA ext a <> (Fails e, a').
Proof.
  unfold callableEA. destruct (negb (IsCA ext _)); [discriminate|].
  match goal with |- context [checkSAImpl ext ?x] => destruct (checkSAImpl ext x) end.
  discriminate.
Qed.

Lemma CallEA_deferred_no_error im r e : CallEA_deferred im r <> Fails e.
Proof. destruct r; discriminate. Qed.

(** C1. An error met while calling the Service Agent never leaves [CallEA]:
    [CallEA] returns no error at all, and when the call the switch makes ends
    with an error, it returns a nil error and an outbound message whose
    [ready] field is false and whose other fields are those of the inbound
    message.  The endpoint branch of the switch ends with an error when the
    reply's payload type is [ConnectionError], and the deferred handler
    turns that one into the same answer. *)
Theorem CallEA_error_is_NACK a plType im w :
  (forall e, (CallEA pl ext registry a plType im w).1.1 <> Fails e)
  /\ (forall ct a' e w',
        callableEA ext a = (Returns ct, a') ->
        CallEA_switch pl ext registry ct a' plType im w = (Fails e, w') ->
        exists om,
          CallEA pl ext registry a plType im w = (Returns (Some om), a', w')
          /\ Ready om = false
          /\ Info om = Info im /\ Sub om = Sub im /\ ThreadID om = ThreadID im)
  /\ (forall endp ipl,
        EAEndp a = Some endp ->
        DIDComCallEndp ext (service.Endp endp) plType im = Returns ipl ->
        trans.Type_ ipl = pltype.ConnectionError pl ->
        exists e om,
          CallEA_switch pl ext registry callTypeEndp a plType im w = (Fails e, w)
          /\ CallEA_deferred im (Fails e) = Returns (Some om)
          /\ Ready om = false
          /\ Info om = Info im /\ Sub om = Sub im /\ ThreadID om = ThreadID im).
Proof.
  split; [|split].
  - intros e. unfold CallEA.
    destruct (callableEA ext a) as [[ct|e'|p] a'] eqn:C.
    + destruct (CallEA_switch _ _ _ _ _ _ _ _) as [r w']. simpl.
      apply CallEA_deferred_no_error.
    + by apply callableEA_no_error in C.
    + discriminate.
  - intros ct a' e w' C S. unfold CallEA. rewrite C, S.
    eexists. split; [reflexivity|]. by cbn.
  - intros endp ipl E D T. exists "call ea api"%string.
    unfold CallEA_switch, callEA. rewrite E, D. simpl. rewrite T, String.eqb_refl.
    eexists. split; [reflexivity|]. split; [reflexivity|]. by cbn.
Qed.

(** C10. [checkSAImpl] answers [callTypeImplID] always, and on an empty
    [SAImplID] it first sets the id to [sa.GRPCSA].  So [callableEA], which
    panics on an agent that is not a CA and returns on every CA, returns
    [callTypeImplID] and never the zero [callType] nor [callTypeEndp]; and
    [CallEA] always takes the implementation branch of its switch: its
    answer is the registered implementation's, passed through the deferred
    handler, never the default "no SA endpoint or implementation ID set". *)
Theorem callableEA_always_implID a :
  (SAImplID a = ""%string ->
   checkSAImpl ext a = (callTypeImplID, set_SAImplID (GRPCSA ext) a))
  /\ (forall ct a', callableEA ext a = (Returns ct, a') ->
        ct = callTypeImplID /\ ct <> 0 /\ ct <> callTypeEndp)
  /\ (IsCA ext (AgentType a) = true ->
      exists a', callableEA ext a = (Returns callTypeImplID, a')
                 /\ (SAImplID a = ""%string -> SAImplID a' = GRPCSA ext)
                 /\ (SAImplID a <> ""%string -> a' = a))
  /\ (IsCA ext (AgentType a) = false ->
      callableEA ext a = (Panics "not a CA", a))
  /\ (forall ct a' plType im w,
        callableEA ext a = (Returns ct, a') ->
        CallEA pl ext registry a plType im w
        = match sa.Get registry (SAImplID a') with
          | Some impl =>
              let '(r, w') := impl (WDID a') plType im w in (CallEA_deferred im r, a', w')
          | None => (Panics "nil pointer dereference", a', w)
          end).
Proof.
  repeat split.
  - intros E. unfold checkSAImpl. rewrite E. reflexivity.
  - eapply callableEA_returns; eauto.
  - apply callableEA_returns in H. subst. discriminate.
  - apply callableEA_returns in H. subst. discriminate.
  - intros CA. unfold callableEA. rewrite CA. cbn [negb].
    destruct (String.eqb_spec (SAImplID a) "") as [E|N].
    + match goal with |- context [checkSAImpl ext ?x] =>
        assert (S : SAImplID x = ""%string) end.
      { cbn [andb]. destruct (negb (bool_decide _)); [|exact E].
        destruct (Meta ext _ _); try exact E.
        destruct (negb _ && negb _); exact E. }
      match goal with |- context [checkSAImpl ext ?x] => set (b := x) in * end.
      unfold checkSAImpl. rewrite S. cbn [negb String.eqb].
      eexists. split; [reflexivity|]. split; [reflexivity|]. intros N. by destruct N.
    + cbn [andb]. unfold checkSAImpl.
      destruct (String.eqb_spec (SAImplID a) "") as [E'|_]; [by destruct N|].
      cbn [negb]. eexists. split; [reflexivity|]. split; [intros E; by destruct N|done].
  - intros CA. unfold callableEA. rewrite CA. reflexivity.
  - intros ct a' plType im w C. unfold CallEA. rewrite C.
    apply callableEA_returns in C. subst ct.
    unfold CallEA_switch. cbn [Z.eqb callTypeImplID callTypeEndp Pos.eqb].
    destruct (sa.Get registry (SAImplID a')) as [impl|]; [|reflexivity].
    destruct (impl _ _ _ _). reflexivity.
Qed.

End CallEAFacts.

(** ** The pairwise map *)

Section PWMapFacts.

Import cloud.

Lemma AddToPWMap_no_error a me you name e : AddToPWMap a me you name <> Fails e.
Proof. unfold AddToPWMap. destruct (pws a), (pwNames a); discriminate. Qed.

(** C8 (amended). On an agent whose two maps are made, [AddToPWMap] never
    fails; after the call the pairwise is indexed under both keys, the myDID
    index and the label index giving the same pipe; a second call with the
    same triple changes nothing.  A call with another label for the same
    myDID succeeds as well and leaves that label indexed too, next to the
    first one.  [AddPipeToPWMap] indexes a given pipe under both keys in
    the same way. *)
Theorem AddToPWMap_indexes a me you name byDID byName :
  pws a = Some byDID ->
  pwNames a = Some byName ->
  let pipe := {| sec.In := me; sec.Out := you |} in
  exists a',
    AddToPWMap a me you name = Returns (pipe, a')
    /\ SecPipe a' (ssi.Did me) = Some pipe
    /\ PwName a' name = Some pipe
    /\ AddToPWMap a' me you name = Returns (pipe, a')
    /\ (forall other, exists a'',
          AddToPWMap a' me you other = Returns (pipe, a'')
          /\ SecPipe a'' (ssi.Did me) = Some pipe
          /\ PwName a'' other = Some pipe
          /\ PwName a'' name = Some pipe)
    /\ (exists b,
          AddPipeToPWMap a pipe name = Returns b
          /\ SecPipe b (ssi.Did me) = Some pipe
          /\ PwName b name = Some pipe).
Proof.
  intros Hp Hn pipe. unfold AddToPWMap at 1. rewrite Hp, Hn.
  eexists. split; [reflexivity|]. fold pipe.
  unfold SecPipe, PwName, AddToPWMap, AddPipeToPWMap. cbn [pws pwNames set_maps].
  rewrite Hp, Hn. cbn [sec.In]. fold pipe.
  repeat split.
  - apply lookup_insert_eq.
  - apply lookup_insert_eq.
  - rewrite !insert_insert_eq. reflexivity.
  - intros other. eexists. split; [reflexivity|]. cbn [pws pwNames set_maps].
    repeat split.
    + apply lookup_insert_eq.
    + apply lookup_insert_eq.
    + destruct (decide (other = name)) as [->|Hne].
      * apply lookup_insert_eq.
      * rewrite lookup_insert_ne by done. apply lookup_insert_eq.
  - eexists. split; [reflexivity|]. cbn [pws pwNames set_maps].
    split; apply lookup_insert_eq.
Qed.

(** C8 as stated fails: after [AddToPWMap] for ("did:me", "did:you") under
    the label "alice", the call for the same myDID under the conflicting
    label "bob" is not an error; it returns the pipe, and both labels are
    indexed. *)
Lemma AddToPWMap_conflicting_label :
  exists a1 a2,
    AddToPWMap worker0 didMe didYou "alice" = Returns (pipe0, a1)
    /\ AddToPWMap a1 didMe didYou "bob" = Returns (pipe0, a2)
    /\ (forall e, AddToPWMap a1 didMe didYou "bob" <> Fails e)
    /\ PwName a2 "alice" = Some pipe0
    /\ PwName a2 "bob" = Some pipe0
    /\ SecPipe a2 "did:me" = Some pipe0.
Proof.
  eexists _, _. split; [reflexivity|]. split; [reflexivity|].
  split; [intros e; apply AddToPWMap_no_error|].
  repeat split; vm_compute; reflexivity.
Qed.

End PWMapFacts.

Lemma AddToPWMap_indexes_witness :
  exists a',
    cloud.AddToPWMap worker0 didMe didYou "alice" = Returns (pipe0, a')
    /\ cloud.SecPipe a' "did:me" = Some pipe0
    /\ cloud.PwName a' "alice" = Some pipe0
    /\ cloud.AddToPWMap a' didMe didYou "alice" = Returns (pipe0, a')
    /\ (forall other, exists a'',
          cloud.AddToPWMap a' didMe didYou other = Returns (pipe0, a'')
          /\ cloud.SecPipe a'' "did:me" = Some pipe0
          /\ cloud.PwName a'' other = Some pipe0
          /\ cloud.PwName a'' "alice" = Some pipe0)
    /\ (exists b,
          cloud.AddPipeToPWMap worker0 pipe0 "alice" = Returns b
          /\ cloud.SecPipe b "did:me" = Some pipe0
          /\ cloud.PwName b "alice" = Some pipe0).
Proof.
  apply (AddToPWMap_indexes worker0 didMe didYou "alice" ∅ ∅).
  - reflexivity.
  - reflexivity.
Defined.

(** ** Terminating transitions of the PSM *)

Section TerminateFacts.

Import prot.

Variable pl : pltype.Consts.
Variable permitted : psm.PSM -> comm.Packet -> bool.
Variable writable : string * string -> bool.
Variable pipeSend : Envelope -> bool.

Lemma lookupPSM_persist key s e :
  psm.States (lookupPSM key (persist key s e))
  = psm.States (lookupPSM key e)
      ++ [ {| psm.Sub := psm.Sub s; psm.Timestamp := clock e;
              psm.Initiator := psm.Initiator s; psm.TaskID := psm.TaskID s;
              psm.TypeID := psm.TypeID s; psm.ConnID := psm.ConnID s;
              psm.Next := psm.Next s; psm.UserAction := psm.UserAction s |} ].
Proof.
  unfold lookupPSM at 1, persist. cbn [world psms].
  rewrite lookup_insert_eq. reflexivity.
Qed.

Lemma LastState_persist key s e :
  psm.Sub <$> psm.LastState (lookupPSM key (persist key s e)) = Some (psm.Sub s).
Proof.
  unfold psm.LastState. rewrite lookupPSM_persist, last_snoc. reflexivity.
Qed.

Lemma events_persist key s e : events (persist key s e) = events e ++ [(key, psm.Sub s)].
Proof. reflexivity. Qed.

(** A transition whose [SendNext] is [Terminate] hands no envelope to the
    pipe, however it ends. *)
Lemma ExecPSM_terminate_sends_nothing t e :
  SendNext t = pltype.Terminate pl ->
  outbox (ExecPSM pl permitted writable pipeSend t e).2 = outbox e.
Proof.
  intros T. unfold ExecPSM.
  destruct (closed _); [by destruct (permitted _ _)|]. destruct (negb _); [reflexivity|].
  destruct (InOut t _ _ _) as [[ack om]|err|p]; try reflexivity.
  rewrite T, String.eqb_refl. reflexivity.
Qed.

(** On an instance that is open, a terminating transition whose [InOut]
    answers [ack] without error appends [Sending] and then [ReadyACK] or
    [ReadyNACK], posts both on the bus, and sends nothing. *)
Lemma ExecPSM_terminate t e ack :
  SendNext t = pltype.Terminate pl ->
  (forall connID im om, InOut t connID im om = Returns (ack, om)) ->
  closed (lookupPSM (keyOf (Packet t)) e) = false ->
  writable (keyOf (Packet t)) = true ->
  exists e',
    ExecPSM pl permitted writable pipeSend t e = (Returns tt, e')
    /\ ended (keyOf (Packet t)) (if ack then psm.ReadyACK else psm.ReadyNACK) e e'.
Proof.
  intros T IO C W. unfold ExecPSM. fold (keyOf (Packet t)).
  rewrite C, W. cbn [negb]. rewrite IO, T, String.eqb_refl.
  eexists. split; [reflexivity|]. split; [|split].
  - eexists _, _. rewrite !lookupPSM_persist, <- app_assoc. split; [reflexivity|].
    split; [reflexivity|]. by destruct ack.
  - rewrite !events_persist, <- app_assoc. simpl. by destruct ack.
  - reflexivity.
Qed.

(** On an instance that is closed, a transition changes nothing. *)
Lemma ExecPSM_closed t e :
  closed (lookupPSM (keyOf (Packet t)) e) = true ->
  ExecPSM pl permitted writable pipeSend t e
  = (if permitted (lookupPSM (keyOf (Packet t)) e) (Packet t)
     then Returns tt else Fails "ProtocolClosed", e).
Proof.
  intros C. unfold ExecPSM. fold (keyOf (Packet t)). rewrite C.
  by destruct (permitted _ _).
Qed.

(** C3 (amended). [handleCredentialNACK], [handleProofACK] and
    [handleProofNACK] run the PSM transition with [SendNext = Terminate] and
    an [InOut] that answers [ack = true] for the proof ACK and [ack = false]
    for the two NACKs, without error.  So, when the instance of the packet's
    key is not terminal and the store takes its entries, the record gets two
    more entries, [Sending] and then [ReadyACK] for the proof ACK and
    [ReadyNACK] for the credential NACK and the proof NACK, and no envelope
    is sent.  When the instance is terminal already the message changes
    nothing: it is refused with [ProtocolClosed], or dropped when the
    protocol permits the retransmission.  No envelope is sent in any case. *)
Theorem terminate_handlers_end_PSM packet proofTask e :
  ((SendNext (issuecredential.credentialNACK pl packet) = pltype.Terminate pl
    /\ SendNext (presentproof.proofACK pl packet proofTask) = pltype.Terminate pl
    /\ SendNext (presentproof.proofNACK pl packet proofTask) = pltype.Terminate pl)
   /\ (forall connID im om,
         InOut (issuecredential.credentialNACK pl packet) connID im om = Returns (false, om)
         /\ InOut (presentproof.proofACK pl packet proofTask) connID im om = Returns (true, om)
         /\ InOut (presentproof.proofNACK pl packet proofTask) connID im om
            = Returns (false, om)))
  /\ (closed (lookupPSM (keyOf packet) e) = false ->
      writable (keyOf packet) = true ->
      (exists e',
          issuecredential.handleCredentialNACK pl permitted writable pipeSend packet e
          = (Returns tt, e')
          /\ ended (keyOf packet) psm.ReadyNACK e e')
      /\ (exists e',
            presentproof.handleProofACK pl permitted writable pipeSend packet proofTask e
            = (Returns tt, e')
            /\ ended (keyOf packet) psm.ReadyACK e e')
      /\ (exists e',
            presentproof.handleProofNACK pl permitted writable pipeSend packet proofTask e
            = (Returns tt, e')
            /\ ended (keyOf packet) psm.ReadyNACK e e'))
  /\ (closed (lookupPSM (keyOf packet) e) = true ->
      issuecredential.handleCredentialNACK pl permitted writable pipeSend packet e
      = (if permitted (lookupPSM (keyOf packet) e) packet
         then Returns tt else Fails "ProtocolClosed", e)
      /\ presentproof.handleProofACK pl permitted writable pipeSend packet proofTask e
         = (if permitted (lookupPSM (keyOf packet) e) packet
            then Returns tt else Fails "ProtocolClosed", e)
      /\ presentproof.handleProofNACK pl permitted writable pipeSend packet proofTask e
         = (if permitted (lookupPSM (keyOf packet) e) packet
            then Returns tt else Fails "ProtocolClosed", e))
  /\ (outbox (issuecredential.handleCredentialNACK pl permitted writable pipeSend packet e).2
      = outbox e
      /\ outbox (presentproof.handleProofACK pl permitted writable pipeSend packet proofTask e).2
         = outbox e
      /\ outbox (presentproof.handleProofNACK pl permitted writable pipeSend packet proofTask e).2
         = outbox e).
Proof.
  split; [by repeat split|]. split; [|split].
  - intros C W. split; [|split].
    + by apply (ExecPSM_terminate (issuecredential.credentialNACK pl packet) e false).
    + by apply (ExecPSM_terminate (presentproof.proofACK pl packet proofTask) e true).
    + by apply (ExecPSM_terminate (presentproof.proofNACK pl packet proofTask) e false).
  - intros C. split; [|split].
    + by apply (ExecPSM_closed (issuecredential.credentialNACK pl packet)).
    + by apply (ExecPSM_closed (presentproof.proofACK pl packet proofTask)).
    + by apply (ExecPSM_closed (presentproof.proofNACK pl packet proofTask)).
  - split; [|split].
    + by apply (ExecPSM_terminate_sends_nothing (issuecredential.credentialNACK pl packet)).
    + by apply (ExecPSM_terminate_sends_nothing (presentproof.proofACK pl packet proofTask)).
    + by apply (ExecPSM_terminate_sends_nothing (presentproof.proofNACK pl packet proofTask)).
Qed.

End TerminateFacts.

(** The proof NACK that reaches the waiting instance of [engine1] ends it in
    [ReadyNACK]: the record has its two old entries and two new ones. *)
Lemma terminate_handlers_end_PSM_witness :
  exists e',
    presentproof.handleProofNACK pl0 (fun _ _ => false) (fun _ => true) (fun _ => true)
      nackPacket (presentproof.taskOf nackPacket) engine1 = (Returns tt, e')
    /\ ended (keyOf nackPacket) psm.ReadyNACK engine1 e'.
Proof.
  refine (proj2 (proj2 (proj1 (proj2
    (terminate_handlers_end_PSM pl0 (fun _ _ => false) (fun _ => true) (fun _ => true)
       nackPacket (presentproof.taskOf nackPacket) engine1)) _ _))).
  - vm_compute. reflexivity.
  - reflexivity.
Defined.

(** C3 as stated fails on an instance that is terminal already: a proof
    NACK for the instance of [engine2], closed in [ReadyACK], is refused
    with [ProtocolClosed] (or dropped, when the protocol permits it as a
    retransmission) and the instance stays in [ReadyACK]; it does not end in
    [ReadyNACK]. *)
Lemma terminate_handlers_closed_instance :
  psm.Sub <$> psm.LastState (prot.lookupPSM (keyOf nackPacket) engine2) = Some psm.ReadyACK
  /\ presentproof.handleProofNACK pl0 (fun _ _ => false) (fun _ => true) (fun _ => true)
       nackPacket (presentproof.taskOf nackPacket) engine2
     = (Fails "ProtocolClosed", engine2)
  /\ presentproof.handleProofNACK pl0 (fun _ _ => true) (fun _ => true) (fun _ => true)
       nackPacket (presentproof.taskOf nackPacket) engine2
     = (Returns tt, engine2)
  /\ psm.Sub <$> psm.LastState
        (prot.lookupPSM (keyOf nackPacket)
           (presentproof.handleProofNACK pl0 (fun _ _ => false) (fun _ => true) (fun _ => true)
              nackPacket (presentproof.taskOf nackPacket) engine2).2)
     <> Some psm.ReadyNACK
  /\ psm.Sub <$> psm.LastState
        (prot.lookupPSM (keyOf nackPacket)
           (presentproof.handleProofNACK pl0 (fun _ _ => true) (fun _ => true) (fun _ => true)
              nackPacket (presentproof.taskOf nackPacket) engine2).2)
     <> Some psm.ReadyNACK.
Proof.
  split; [reflexivity|]. split; [reflexivity|]. split; [reflexivity|].
  split; vm_compute; discriminate.
Qed.

(** ** The worker agent of a CA *)

Section WorkerFacts.

Import cloud.

Variable ext : Externals.

Lemma loadPWMap_step_keeps a d a' :
  loadPWMap_step ext a d = Returns a' -> same_links a a'.
Proof.
  unfold loadPWMap_step. destruct (pws a), (pwNames a); try discriminate.
  intros [= <-]. by repeat split.
Qed.

Lemma loadPWMap_range_keeps pwd a a' :
  loadPWMap_range ext a pwd = Returns a' -> same_links a a'.
Proof.
  revert a. induction pwd as [|d pwd IH]; intros a; simpl.
  - intros [= <-]. by repeat split.
  - destruct (loadPWMap_step ext a d) as [b| |] eqn:S; simpl; try discriminate.
    intros R. apply loadPWMap_step_keeps in S as (T & C & Wk).
    apply IH in R as (T' & C' & Wk'). repeat split; congruence.
Qed.

Lemma loadPWMap_keeps a a' : loadPWMap ext a = Returns a' -> same_links a a'.
Proof.
  unfold loadPWMap. destruct (List_ ext (Wallet a)).
  - apply loadPWMap_range_keeps.
  - intros [= <-]. by repeat split.
  - intros [= <-]. by repeat split.
Qed.

(** On maps that are made the loading of the pairwise map returns. *)
Lemma loadPWMap_range_returns pwd a :
  is_Some (pws a) -> is_Some (pwNames a) ->
  exists a', loadPWMap_range ext a pwd = Returns a'.
Proof.
  revert a. induction pwd as [|d pwd IH]; intros a [p Hp] [n Hn]; simpl.
  - by eexists.
  - unfold loadPWMap_step. rewrite Hp, Hn. simpl. apply IH; simpl; by eexists.
Qed.

Lemma MyCA_panics m x A :
  agents m !! x = Some A ->
  (IsWorker ext (AgentType A) = false ->
   MyCA ext x m = Panics "not a worker agent! don't have CA")
  /\ (IsWorker ext (AgentType A) = true -> ca A = None ->
      MyCA ext x m = Panics "CA is nil in Worker EA").
Proof.
  intros L. unfold MyCA. rewrite L. split.
  - intros ->. reflexivity.
  - intros -> ->. reflexivity.
Qed.

Lemma fresh_agent (m : Machine) (c : addr) (A : Agent) :
  agents m !! c = Some A -> c <> fresh (dom (agents m)).
Proof.
  intros L E. apply (is_fresh (dom (agents m))). rewrite <- E.
  apply elem_of_dom. by eexists.
Qed.

End WorkerFacts.

Section WorkerAgentFacts.

Import cloud.

Variable ext : Externals.

Hypothesis worker_flag : IsWorker ext (Z.lor (Edge ext) (Worker ext)) = true.

Lemma WEA_returns self m w m' :
  WEA ext self m = (Returns w, m') ->
  exists a,
    agents m !! self = Some a
    /\ ((worker a = Some w /\ m' = m)
        \/ (worker a = None /\ w = fresh (dom (agents m))
            /\ exists wa wa',
                 same_links wa wa'
                 /\ AgentType wa = Z.lor (Edge ext) (Worker ext)
                 /\ ca wa = Some self
                 /\ worker wa = None
                 /\ agents m'
                    = <[w := wa']> (<[self := set_worker (Some w) a]> (<[w := wa]> (agents m))))).
Proof.
  unfold WEA. destruct (agents m !! self) as [a|] eqn:L; [|discriminate].
  destruct (worker a) as [w0|] eqn:Wk.
  { intros [= <- <-]. exists a. split; [reflexivity|]. by left. }
  unfold workerAgent. rewrite L, Wk, String.eqb_refl. cbn [negb].
  destruct (WalletKeyByDID ext _) as [key| |]; try discriminate.
  destruct (CreateWorkerWallet ext _ _ _) as [handle before].
  unfold workerAgent_finish.
  match goal with |- context [loadPWMap ext ?x] => set (wa := x) end.
  match goal with |- context [match ?s with Returns _ => _ | Fails _ => _ | Panics _ => _ end] =>
    destruct s as [[]| |]; try discriminate end.
  destruct (loadPWMap ext wa) as [wa'| |] eqn:LP; try discriminate.
  intros [= <- <-]. exists a. split; [reflexivity|]. right.
  split; [exact Wk|]. split; [reflexivity|].
  exists wa, wa'. split; [by apply loadPWMap_keeps in LP|].
  by repeat split.
Qed.

(** C9. On a heap where worker pointers are linked back, a [WEA()] call
    that returns a worker [w] leaves the heap linked, and every later call
    returns the same [w] without touching the heap again, so the worker is
    created at most once; [w] holds the CA as its back reference and
    [MyCA()] on [w] returns that CA.  [MyCA()] panics on an agent that is
    not a worker and on a worker whose CA reference is nil. *)
Theorem WEA_once self m w m' :
  linked ext m ->
  WEA ext self m = (Returns w, m') ->
  linked ext m'
  /\ WEA ext self m' = (Returns w, m')
  /\ (exists W, agents m' !! w = Some W /\ ca W = Some self)
  /\ MyCA ext w m' = Returns self
  /\ (forall x A,
        agents m' !! x = Some A ->
        (IsWorker ext (AgentType A) = false ->
         MyCA ext x m' = Panics "not a worker agent! don't have CA")
        /\ (IsWorker ext (AgentType A) = true -> ca A = None ->
            MyCA ext x m' = Panics "CA is nil in Worker EA")).
Proof.
  intros Lk R.
  destruct (WEA_returns _ _ _ _ R)
    as (a & La & [[Wk ->] | (Wk & Ew & wa & wa' & (T & C & Wk') & Ty & Cw & Wkw & Ag)]).
  - destruct (Lk self a w La Wk) as (W & LW & CW & IW).
    split; [exact Lk|]. split; [exact R|]. split; [by exists W|].
    split; [|intros x A; apply MyCA_panics].
    unfold MyCA. rewrite LW, IW, CW. reflexivity.
  - assert (Nself : self <> w) by (subst w; eapply fresh_agent; eauto).
    assert (Lw : agents m' !! w = Some wa') by (rewrite Ag; apply lookup_insert_eq).
    assert (Ls : agents m' !! self = Some (set_worker (Some w) a)).
    { rewrite Ag, lookup_insert_ne, lookup_insert_eq by done. reflexivity. }
    split; [|split; [|split; [|split]]].
    + intros c A x Lc Wx. rewrite Ag in Lc.
      destruct (decide (c = w)) as [->|Ncw].
      { rewrite lookup_insert_eq in Lc. injection Lc as <-. congruence. }
      rewrite lookup_insert_ne in Lc by done.
      destruct (decide (c = self)) as [->|Ncs].
      { rewrite lookup_insert_eq in Lc. injection Lc as <-.
        cbn [worker set_worker] in Wx. injection Wx as <-.
        exists wa'. split; [exact Lw|]. split; [congruence|].
        rewrite T, Ty. exact worker_flag. }
      rewrite !lookup_insert_ne in Lc by done.
      destruct (Lk c A x Lc Wx) as (W & LW & CW & IW).
      assert (Nx : x <> w) by (rewrite Ew; eapply fresh_agent; eauto).
      destruct (decide (x = self)) as [->|Nxs].
      * assert (W = a) by congruence. subst W.
        exists (set_worker (Some w) a). split; [exact Ls|]. by split.
      * exists W. split; [|by split].
        rewrite Ag, !lookup_insert_ne by done. exact LW.
    + unfold WEA. rewrite Ls. reflexivity.
    + exists wa'. split; [exact Lw|congruence].
    + unfold MyCA. rewrite Lw, T, Ty, worker_flag, C, Cw. reflexivity.
    + intros x A. apply MyCA_panics.
Qed.

(** A CA without a worker gets one when the enclave and the wallet answer:
    the worker is a new agent on the heap. *)
Lemma WEA_creates self m a key :
  agents m !! self = Some a ->
  worker a = None ->
  WalletKeyByDID ext (ssi.Did (Root a)) = Returns key ->
  (CreateWorkerWallet ext (Wallet a) "_worker" key).2 = true ->
  exists w m', WEA ext self m = (Returns w, m') /\ agents m !! w = None.
Proof.
  intros La Wk K B. unfold WEA, workerAgent. rewrite La, Wk, String.eqb_refl, K.
  cbn [negb]. destruct (CreateWorkerWallet ext _ _ _) as [handle before].
  simpl in B. subst before. unfold workerAgent_finish. cbn [negb].
  unfold loadPWMap.
  match goal with |- context [List_ ext ?h] => destruct (List_ ext h) as [pwd| |] end.
  - match goal with |- context [loadPWMap_range ext ?x pwd] =>
      destruct (loadPWMap_range_returns ext pwd x) as [wa' E];
        [by eexists|by eexists|rewrite E] end.
    eexists _, _. split; [reflexivity|].
    apply not_elem_of_dom, is_fresh.
  - eexists _, _. split; [reflexivity|]. apply not_elem_of_dom, is_fresh.
  - eexists _, _. split; [reflexivity|]. apply not_elem_of_dom, is_fresh.
Qed.

End WorkerAgentFacts.

Lemma machine0_linked : linked ext0 machine0.
Proof.
  intros c A w L Wk. unfold machine0 in L. cbn [cloud.agents] in L.
  apply lookup_singleton_Some in L as [_ <-]. discriminate Wk.
Defined.

(** From the lone CA [ca0]: the first call creates the worker, the second
    returns it, and the worker's CA is the caller. *)
Lemma WEA_once_witness :
  let w := returned (cloud.WEA ext0 1%positive machine0).1 1%positive in
  let m' := (cloud.WEA ext0 1%positive machine0).2 in
  cloud.WEA ext0 1%positive machine0 = (Returns w, m')
  /\ cloud.WEA ext0 1%positive m' = (Returns w, m')
  /\ cloud.MyCA ext0 w m' = Returns 1%positive.
Proof.
  intros w m'.
  assert (E : cloud.WEA ext0 1%positive machine0 = (Returns w, m')).
  { vm_compute. reflexivity. }
  pose proof (WEA_once ext0 eq_refl 1%positive machine0 w m' machine0_linked E) as H.
  split; [exact E|]. split; [exact (proj1 (proj2 H))|].
  exact (proj1 (proj2 (proj2 (proj2 H)))).
Defined.

(** * Further properties of the code *)

(** ** Type ids of the protocol server *)

Section TypeIDFacts.

Import pb server.

Variable pl : pltype.Consts.
Variable Protocol_Role_num : Protocol_Role -> Z.

(** The numbers of the declared roles are distinct, and small enough for
    the constant keys of the table not to overflow, which the Go compiler
    checks. *)
Hypothesis role_inj :
  forall r1 r2, Protocol_Role_num r1 = Protocol_Role_num r2 -> r1 = r2.
Hypothesis role_range : forall r, 0 <= Protocol_Role_num r < 2^27.

Lemma Protocol_Type_num_range t : 0 <= Protocol_Type_num t < 10.
Proof. destruct t; simpl; lia. Qed.

Lemma Protocol_Type_num_inj t1 t2 : Protocol_Type_num t1 = Protocol_Type_num t2 -> t1 = t2.
Proof. destruct t1, t2; simpl; intros E; (reflexivity || discriminate E). Qed.

Lemma int32_small k : -2^31 <= k < 2^31 -> int32 k = k.
Proof. intros R. unfold int32. rewrite Z.mod_small; lia. Qed.

(** [int32] picks, of the numbers congruent modulo 2^32, the one in range. *)
Lemma int32_congr x k :
  -2^31 <= k < 2^31 -> (int32 x = k <-> (x - k) mod 2^32 = 0).
Proof.
  intros R. unfold int32. split; intros E; Z.div_mod_to_equations; lia.
Qed.

Lemma int32_sum a b : int32 (int32 a + int32 b) = int32 (a + b).
Proof. unfold int32. Z.div_mod_to_equations. lia. Qed.

(** On the declared constants the key is [10*role + id], without a wrap. *)
Lemma typeKey_small r t :
  typeKey Protocol_Role_num r t = 10 * Protocol_Role_num r + Protocol_Type_num t.
Proof.
  unfold typeKey. pose proof (role_range r). pose proof (Protocol_Type_num_range t).
  rewrite int32_sum. apply int32_small. lia.
Qed.

(** The key [10*role + id] identifies the role and the type: the type
    numbers stay below ten. *)
Lemma typeKey_inj r1 t1 r2 t2 :
  typeKey Protocol_Role_num r1 t1 = typeKey Protocol_Role_num r2 t2 -> r1 = r2 /\ t1 = t2.
Proof.
  rewrite !typeKey_small. intros E.
  pose proof (Protocol_Type_num_range t1). pose proof (Protocol_Type_num_range t2).
  assert (Protocol_Role_num r1 = Protocol_Role_num r2) by lia.
  split; [by apply role_inj|]. apply Protocol_Type_num_inj. lia.
Qed.

(** The table holds, under the key of a declared pair, what [typeName]
    lists for it: no two pairs share a key. *)
Lemma typeID_declared role id :
  typeID pl Protocol_Role_num !! typeKey Protocol_Role_num role id = typeName pl role id.
Proof.
  unfold typeID.
  rewrite !list_to_map_cons, list_to_map_nil. cbn [fst snd].
  repeat (rewrite lookup_insert; destruct (decide _) as [E|];
          [apply typeKey_inj in E as [<- <-]; reflexivity|]).
  rewrite lookup_empty.
  destruct role, id; try reflexivity; exfalso;
    repeat match goal with
    | H : typeKey _ ?r ?t <> typeKey _ ?r ?t |- _ => by apply H
    | H : _ <> _ |- _ => clear H
    end.
Qed.

(** Every key of the table is the key of a declared pair that [typeName]
    lists. *)
Lemma typeID_lookup i s :
  typeID pl Protocol_Role_num !! i = Some s ->
  exists r t, i = typeKey Protocol_Role_num r t /\ typeName pl r t = Some s.
Proof.
  unfold typeID.
  rewrite !list_to_map_cons, list_to_map_nil. cbn [fst snd].
  repeat (rewrite lookup_insert; destruct (decide _) as [E|];
          [intros [= <-]; eexists _, _; split; [symmetry; exact E|reflexivity]|]).
  by rewrite lookup_empty.
Qed.

(** X1. [uniqueTypeID] looks its two numbers up through the int32 key
    [10*role + id] only.  On the declared roles and types it returns the
    type id of exactly the nine pairs of the table and panics on every other
    pair: no two declared pairs share a key.  On the numbers a message can
    carry it returns a type id exactly when [10*role + id] is congruent
    modulo 2^32 to the key of one of the nine pairs, and then the id of that
    pair: numbers with congruent keys get the same answer, so a pair that is
    not in the table can be answered as one that is, and it panics when the
    key is congruent to none. *)
Theorem uniqueTypeID_table :
  (forall role id,
      uniqueTypeID pl Protocol_Role_num role id
      = wire.uniqueTypeID pl Protocol_Role_num (Protocol_Role_num role) (Protocol_Type_num id)
      /\ uniqueTypeID pl Protocol_Role_num role id
         = match typeName pl role id with
           | Some s => Returns s
           | None => Panics "cannot find typeid"
           end)
  /\ (forall role id s,
        wire.uniqueTypeID pl Protocol_Role_num role id = Returns s <->
        exists r t,
          typeName pl r t = Some s
          /\ (10 * role + id - (10 * Protocol_Role_num r + Protocol_Type_num t)) mod 2^32 = 0)
  /\ (forall role id,
        (forall r t s,
            typeName pl r t = Some s ->
            (10 * role + id - (10 * Protocol_Role_num r + Protocol_Type_num t)) mod 2^32 <> 0) ->
        wire.uniqueTypeID pl Protocol_Role_num role id = Panics "cannot find typeid")
  /\ (forall role id role' id',
        (10 * role + id - (10 * role' + id')) mod 2^32 = 0 ->
        wire.uniqueTypeID pl Protocol_Role_num role id
        = wire.uniqueTypeID pl Protocol_Role_num role' id').
Proof.
  assert (K : forall role id r t,
             int32 (int32 (10 * role) + int32 id) = typeKey Protocol_Role_num r t <->
             (10 * role + id - (10 * Protocol_Role_num r + Protocol_Type_num t)) mod 2^32 = 0).
  { intros role id r t. rewrite typeKey_small, int32_sum.
    pose proof (role_range r). pose proof (Protocol_Type_num_range t).
    apply int32_congr. lia. }
  split; [|split; [|split]].
  - intros role id. split; [reflexivity|].
    unfold uniqueTypeID. cbv zeta. by rewrite typeID_declared.
  - intros role id s. unfold wire.uniqueTypeID. cbv zeta. split.
    + destruct (typeID pl Protocol_Role_num !! _) as [s'|] eqn:L; [|discriminate].
      intros [= ->]. apply typeID_lookup in L as (r & t & E & N).
      exists r, t. split; [done|]. by apply K.
    + intros (r & t & N & E). apply K in E. by rewrite E, typeID_declared, N.
  - intros role id None_. unfold wire.uniqueTypeID. cbv zeta.
    destruct (typeID pl Protocol_Role_num !! _) as [s'|] eqn:L; [|reflexivity].
    apply typeID_lookup in L as (r & t & E & N). exfalso.
    apply (None_ r t s' N). by apply K.
  - intros role id role' id' E. unfold wire.uniqueTypeID. cbv zeta.
    rewrite !int32_sum.
    assert (int32 (10 * role + id) = int32 (10 * role' + id')) as ->; [|reflexivity].
    unfold int32. Z.div_mod_to_equations. lia.
Qed.

End TypeIDFacts.

Lemma roleNum0_inj r1 r2 : roleNum0 r1 = roleNum0 r2 -> r1 = r2.
Proof. destruct r1, r2; simpl; intros E; (reflexivity || discriminate E). Defined.

Lemma roleNum0_range r : 0 <= roleNum0 r < 2^27.
Proof. destruct r; simpl; lia. Defined.

(** With the roles numbered 0 to 3: a message with role 0 and type 12
    carries the key of (INITIATOR, ISSUE), and so does one with role
    429496730 and type 8, whose product wraps to 4. *)
Lemma uniqueTypeID_table_witness :
  (forall role id,
      server.uniqueTypeID pl0 roleNum0 role id
      = wire.uniqueTypeID pl0 roleNum0 (roleNum0 role) (pb.Protocol_Type_num id)
      /\ server.uniqueTypeID pl0 roleNum0 role id
         = match typeName pl0 role id with
           | Some s => Returns s
           | None => Panics "cannot find typeid"
           end)
  /\ wire.uniqueTypeID pl0 roleNum0 0 12 = wire.uniqueTypeID pl0 roleNum0 1 2
  /\ wire.uniqueTypeID pl0 roleNum0 429496730 8 = wire.uniqueTypeID pl0 roleNum0 1 2
  /\ wire.uniqueTypeID pl0 roleNum0 1 2 = Returns (pltype.CACredOffer pl0).
Proof.
  pose proof (uniqueTypeID_table pl0 roleNum0 roleNum0_inj roleNum0_range) as (A & B & _ & D).
  split; [exact A|]. split; [|split].
  - apply D. reflexivity.
  - apply D. reflexivity.
  - apply B. exists pb.Protocol_INITIATOR, pb.Protocol_ISSUE. split; reflexivity.
Defined.

(** ** Tasks built from RPC messages *)

Section TaskFromFacts.

Import pb server.

Variable pl : pltype.Consts.
Variable Protocol_Role_num : Protocol_Role -> Z.
Variable UUID : nat -> string.
Variable InvitationFromJSON : string -> Invitation.
Variable CredAttrsFromJSON : string -> list Attribute.
Variable ProofAttrsFromJSON : string -> list ProofAttribute.

Lemma Attribute_copy (l : list Attribute) :
  map (fun a => {| attr_Name := attr_Name a; attr_Value := attr_Value a |}) l = l.
Proof. induction l as [|[n v] l IH]; simpl; [reflexivity|by rewrite IH]. Qed.

Lemma ProofAttribute_copy (l : list ProofAttribute) :
  map (fun a => {| pa_Name := pa_Name a; pa_CredDefID := pa_CredDefID a;
                   pa_Predicate := pa_Predicate a |}) l = l.
Proof. induction l as [|[n c p] l IH]; simpl; [reflexivity|by rewrite IH]. Qed.

(** X2. How [taskFrom] ends.  It draws one UUID whatever happens.  It
    panics exactly when the (role, type) pair has no type id; it returns an
    error exactly for a CONNECT message without connection attributes and
    for an ISSUE message of an initiator without a credential definition;
    every task it returns has the type id of the pair and the connection id
    of the message as its [Message]. *)
Theorem taskFrom_outcome protocol w :
  (taskFrom pl Protocol_Role_num UUID InvitationFromJSON CredAttrsFromJSON
    ProofAttrsFromJSON protocol w).2 = (draw w).2
  /\ match (taskFrom pl Protocol_Role_num UUID InvitationFromJSON CredAttrsFromJSON
    ProofAttrsFromJSON protocol w).1 with
     | Returns task =>
         uniqueTypeID pl Protocol_Role_num (Role protocol) (TypeId protocol)
           = Returns (TypeID task)
         /\ Message task = ConnectionId protocol
         /\ (TypeId protocol = Protocol_CONNECT -> is_Some (GetConnAttr protocol))
         /\ (TypeId protocol = Protocol_ISSUE -> Role protocol = Protocol_INITIATOR ->
             is_Some (GetCredDef protocol))
     | Fails e =>
         (exists tid,
            uniqueTypeID pl Protocol_Role_num (Role protocol) (TypeId protocol) = Returns tid)
         /\ ((TypeId protocol = Protocol_CONNECT /\ GetConnAttr protocol = None
              /\ e = "connection attrs cannot be nil"%string)
             \/ (TypeId protocol = Protocol_ISSUE /\ Role protocol = Protocol_INITIATOR
                 /\ GetCredDef protocol = None
                 /\ e = "cred def cannot be nil for issuing protocol"%string))
     | Panics p =>
         uniqueTypeID pl Protocol_Role_num (Role protocol) (TypeId protocol)
           = Panics "cannot find typeid"
         /\ p = "cannot find typeid"%string
     end.
Proof.
  unfold taskFrom. cbn [draw].
  assert (U : forall e, uniqueTypeID pl Protocol_Role_num (Role protocol) (TypeId protocol)
                        <> Fails e).
  { intros e. unfold uniqueTypeID. cbv zeta. by destruct (typeID _ _ !! _). }
  destruct (uniqueTypeID pl Protocol_Role_num (Role protocol) (TypeId protocol))
    as [tid|e|p] eqn:E.
  - destruct (TypeId protocol) eqn:T.
    + simpl. repeat split; try done.
    + destruct (GetConnAttr protocol) as [c|] eqn:C; simpl.
      * repeat split; try done; by eexists.
      * split; [done|]. split; [by eexists|]. by left.
    + destruct (Role protocol) eqn:R; try (simpl; repeat split; done).
      destruct (GetCredDef protocol) as [cd|] eqn:D.
      * destruct (iss_AttrFmt cd) as [|l|json]; [| |destruct (negb _)];
          simpl; repeat split; try done; try by eexists.
      * simpl. split; [done|]. split; [by eexists|]. by right.
    + destruct (Role protocol) eqn:R; try (simpl; repeat split; done).
      destruct (GetProofReq protocol) as [pr|]; [|simpl; repeat split; done].
      destruct (proof_AttrFmt pr) as [|l|json]; [| |destruct (negb _)];
        simpl; repeat split; done.
    + simpl. repeat split; done.
    + simpl. repeat split; done.
  - by destruct (U e).
  - simpl. split; [done|]. unfold uniqueTypeID in E. cbv zeta in E.
    destruct (typeID _ _ !! _); [discriminate|]. by injection E as <-.
Qed.

(** X3. The attributes of a task.  Only an initiator's task carries a
    credential definition or attributes, and only for ISSUE or PROOF; an
    attribute list of the message is carried over whole and in order, and
    attributes given as JSON text are what the JSON helper reads from a
    non-empty text. *)
Theorem taskFrom_attributes protocol w task w' :
  taskFrom pl Protocol_Role_num UUID InvitationFromJSON CredAttrsFromJSON
    ProofAttrsFromJSON protocol w = (Returns task, w') ->
  (Role protocol <> Protocol_INITIATOR ->
   CredDefID task = None /\ CredentialAttrs task = None /\ ProofAttrs task = None)
  /\ (TypeId protocol <> Protocol_ISSUE ->
      CredDefID task = None /\ CredentialAttrs task = None)
  /\ (TypeId protocol <> Protocol_PROOF -> ProofAttrs task = None)
  /\ (forall cd,
        TypeId protocol = Protocol_ISSUE -> Role protocol = Protocol_INITIATOR ->
        GetCredDef protocol = Some cd ->
        CredDefID task = Some (CredDefId cd)
        /\ CredentialAttrs task
           = match iss_AttrFmt cd with
             | Attrs l => Some l
             | AttributesJson json =>
                 if String.eqb json "" then None else Some (CredAttrsFromJSON json)
             | NoAttrs => None
             end)
  /\ (forall pr,
        TypeId protocol = Protocol_PROOF -> Role protocol = Protocol_INITIATOR ->
        GetProofReq protocol = Some pr ->
        ProofAttrs task
        = match proof_AttrFmt pr with
          | Attrs l => Some l
          | AttributesJson json =>
              if String.eqb json "" then None else Some (ProofAttrsFromJSON json)
          | NoAttrs => None
          end).
Proof.
  unfold taskFrom. cbn [draw].
  destruct (uniqueTypeID pl Protocol_Role_num (Role protocol) (TypeId protocol))
    as [tid|e|p]; try discriminate.
  destruct (TypeId protocol) eqn:T; [| destruct (GetConnAttr protocol) as [c|] | | | |];
    try discriminate;
    try (intros [= <- <-]; simpl; repeat split; done).
  - destruct (Role protocol) eqn:R;
      try (intros [= <- <-]; simpl; repeat split; done).
    destruct (GetCredDef protocol) as [cd|] eqn:D; [|discriminate].
    destruct (iss_AttrFmt cd) as [|l|json] eqn:F;
      [| |destruct (String.eqb json "") eqn:J]; cbn [negb];
      intros [= <- <-]; simpl; repeat split; try done; simplify_eq;
      rewrite ?F, ?J, ?Attribute_copy; done.
  - destruct (Role protocol) eqn:R;
      try (intros [= <- <-]; simpl; repeat split; done).
    destruct (GetProofReq protocol) as [pr|] eqn:D;
      [|intros [= <- <-]; simpl; repeat split; done].
    destruct (proof_AttrFmt pr) as [|l|json] eqn:F;
      [| |destruct (String.eqb json "") eqn:J]; cbn [negb];
      intros [= <- <-]; simpl; repeat split; try done; intros; simplify_eq;
      rewrite ?F, ?J, ?ProofAttribute_copy; done.
Qed.

Lemma taskFrom_nonce protocol w task w' :
  taskFrom pl Protocol_Role_num UUID InvitationFromJSON CredAttrsFromJSON
    ProofAttrsFromJSON protocol w = (Returns task, w') ->
  TypeId protocol <> Protocol_CONNECT ->
  Nonce task = UUID (drawn w) /\ drawn w' = S (drawn w).
Proof.
  intros E N. revert E. unfold taskFrom. cbn [draw].
  destruct (uniqueTypeID _ _ _ _); try discriminate.
  destruct (TypeId protocol); try (by destruct N).
  - intros [= <- <-]. by split.
  - destruct (Role protocol); try (intros [= <- <-]; by split).
    destruct (GetCredDef protocol) as [cd|]; [|discriminate].
    destruct (iss_AttrFmt cd); [| |destruct (negb _)]; intros [= <- <-]; by split.
  - destruct (Role protocol); try (intros [= <- <-]; by split).
    destruct (GetProofReq protocol) as [pr|]; [|intros [= <- <-]; by split].
    destruct (proof_AttrFmt pr); [| |destruct (negb _)]; intros [= <- <-]; by split.
  - intros [= <- <-]. by split.
  - intros [= <- <-]. by split.
Qed.

(** X4. Nonces are fresh.  A task that is not for CONNECT has the UUID drawn
    for it as its nonce, and of two tasks built one after the other the
    second gets the next UUID: when the UUID source does not repeat itself,
    the two nonces differ. *)
Theorem taskFrom_fresh_nonce p1 p2 w t1 w1 t2 w2 :
  (forall n m, UUID n = UUID m -> n = m) ->
  TypeId p1 <> Protocol_CONNECT ->
  TypeId p2 <> Protocol_CONNECT ->
  taskFrom pl Protocol_Role_num UUID InvitationFromJSON CredAttrsFromJSON
    ProofAttrsFromJSON p1 w = (Returns t1, w1) ->
  taskFrom pl Protocol_Role_num UUID InvitationFromJSON CredAttrsFromJSON
    ProofAttrsFromJSON p2 w1 = (Returns t2, w2) ->
  Nonce t1 = UUID (drawn w)
  /\ Nonce t2 = UUID (S (drawn w))
  /\ Nonce t1 <> Nonce t2.
Proof.
  intros I N1 N2 E1 E2.
  destruct (taskFrom_nonce _ _ _ _ E1 N1) as [A D].
  destruct (taskFrom_nonce _ _ _ _ E2 N2) as [B _]. rewrite D in B.
  repeat split; try done. rewrite A, B. intros E. apply I in E. lia.
Qed.

End TaskFromFacts.

Lemma taskFrom_attributes_witness :
  let task := returned (server.taskFrom pl0 roleNum0 uuidOf invitation0 (fun _ => [])
                          (fun _ => []) issue0 w0).1 task0 in
  server.CredDefID task = Some "cd:1"%string
  /\ server.CredentialAttrs task
     = Some [ {| server.attr_Name := "email"; server.attr_Value := "a@b" |};
              {| server.attr_Name := "name"; server.attr_Value := "alice" |} ].
Proof.
  intros task.
  refine (proj1 (proj2 (proj2 (proj2
    (taskFrom_attributes pl0 roleNum0 uuidOf invitation0 (fun _ => []) (fun _ => [])
       issue0 w0 task (draw w0).2 _)))) _ eq_refl eq_refl eq_refl).
  vm_compute. reflexivity.
Defined.

Lemma taskFrom_fresh_nonce_witness :
  let t1 := returned (server.taskFrom pl0 roleNum0 uuidOf invitation0 (fun _ => [])
                        (fun _ => []) ping0 w0).1 task0 in
  let t2 := returned (server.taskFrom pl0 roleNum0 uuidOf invitation0 (fun _ => [])
                        (fun _ => []) issue0 (draw w0).2).1 task0 in
  server.Nonce t1 = uuidOf (drawn w0)
  /\ server.Nonce t2 = uuidOf (S (drawn w0))
  /\ server.Nonce t1 <> server.Nonce t2.
Proof.
  intros t1 t2.
  apply (taskFrom_fresh_nonce pl0 roleNum0 uuidOf invitation0 (fun _ => []) (fun _ => [])
           ping0 issue0 w0 t1 (draw w0).2 t2 (draw (draw w0).2).2).
  - intros n m E. exact (inj pretty n m E).
  - discriminate.
  - discriminate.
  - vm_compute. reflexivity.
  - vm_compute. reflexivity.
Defined.

(** ** More on the stream of [Run] *)

Section RunMore.

Import pb server.

Variable pl : pltype.Consts.
Variable Protocol_Role_num : Protocol_Role -> Z.
Variable UUID : nat -> string.
Variable InvitationFromJSON : string -> Invitation.
Variable CredAttrsFromJSON : string -> list Attribute.
Variable ProofAttrsFromJSON : string -> list ProofAttribute.
Variable CheckTokenValidity : string -> outcome string.
Variable agency : gmap string AgencyHandler.
Variable sendOk : nat -> bool.
Variable ext : cloud.Externals.
Variable agentOf : string -> cloud.addr.




(** X6. A [Run] call whose token is invalid, or whose caller is not a CA of
    this agency, returns that error whatever is posted on the bus: the
    stream holds the one ERR state that carries the error text, if its send
    succeeds, and nothing else; no UUID is drawn, no task is built or
    started, and the heap of agents is not touched. *)
Theorem Run_rejected ctx protocol posted w m started e :
  CheckTokenValidity ctx = Fails e
  \/ (exists ctx', CheckTokenValidity ctx = Returns ctx' /\ ca agency ctx' = Fails e) ->
  Run pl Protocol_Role_num UUID InvitationFromJSON CredAttrsFromJSON ProofAttrsFromJSON
    CheckTokenValidity agency sendOk ext agentOf ctx protocol posted w m started
  = (Returned (Some e),
     (if sendOk 0 then [ {| ProtocolID_ := None; State := ProtocolState_ERR; Info := e |} ]
      else []),
     w, m, started).
Proof.
  intros [Tk|(ctx' & Tk & Ca)]; unfold Run; rewrite Tk, ?Ca;
    unfold Run_deferred, Send; cbn [attempts sent]; by destruct (sendOk 0).
Qed.

End RunMore.


Lemma Run_rejected_witness :
  server.Run pl0 roleNum0 uuid0 invitation0 (fun _ => []) (fun _ => []) Returns agency0
             (fun _ => true) ext0 (fun _ => 1%positive) "stranger" connect0 posted1 w0
             machine0 []
  = (server.Returned (Some "handler is not in this agency"%string),
     [ {| server.ProtocolID_ := None; server.State := pb.ProtocolState_ERR;
          server.Info := "handler is not in this agency" |} ],
     w0, machine0, []).
Proof.
  apply (Run_rejected pl0 roleNum0 uuid0 invitation0 (fun _ => []) (fun _ => [])
           Returns agency0 (fun _ => true) ext0 (fun _ => 1%positive) "stranger" connect0
           posted1 w0 machine0 [] "handler is not in this agency").
  right. exists "stranger"%string. split; [reflexivity|]. vm_compute. reflexivity.
Defined.

(** ** The callback with the permissive Service Agent *)

Section PermissiveCallFacts.

Import didcomm cloud.

Variable pl : pltype.Consts.
Variable ext : Externals.
Variable registry : gmap string sa.Handler.
Variable NewNonceStr : nat -> string.

(** A CA that has an implementation id keeps it: [callableEA] answers
    [callTypeImplID] and leaves the agent as it is. *)
Lemma callableEA_keeps a :
  IsCA ext (AgentType a) = true ->
  SAImplID a <> ""%string ->
  callableEA ext a = (Returns callTypeImplID, a).
Proof.
  intros CA N. unfold callableEA, checkSAImpl. rewrite CA. cbn [negb].
  destruct (String.eqb_spec (SAImplID a) "") as [E|_]; [by destruct N|].
  cbn [andb negb]. destruct (String.eqb_spec (SAImplID a) "") as [E|_]; [by destruct N|].
  reflexivity.
Qed.

(** Whatever the payload type, the permissive handler returns: a nil
    message, or the inbound message made ready; the PSM store stays. *)
Lemma permissiveHandler_shape WDID plType im w :
  exists r w',
    sa.permissiveHandler pl NewNonceStr WDID plType im w = (Returns r, w')
    /\ psms w' = psms w
    /\ match r with
       | Some om => Ready om = true /\ ThreadID om = ThreadID im
       | None => w' = w
       end.
Proof.
  unfold sa.permissiveHandler.
  repeat (destruct (String.eqb plType _);
          [eexists _, _; split; [reflexivity|]; by repeat split|]).
  eexists _, _. split; [reflexivity|]. by repeat split.
Qed.

Lemma permissiveHandler_answers WDID plType im w :
  pltype.distinct_questions pl ->
  plType ∈ pltype.questions pl ->
  exists om w', sa.permissiveHandler pl NewNonceStr WDID plType im w = (Returns (Some om), w').
Proof.
  intros Nd Q. unfold sa.permissiveHandler.
  destruct (String.eqb_spec plType (pltype.CANotifyStatus pl)) as [->|_].
  { exfalso. unfold pltype.distinct_questions, pltype.handler_cases in Nd.
    apply NoDup_cons in Nd as [Nin _]. by apply Nin. }
  unfold pltype.questions in Q.
  repeat match goal with
  | |- context [String.eqb plType ?c] =>
      destruct (String.eqb_spec plType c) as [->|?]; [by eexists _, _|]
  end.
  exfalso.
  repeat (apply elem_of_cons in Q as [Q|Q]; [done|]). by apply elem_of_nil in Q.
Qed.

(** X7. On a CA whose implementation id is "permissive_sa", with the
    permissive handler registered under that id, [CallEA] answers every
    question with the inbound message made ready, without error and without
    changing the agent or the PSM store; for a payload type that is no
    question it returns a nil message and a nil error. *)
Theorem CallEA_permissive a plType im w :
  IsCA ext (AgentType a) = true ->
  SAImplID a = sa.PermissiveSA ->
  sa.Get registry sa.PermissiveSA = Some (sa.permissiveHandler pl NewNonceStr) ->
  pltype.distinct_questions pl ->
  (plType ∈ pltype.questions pl ->
   exists om w',
     CallEA pl ext registry a plType im w = (Returns (Some om), a, w')
     /\ Ready om = true
     /\ ThreadID om = ThreadID im
     /\ psms w' = psms w)
  /\ (plType ∉ pltype.questions pl ->
      CallEA pl ext registry a plType im w = (Returns None, a, w)).
Proof.
  intros CA Id Reg Nd.
  assert (C : callableEA ext a = (Returns callTypeImplID, a)).
  { apply callableEA_keeps; [done|]. by rewrite Id. }
  assert (S : forall w0, CallEA_switch pl ext registry callTypeImplID a plType im w0
                         = sa.permissiveHandler pl NewNonceStr (WDID a) plType im w0).
  { intros w0. unfold CallEA_switch.
    cbn [Z.eqb callTypeImplID callTypeEndp Pos.eqb]. rewrite Id. by rewrite Reg. }
  split.
  - intros Q. unfold CallEA. rewrite C, S.
    destruct (permissiveHandler_answers (WDID a) plType im w Nd Q) as (om & w' & E).
    destruct (permissiveHandler_shape (WDID a) plType im w) as (r & w1 & E' & P & Sh).
    rewrite E in E'. injection E' as <- <-. rewrite E.
    exists om, w'. destruct Sh as [R T]. by repeat split.
  - intros Q. unfold CallEA. rewrite C, S.
    by rewrite permissiveHandler_not_a_question.
Qed.

End PermissiveCallFacts.

Lemma CallEA_permissive_witness :
  (pltype.SAPing pl0 ∈ pltype.questions pl0 ->
   exists om w',
     cloud.CallEA pl0 ext0 registry0 caPermissive (pltype.SAPing pl0) hello w0
       = (Returns (Some om), caPermissive, w')
     /\ didcomm.Ready om = true
     /\ didcomm.ThreadID om = didcomm.ThreadID hello
     /\ psms w' = psms w0)
  /\ (pltype.SAPing pl0 ∉ pltype.questions pl0 ->
      cloud.CallEA pl0 ext0 registry0 caPermissive (pltype.SAPing pl0) hello w0
        = (Returns None, caPermissive, w0)).
Proof.
  apply (CallEA_permissive pl0 ext0 registry0 nonce0 caPermissive (pltype.SAPing pl0) hello w0).
  - reflexivity.
  - reflexivity.
  - vm_compute. reflexivity.
  - apply (bool_decide_unpack _). vm_compute. exact I.
Defined.

(** ** More on the pairwise map *)

Section PWMapMore.

Import cloud.

Variable ext : Externals.

(** X8. [AddToPWMap] touches nothing but the two entries it writes: the
    pipe it returns is the pair of the two DIDs, every other DID and every
    other label index as before, and the agent differs from the old one in
    its two maps only. *)
Theorem AddToPWMap_frame a me you name p a' :
  AddToPWMap a me you name = Returns (p, a') ->
  p = {| sec.In := me; sec.Out := you |}
  /\ (forall d, d <> ssi.Did me -> SecPipe a' d = SecPipe a d)
  /\ (forall n, n <> name -> PwName a' n = PwName a n)
  /\ set_maps (pws a) (pwNames a) a' = a.
Proof.
  unfold AddToPWMap.
  destruct (pws a) as [byDID|] eqn:P; [|discriminate].
  destruct (pwNames a) as [byName|] eqn:N; [|discriminate].
  intros [= <- <-]. split; [reflexivity|].
  unfold SecPipe, PwName. cbn [pws pwNames set_maps]. rewrite P, N.
  repeat split.
  - intros d Hd. by rewrite lookup_insert_ne.
  - intros n Hn. by rewrite lookup_insert_ne.
  - destruct a. simpl in *. by subst.
Qed.

(** X9. Pairing the same myDID again, with another DID of the peer and
    under another label, moves the myDID index to the new pipe and indexes
    the new label, but the old label keeps the old pipe: the two indexes
    then disagree about that pairwise. *)
Theorem AddToPWMap_old_label_stays a me you you' name name' byDID byName :
  pws a = Some byDID ->
  pwNames a = Some byName ->
  name <> name' ->
  exists a1 a2,
    AddToPWMap a me you name = Returns ({| sec.In := me; sec.Out := you |}, a1)
    /\ AddToPWMap a1 me you' name' = Returns ({| sec.In := me; sec.Out := you' |}, a2)
    /\ SecPipe a2 (ssi.Did me) = Some {| sec.In := me; sec.Out := you' |}
    /\ PwName a2 name' = Some {| sec.In := me; sec.Out := you' |}
    /\ PwName a2 name = Some {| sec.In := me; sec.Out := you |}
    /\ (you <> you' -> PwName a2 name <> SecPipe a2 (ssi.Did me)).
Proof.
  intros P N Ne. unfold AddToPWMap at 1. rewrite P, N.
  eexists _, _. split; [reflexivity|].
  unfold AddToPWMap, SecPipe, PwName. cbn [pws pwNames set_maps].
  split; [reflexivity|]. cbn [pws pwNames set_maps].
  rewrite !lookup_insert_eq, lookup_insert_ne, lookup_insert_eq by done.
  repeat split. intros Hy [= E]. by apply Hy.
Qed.

Lemma foldl_insert_other {V} (key : indypw.Data -> string) (val : indypw.Data -> V)
    (l : list indypw.Data) (m : gmap string V) (k : string) :
  k ∉ key <$> l ->
  foldl (fun m d => <[key d := val d]> m) m l !! k = m !! k.
Proof.
  revert m. induction l as [|d l IH]; intros m Hk; [reflexivity|].
  cbn [foldl]. rewrite fmap_cons in Hk. apply not_elem_of_cons in Hk as [Hd Hl].
  rewrite IH by done. by rewrite lookup_insert_ne.
Qed.

Lemma foldl_insert_last {V} (key : indypw.Data -> string) (val : indypw.Data -> V)
    (pre post : list indypw.Data) (d : indypw.Data) (m : gmap string V) :
  key d ∉ key <$> post ->
  foldl (fun m d => <[key d := val d]> m) m (pre ++ d :: post) !! key d = Some (val d).
Proof.
  intros Hk. rewrite foldl_app. cbn [foldl].
  rewrite foldl_insert_other by done. apply lookup_insert_eq.
Qed.

Lemma foldl_insert_some {V} (key : indypw.Data -> string) (val : indypw.Data -> V)
    (l : list indypw.Data) (m : gmap string V) (k : string) :
  k ∈ key <$> l -> is_Some (foldl (fun m d => <[key d := val d]> m) m l !! k).
Proof.
  revert m. induction l as [|x l IH]; intros m Hk; [by apply elem_of_nil in Hk|].
  cbn [foldl]. destruct (decide (k ∈ key <$> l)) as [Hin|Hnin]; [by apply IH|].
  rewrite foldl_insert_other by done.
  rewrite fmap_cons in Hk. apply elem_of_cons in Hk as [->|Hk]; [|done].
  rewrite lookup_insert_eq. by eexists.
Qed.

Lemma loadPWMap_range_maps pwd a byDID byName :
  pws a = Some byDID ->
  pwNames a = Some byName ->
  loadPWMap_range ext a pwd
  = Returns (set_maps
               (Some (foldl (fun m d => <[indypw.MyDid d := pipeOf ext d]> m) byDID pwd))
               (Some (foldl (fun m d => <[indypw.Metadata d := pipeOf ext d]> m) byName pwd))
               a).
Proof.
  revert a byDID byName. induction pwd as [|d pwd IH]; intros a byDID byName P N.
  - simpl. destruct a. simpl in *. by subst.
  - cbn [loadPWMap_range foldl]. unfold loadPWMap_step. rewrite P, N. cbn [bind].
    erewrite IH by reflexivity. reflexivity.
Qed.

(** X10. [loadPWMap] on an agent whose maps are made.  When the wallet
    lists its pairwises, every one of them is indexed afterwards under its
    myDID and under its label; for a myDID (a label) listed more than once
    the last entry wins; DIDs and labels that are not listed index as
    before.  When the wallet fails, the agent is left as it is and no error
    is reported. *)
Theorem loadPWMap_indexes a byDID byName :
  pws a = Some byDID ->
  pwNames a = Some byName ->
  match List_ ext (Wallet a) with
  | Returns pwd =>
      exists a',
        loadPWMap ext a = Returns a'
        /\ (forall d, d ∈ pwd ->
              is_Some (SecPipe a' (indypw.MyDid d))
              /\ is_Some (PwName a' (indypw.Metadata d)))
        /\ (forall pre d post, pwd = pre ++ d :: post ->
              (indypw.MyDid d ∉ indypw.MyDid <$> post ->
               SecPipe a' (indypw.MyDid d) = Some (pipeOf ext d))
              /\ (indypw.Metadata d ∉ indypw.Metadata <$> post ->
                  PwName a' (indypw.Metadata d) = Some (pipeOf ext d)))
        /\ (forall k, k ∉ indypw.MyDid <$> pwd -> SecPipe a' k = SecPipe a k)
        /\ (forall n, n ∉ indypw.Metadata <$> pwd -> PwName a' n = PwName a n)
  | _ => loadPWMap ext a = Returns a
  end.
Proof.
  intros P N. unfold loadPWMap.
  destruct (List_ ext (Wallet a)) as [pwd| |]; try reflexivity.
  rewrite (loadPWMap_range_maps pwd a byDID byName P N).
  eexists. split; [reflexivity|].
  unfold SecPipe, PwName. cbn [pws pwNames set_maps]. rewrite P, N.
  repeat split.
  - apply foldl_insert_some, list_elem_of_fmap. by eexists.
  - apply foldl_insert_some, list_elem_of_fmap. by eexists.
  - subst pwd. by apply foldl_insert_last.
  - subst pwd. by apply foldl_insert_last.
  - intros k Hk. by apply foldl_insert_other.
  - intros n Hn. by apply foldl_insert_other.
Qed.

(** X11. [callableEA] settles the agent.  A call that returns changes at
    most the implementation id and the endpoint; an agent that has an id is
    left alone, one without gets [sa.GRPCSA], and an endpoint found in the
    wallet's metadata is remembered; when [sa.GRPCSA] is not empty a second
    call returns the same and changes nothing more. *)
Theorem callableEA_settles a ct a' :
  callableEA ext a = (Returns ct, a') ->
  set_EAEndp (EAEndp a) (set_SAImplID (SAImplID a) a') = a
  /\ (SAImplID a <> ""%string -> a' = a)
  /\ (SAImplID a = ""%string ->
      SAImplID a' = GRPCSA ext
      /\ EAEndp a'
         = match EAEndp a with
           | Some endp => Some endp
           | None =>
               match Meta ext (Wallet a) (WDID a) with
               | Returns str1 =>
                   if negb (String.eqb str1 "pairwise") && negb (String.eqb str1 "")
                   then Some (AddrFromJSON ext str1) else None
               | _ => None
               end
           end)
  /\ (GRPCSA ext <> ""%string -> callableEA ext a' = (Returns ct, a')).
Proof.
  unfold callableEA at 1. unfold WDID.
  destruct (IsCA ext (AgentType a)) eqn:CA; [|discriminate]. cbn [negb].
  match goal with |- context [checkSAImpl ext ?x] => set (b := x) end.
  assert (Hb : SAImplID b = SAImplID a /\ AgentType b = AgentType a
               /\ set_EAEndp (EAEndp a) b = a
               /\ (SAImplID a <> ""%string -> b = a)
               /\ EAEndp b
                  = match EAEndp a with
                    | Some endp => Some endp
                    | None =>
                        if String.eqb (SAImplID a) "" then
                          match Meta ext (Wallet a)
                                  (ssi.Did (sec.Out (trans.PayloadPipe (Tr a)))) with
                          | Returns str1 =>
                              if negb (String.eqb str1 "pairwise")
                                 && negb (String.eqb str1 "")
                              then Some (AddrFromJSON ext str1) else None
                          | _ => None
                          end
                        else None
                    end).
  { subst b. destruct (String.eqb_spec (SAImplID a) "") as [E|Ne]; cbn [andb].
    - destruct (EAEndp a) as [endp|] eqn:Ep.
      + change (bool_decide (is_Some (Some endp))) with true. cbn [negb].
        repeat split; try done. destruct a; simpl in *; by subst.
      + change (bool_decide (is_Some (@None service.Addr))) with false. cbn [negb].
        destruct (Meta ext _ _) as [str1| |];
          [destruct (negb (String.eqb str1 "pairwise") && negb (String.eqb str1 ""))| |];
          repeat split; try done; destruct a; simpl in *; by subst.
    - repeat split; try done; [by destruct a|by destruct (EAEndp a)]. }
  destruct Hb as (Hs & Ht & Hset & Hsame & Hep).
  unfold checkSAImpl. destruct (String.eqb_spec (SAImplID b) "") as [E|Ne]; cbn [negb].
  - intros [= <- <-]. rewrite Hs in E. repeat split; try done.
    + cbn [set_SAImplID set_EAEndp EAEndp SAImplID] in *. rewrite <- Hset.
      destruct b. simpl in *. by subst.
    + cbn [set_SAImplID EAEndp]. rewrite Hep, E. reflexivity.
    + intros G. apply callableEA_keeps; [|done].
      cbn [AgentType set_SAImplID]. by rewrite Ht.
  - intros [= <- <-]. rewrite Hs in Ne. rewrite (Hsame Ne). repeat split; try done.
    + by destruct a.
    + intros G. by apply callableEA_keeps.
Qed.

End PWMapMore.

Lemma AddToPWMap_frame_witness :
  let r := returned (cloud.AddToPWMap worker0 didMe didYou "alice") (pipe0, worker0) in
  r.1 = {| sec.In := didMe; sec.Out := didYou |}
  /\ (forall d, d <> ssi.Did didMe -> cloud.SecPipe r.2 d = cloud.SecPipe worker0 d)
  /\ (forall n, n <> "alice"%string -> cloud.PwName r.2 n = cloud.PwName worker0 n)
  /\ cloud.set_maps (cloud.pws worker0) (cloud.pwNames worker0) r.2 = worker0.
Proof.
  intros r.
  apply (AddToPWMap_frame worker0 didMe didYou "alice" r.1 r.2).
  reflexivity.
Defined.

Lemma AddToPWMap_old_label_stays_witness :
  exists a1 a2,
    cloud.AddToPWMap worker0 didMe didYou "alice"
      = Returns ({| sec.In := didMe; sec.Out := didYou |}, a1)
    /\ cloud.AddToPWMap a1 didMe didOther "bob"
       = Returns ({| sec.In := didMe; sec.Out := didOther |}, a2)
    /\ cloud.SecPipe a2 (ssi.Did didMe) = Some {| sec.In := didMe; sec.Out := didOther |}
    /\ cloud.PwName a2 "bob" = Some {| sec.In := didMe; sec.Out := didOther |}
    /\ cloud.PwName a2 "alice" = Some {| sec.In := didMe; sec.Out := didYou |}
    /\ (didYou <> didOther -> cloud.PwName a2 "alice" <> cloud.SecPipe a2 (ssi.Did didMe)).
Proof.
  apply (AddToPWMap_old_label_stays worker0 didMe didYou didOther "alice" "bob" ∅ ∅).
  - reflexivity.
  - reflexivity.
  - discriminate.
Defined.

Lemma loadPWMap_indexes_witness :
  match cloud.List_ ext1 (cloud.Wallet worker0) with
  | Returns pwd =>
      exists a',
        cloud.loadPWMap ext1 worker0 = Returns a'
        /\ (forall d, d ∈ pwd ->
              is_Some (cloud.SecPipe a' (indypw.MyDid d))
              /\ is_Some (cloud.PwName a' (indypw.Metadata d)))
        /\ (forall pre d post, pwd = pre ++ d :: post ->
              (indypw.MyDid d ∉ indypw.MyDid <$> post ->
               cloud.SecPipe a' (indypw.MyDid d) = Some (pipeOf ext1 d))
              /\ (indypw.Metadata d ∉ indypw.Metadata <$> post ->
                  cloud.PwName a' (indypw.Metadata d) = Some (pipeOf ext1 d)))
        /\ (forall k, k ∉ indypw.MyDid <$> pwd -> cloud.SecPipe a' k = cloud.SecPipe worker0 k)
        /\ (forall n, n ∉ indypw.Metadata <$> pwd ->
              cloud.PwName a' n = cloud.PwName worker0 n)
  | _ => cloud.loadPWMap ext1 worker0 = Returns worker0
  end.
Proof.
  apply (loadPWMap_indexes ext1 worker0 ∅ ∅).
  - reflexivity.
  - reflexivity.
Defined.

Lemma callableEA_settles_witness :
  let a' := (cloud.callableEA ext1 ca0).2 in
  cloud.set_EAEndp (cloud.EAEndp ca0) (cloud.set_SAImplID (cloud.SAImplID ca0) a') = ca0
  /\ (cloud.SAImplID ca0 <> ""%string -> a' = ca0)
  /\ (cloud.SAImplID ca0 = ""%string ->
      cloud.SAImplID a' = cloud.GRPCSA ext1
      /\ cloud.EAEndp a'
         = match cloud.EAEndp ca0 with
           | Some endp => Some endp
           | None =>
               match cloud.Meta ext1 (cloud.Wallet ca0) (cloud.WDID ca0) with
               | Returns str1 =>
                   if negb (String.eqb str1 "pairwise") && negb (String.eqb str1 "")
                   then Some (cloud.AddrFromJSON ext1 str1) else None
               | _ => None
               end
           end)
  /\ (cloud.GRPCSA ext1 <> ""%string ->
      cloud.callableEA ext1 a' = (Returns cloud.callTypeImplID, a')).
Proof.
  intros a'.
  apply (callableEA_settles ext1 ca0 cloud.callTypeImplID a').
  reflexivity.
Defined.

(** ** More on the worker agent *)

Section WorkerMore.

Import cloud.

Variable ext : Externals.

Hypothesis worker_flag : IsWorker ext (Z.lor (Edge ext) (Worker ext)) = true.

(** What a [WEA()] call does to the heap: nothing, or it attaches a new
    worker [W] at a fresh address and registers it. *)
Lemma WEA_cases self m r m' :
  WEA ext self m = (r, m') ->
  (m' = m
   /\ forall w, r = Returns w -> exists a, agents m !! self = Some a /\ worker a = Some w)
  \/ exists a key w W,
       agents m !! self = Some a /\ worker a = None
       /\ WalletKeyByDID ext (ssi.Did (Root a)) = Returns key
       /\ w = fresh (dom (agents m))
       /\ agents m' = <[w := W]> (<[self := set_worker (Some w) a]> (agents m))
       /\ ActiveRcvrs m' = <[WDID a := w]> (ActiveRcvrs m)
       /\ AgentType W = Z.lor (Edge ext) (Worker ext)
       /\ Root W = Root a /\ ca W = Some self /\ worker W = None
       /\ SAImplID W = ""%string /\ EAEndp W = None
       /\ Wallet W = (CreateWorkerWallet ext (Wallet a) "_worker" key).1
       /\ Tr W = workerTransport ext a
       /\ ((r = Returns w
            /\ pws W = match List_ ext (Wallet W) with
                       | Returns pwd =>
                           Some (foldl (fun m d => <[indypw.MyDid d := pipeOf ext d]> m) ∅ pwd)
                       | _ => Some ∅
                       end
            /\ pwNames W = match List_ ext (Wallet W) with
                           | Returns pwd =>
                               Some (foldl (fun m d => <[indypw.Metadata d := pipeOf ext d]> m)
                                           ∅ pwd)
                           | _ => Some ∅
                           end)
           \/ ((forall x, r <> Returns x) /\ pws W = Some ∅ /\ pwNames W = Some ∅)).
Proof.
  unfold WEA. destruct (agents m !! self) as [a|] eqn:L.
  2: { intros [= <- <-]. left. split; [done|]. intros w [=]. }
  destruct (worker a) as [w0|] eqn:Wk.
  { intros [= <- <-]. left. split; [done|]. intros w [= <-]. by exists a. }
  unfold workerAgent. rewrite L, Wk, String.eqb_refl. cbn [negb].
  destruct (WalletKeyByDID ext _) as [key|e|p] eqn:K.
  2: { intros [= <- <-]. left. split; [done|]. intros w [=]. }
  2: { intros [= <- <-]. left. split; [done|]. intros w [=]. }
  destruct (CreateWorkerWallet ext _ _ _) as [handle before] eqn:Cw.
  assert (Nself : self <> fresh (dom (agents m))) by (eapply fresh_agent; eauto).
  unfold workerAgent_finish, store. cbn [agents ActiveRcvrs].
  match goal with |- context [loadPWMap ext ?x] => set (wa := x) end.
  set (w := fresh (dom (agents m))) in *.
  match goal with |- context [match ?s with Returns _ => _ | Fails _ => _ | Panics _ => _ end] =>
    destruct s as [[]|e|p] end.
  - unfold loadPWMap. cbn [Wallet wa].
    assert (LM : forall pwd,
              loadPWMap_range ext wa pwd
              = Returns (set_maps
                           (Some (foldl (fun m d => <[indypw.MyDid d := pipeOf ext d]> m) ∅ pwd))
                           (Some (foldl (fun m d => <[indypw.Metadata d := pipeOf ext d]> m)
                                        ∅ pwd)) wa)).
    { intros pwd. by apply loadPWMap_range_maps. }
    destruct (List_ ext handle) as [pwd| |] eqn:Li; rewrite ?LM;
      intros [= <- <-]; right;
      eexists a, key, w, _;
      (split; [done|]); (split; [done|]); (split; [done|]); (split; [done|]);
      (split; [cbn [agents];
               by rewrite (insert_insert_ne _ self w), insert_insert_eq by done|]);
      repeat (split; [done|]);
      (split; [cbn [Wallet set_maps wa]; by rewrite Cw|]); (split; [done|]);
      left; cbn [Wallet set_maps wa pws pwNames]; rewrite Li; by repeat split.
  - intros [= <- <-]. right. exists a, key, w, wa.
    (split; [done|]); (split; [done|]); (split; [done|]); (split; [done|]).
    split; [cbn [agents]; by rewrite (insert_insert_ne _ self w) by done|].
    repeat (split; [done|]).
    split; [cbn [Wallet wa]; by rewrite Cw|]. split; [done|]. right. by repeat split.
  - intros [= <- <-]. right. exists a, key, w, wa.
    (split; [done|]); (split; [done|]); (split; [done|]); (split; [done|]).
    split; [cbn [agents]; by rewrite (insert_insert_ne _ self w) by done|].
    repeat (split; [done|]).
    split; [cbn [Wallet wa]; by rewrite Cw|]. split; [done|]. right. by repeat split.
Qed.

Lemma linked_attach m m' self a w W :
  linked ext m ->
  agents m !! self = Some a ->
  agents m !! w = None ->
  agents m' = <[w := W]> (<[self := set_worker (Some w) a]> (agents m)) ->
  AgentType W = Z.lor (Edge ext) (Worker ext) ->
  ca W = Some self ->
  worker W = None ->
  linked ext m'.
Proof.
  intros Lk La Lw Ag Ty Cw Wk c A x Lc Wx.
  assert (Nself : self <> w) by (intros ->; congruence).
  rewrite Ag in Lc. rewrite Ag.
  destruct (decide (c = w)) as [->|Ncw].
  { rewrite lookup_insert_eq in Lc. injection Lc as <-. congruence. }
  rewrite lookup_insert_ne in Lc by done.
  destruct (decide (c = self)) as [->|Ncs].
  { rewrite lookup_insert_eq in Lc. injection Lc as <-.
    cbn [worker set_worker] in Wx. injection Wx as <-.
    exists W. rewrite lookup_insert_eq. repeat split; try done.
    rewrite Ty. exact worker_flag. }
  rewrite lookup_insert_ne in Lc by done.
  destruct (Lk c A x Lc Wx) as (X & LX & CX & IX).
  assert (Nx : x <> w) by (intros ->; congruence).
  rewrite lookup_insert_ne by done.
  destruct (decide (x = self)) as [->|Nxs].
  - assert (X = a) by congruence. subst X.
    exists (set_worker (Some w) a). rewrite lookup_insert_eq. by repeat split.
  - exists X. rewrite lookup_insert_ne by done. by repeat split.
Qed.

(** X12. [WEA()] keeps the heap linked however it ends, and a call that
    does not return has either changed nothing, so that a later call starts
    afresh, or it has left a new worker attached to the CA, without a
    pairwise map loaded, which every later call returns as it is. *)
Theorem WEA_keeps_linked self m r m' :
  linked ext m ->
  WEA ext self m = (r, m') ->
  linked ext m'
  /\ (m' = m
      \/ exists w,
           agents m !! w = None
           /\ WEA ext self m' = (Returns w, m')
           /\ ((forall x, r <> Returns x) ->
               exists W, agents m' !! w = Some W
                         /\ pws W = Some ∅ /\ pwNames W = Some ∅)).
Proof.
  intros Lk R.
  destruct (WEA_cases _ _ _ _ R)
    as [[-> _]|(a & key & w & W & La & Wk & K & Ew & Ag & Ar & Ty & Ro & Cw & Ww & _ & _ & _ & _ & Ld)].
  { split; [done|by left]. }
  assert (Lw : agents m !! w = None).
  { subst w. apply not_elem_of_dom, is_fresh. }
  split; [by eapply linked_attach|]. right. exists w.
  assert (Nself : self <> w) by (intros ->; congruence).
  split; [done|]. split.
  - unfold WEA. rewrite Ag, lookup_insert_ne, lookup_insert_eq by done. reflexivity.
  - intros Nr. exists W. rewrite Ag, lookup_insert_eq.
    destruct Ld as [[-> _]|(_ & P & N)]; [by destruct (Nr w)|done].
Qed.

(** X13. What a [WEA()] call creates for a CA [a] that had no worker: a new
    agent at an address that was free, attached to the CA, which changes in
    nothing else, while all other agents stay as they were;
    [comm.ActiveRcvrs] gets the worker under the CA's worker DID and no
    other entry changes; the worker has the CA's root DID, the CA's pipe
    turned round as its transport, no implementation id, and the pairwises
    the wallet lists as its pairwise map. *)
Theorem WEA_new_worker self m a w m' :
  agents m !! self = Some a ->
  worker a = None ->
  WEA ext self m = (Returns w, m') ->
  agents m !! w = None
  /\ agents m' !! self = Some (set_worker (Some w) a)
  /\ (forall x, x <> self -> x <> w -> agents m' !! x = agents m !! x)
  /\ ActiveRcvrs m' !! WDID a = Some w
  /\ (forall d, d <> WDID a -> ActiveRcvrs m' !! d = ActiveRcvrs m !! d)
  /\ exists W,
       agents m' !! w = Some W
       /\ ca W = Some self /\ worker W = None
       /\ Root W = Root a
       /\ Tr W = workerTransport ext a
       /\ SAImplID W = ""%string
       /\ (forall pwd, List_ ext (Wallet W) = Returns pwd ->
             forall pre d post, pwd = pre ++ d :: post ->
               indypw.MyDid d ∉ indypw.MyDid <$> post ->
               SecPipe W (indypw.MyDid d) = Some (pipeOf ext d)).
Proof.
  intros La Wk R.
  destruct (WEA_cases _ _ _ _ R)
    as [[-> Ex]|(a0 & key & w0 & W & La0 & _ & K & Ew & Ag & Ar & Ty & Ro & Cw & Ww & Sa & _ & _ & Tw & Ld)].
  { destruct (Ex w eq_refl) as (a1 & La1 & Wk1). congruence. }
  assert (a0 = a) by congruence. subst a0.
  destruct Ld as [(Er & P & _)|(Nr & _)]; [|by destruct (Nr w)].
  injection Er as ->.
  assert (Lw : agents m !! w0 = None).
  { subst w0. apply not_elem_of_dom, is_fresh. }
  assert (Nself : self <> w0) by (intros ->; congruence).
  repeat split.
  - done.
  - rewrite Ag, lookup_insert_ne, lookup_insert_eq by done. reflexivity.
  - intros x N1 N2. rewrite Ag, !lookup_insert_ne by done. reflexivity.
  - rewrite Ar. apply lookup_insert_eq.
  - intros d Nd. rewrite Ar. by rewrite lookup_insert_ne.
  - exists W. rewrite Ag, lookup_insert_eq. repeat split; try done.
    intros pwd Li pre d post -> Hd. unfold SecPipe. rewrite P, Li.
    by apply foldl_insert_last.
Qed.

End WorkerMore.

Lemma WEA_keeps_linked_witness :
  let r := (cloud.WEA ext2 1%positive machine0).1 in
  let m' := (cloud.WEA ext2 1%positive machine0).2 in
  linked ext2 m'
  /\ (m' = machine0
      \/ exists w,
           cloud.agents machine0 !! w = None
           /\ cloud.WEA ext2 1%positive m' = (Returns w, m')
           /\ ((forall x, r <> Returns x) ->
               exists W, cloud.agents m' !! w = Some W
                         /\ cloud.pws W = Some ∅ /\ cloud.pwNames W = Some ∅)).
Proof.
  intros r m'.
  apply (WEA_keeps_linked ext2 eq_refl 1%positive machine0 r m').
  - intros c A w L Wk. unfold machine0 in L. cbn [cloud.agents] in L.
    apply lookup_singleton_Some in L as [_ <-]. discriminate Wk.
  - reflexivity.
Defined.

Lemma WEA_new_worker_witness :
  let w := returned (cloud.WEA ext1 1%positive machine0).1 1%positive in
  let m' := (cloud.WEA ext1 1%positive machine0).2 in
  cloud.agents machine0 !! w = None
  /\ cloud.agents m' !! 1%positive = Some (cloud.set_worker (Some w) ca0)
  /\ (forall x, x <> 1%positive -> x <> w -> cloud.agents m' !! x = cloud.agents machine0 !! x)
  /\ cloud.ActiveRcvrs m' !! cloud.WDID ca0 = Some w
  /\ (forall d, d <> cloud.WDID ca0 ->
        cloud.ActiveRcvrs m' !! d = cloud.ActiveRcvrs machine0 !! d)
  /\ exists W,
       cloud.agents m' !! w = Some W
       /\ cloud.ca W = Some 1%positive /\ cloud.worker W = None
       /\ cloud.Root W = cloud.Root ca0
       /\ cloud.Tr W = workerTransport ext1 ca0
       /\ cloud.SAImplID W = ""%string
       /\ (forall pwd, cloud.List_ ext1 (cloud.Wallet W) = Returns pwd ->
             forall pre d post, pwd = pre ++ d :: post ->
               indypw.MyDid d ∉ indypw.MyDid <$> post ->
               cloud.SecPipe W (indypw.MyDid d) = Some (pipeOf ext1 d)).
Proof.
  intros w m'.
  apply (WEA_new_worker ext1 1%positive machine0 ca0 w m').
  - reflexivity.
  - reflexivity.
  - vm_compute. reflexivity.
Defined.

(** ** Further methods of the agent *)

Section AgentMethodFacts.

Import cloud agent.

Variable ext : Externals.
Variable svc : Services.

(** A [WEA()] call leaves the calling agent on the heap and changes at most
    its worker pointer. *)
Lemma WEA_self self m a r m' :
  agents m !! self = Some a ->
  WEA ext self m = (r, m') ->
  exists A, agents m' !! self = Some A /\ set_worker (worker a) A = a.
Proof.
  intros La R.
  destruct (WEA_cases ext _ _ _ _ R)
    as [[-> _]|(a0 & key & w & W & La0 & Wk & _ & Ew & Ag & _)].
  - exists a. split; [done|]. by destruct a.
  - assert (a0 = a) by congruence. subst a0.
    assert (Nself : self <> w) by (subst w; eapply fresh_agent; eauto).
    exists (set_worker (Some w) a).
    rewrite Ag, lookup_insert_ne, lookup_insert_eq by done.
    split; [done|]. destruct a. simpl in *. by subst.
Qed.

Lemma update_lookup x f m a :
  agents m !! x = Some a -> agents (update x f m) !! x = Some (f a).
Proof. intros L. unfold update. rewrite L. cbn [store agents]. apply lookup_insert_eq. Qed.

Lemma update_lookup_ne x y f m :
  x <> y -> agents (update x f m) !! y = agents m !! y.
Proof.
  intros N. unfold update. destruct (agents m !! x); [|done].
  cbn [store agents]. by rewrite lookup_insert_ne.
Qed.

(** X14. [AttachSAImpl] on a CA whose worker pointer is good, when the
    endpoint of a persistent implementation can be written to the wallet:
    the call returns, and afterwards the CA and its worker both have the
    implementation id, so that [AutoPermission] answers the same on both,
    true exactly for "permissive_sa"; a persistent implementation also
    leaves the endpoint "<id>://localhost" on the CA. *)
Theorem AttachSAImpl_sets self implID persistent m a w m1 W0 :
  agents m !! self = Some a ->
  IsCA ext (AgentType a) = true ->
  WEA ext self (update self (set_SAImplID implID) m) = (Returns w, m1) ->
  agents m1 !! w = Some W0 ->
  (persistent = true ->
   SetMeta svc (Wallet a) (WDID a) (ToJSON svc (implEndp implID)) = Returns tt) ->
  exists m' A W,
    AttachSAImpl ext svc self implID persistent m = (Returns tt, m')
    /\ agents m' !! self = Some A
    /\ agents m' !! w = Some W
    /\ SAImplID A = implID /\ SAImplID W = implID
    /\ AutoPermission A = String.eqb implID "permissive_sa"
    /\ AutoPermission W = String.eqb implID "permissive_sa"
    /\ (persistent = true -> EAEndp A = Some (implEndp implID)).
Proof.
  intros La CA R Lw Meta.
  pose proof (update_lookup self (set_SAImplID implID) m a La) as L0.
  destruct (WEA_self _ _ _ _ _ L0 R) as (A1 & L1 & S1).
  assert (F1 : SAImplID A1 = implID /\ Wallet A1 = Wallet a /\ Tr A1 = Tr a).
  { destruct A1, a. simpl in *. inversion S1. by subst. }
  destruct F1 as (I1 & Wa1 & T1).
  unfold AttachSAImpl, WorkerEA. rewrite La, CA, R.
  destruct persistent.
  - unfold AttachAPIEndp. rewrite L1, Wa1, T1.
    unfold WDID, implEndp in Meta. rewrite (Meta eq_refl).
    set (m2 := store self (set_EAEndp _ A1) m1).
    assert (L2 : agents m2 !! self = Some (set_EAEndp (Some (implEndp implID)) A1)).
    { subst m2. cbn [store agents]. apply lookup_insert_eq. }
    destruct (decide (w = self)) as [->|N].
    + eexists _, _, _. split; [reflexivity|].
      rewrite (update_lookup _ _ _ _ L2). repeat split; try done.
      all: unfold AutoPermission; reflexivity.
    + assert (Lw2 : agents m2 !! w = Some W0).
      { subst m2. cbn [store agents]. by rewrite lookup_insert_ne. }
      eexists _, _, _. split; [reflexivity|].
      rewrite (update_lookup _ _ _ _ Lw2), update_lookup_ne, L2 by done.
      repeat split; try done.
      * unfold AutoPermission. cbn [SAImplID set_EAEndp]. by rewrite I1.
  - destruct (decide (w = self)) as [->|N].
    + eexists _, _, _. split; [reflexivity|].
      rewrite (update_lookup _ _ _ _ Lw). repeat split; try done.
    + eexists _, _, _. split; [reflexivity|].
      rewrite (update_lookup _ _ _ _ Lw), update_lookup_ne, L1 by done.
      repeat split; try done. unfold AutoPermission. by rewrite I1.
Qed.

(** X15. [AttachSAImpl] with a persistent implementation whose endpoint the
    wallet refuses: the error is swallowed and the call returns, the CA has
    the new implementation id and the endpoint, but the worker is left with
    the implementation id it had. *)
Theorem AttachSAImpl_refused self implID m a w m1 e :
  agents m !! self = Some a ->
  IsCA ext (AgentType a) = true ->
  WEA ext self (update self (set_SAImplID implID) m) = (Returns w, m1) ->
  w <> self ->
  SetMeta svc (Wallet a) (WDID a) (ToJSON svc (implEndp implID)) = Fails e ->
  exists m' A,
    AttachSAImpl ext svc self implID true m = (Returns tt, m')
    /\ agents m' !! self = Some A
    /\ SAImplID A = implID
    /\ EAEndp A = Some (implEndp implID)
    /\ agents m' !! w = agents m1 !! w.
Proof.
  intros La CA R N Meta.
  pose proof (update_lookup self (set_SAImplID implID) m a La) as L0.
  destruct (WEA_self _ _ _ _ _ L0 R) as (A1 & L1 & S1).
  assert (F1 : SAImplID A1 = implID /\ Wallet A1 = Wallet a /\ Tr A1 = Tr a).
  { destruct A1, a. simpl in *. inversion S1. by subst. }
  destruct F1 as (I1 & Wa1 & T1).
  unfold AttachSAImpl, WorkerEA. rewrite La, CA, R.
  unfold AttachAPIEndp. rewrite L1, Wa1, T1.
  unfold WDID, implEndp in Meta. rewrite Meta.
  eexists _, _. split; [reflexivity|]. cbn [store agents].
  rewrite lookup_insert_eq, lookup_insert_ne by done. by repeat split.
Qed.

(** X16. The endpoint a CA advertises for its worker leads to the worker:
    for a CA that had no worker, [CAEndp(true)] names as receiver the DID
    under which [WEA()] registers the new worker in [comm.ActiveRcvrs], and
    that DID is the worker's own; the CA's own endpoint differs from it only
    in the receiver DID and the service name. *)
Theorem CAEndp_routes_to_worker self m a w m' :
  agents m !! self = Some a ->
  worker a = None ->
  IsCA ext (AgentType a) = true ->
  WEA ext self m = (Returns w, m') ->
  exists caEndp workerEndp W,
    CAEndp ext svc a false = Some caEndp
    /\ CAEndp ext svc a true = Some workerEndp
    /\ ActiveRcvrs m' !! endp.RcvrDID workerEndp = Some w
    /\ agents m' !! w = Some W
    /\ sec.In (trans.PayloadPipe (Tr W)) = LoadDID ext (endp.RcvrDID workerEndp)
    /\ endp.RcvrDID caEndp = endp.PlRcvr caEndp
    /\ endp.PlRcvr workerEndp = endp.PlRcvr caEndp
    /\ endp.MsgRcvr workerEndp = endp.PlRcvr caEndp
    /\ endp.MsgRcvr caEndp = endp.PlRcvr caEndp
    /\ endp.VerKey workerEndp = endp.VerKey caEndp
    /\ endp.BasePath workerEndp = endp.BasePath caEndp.
Proof.
  intros La Wk CA R.
  destruct (WEA_cases ext _ _ _ _ R)
    as [[-> Ex]|(a0 & key & w0 & W & La0 & _ & _ & Ew & Ag & Ar & _ & _ & _ & _ & _ & _ & _ & Tw & Ld)].
  { destruct (Ex w eq_refl) as (a1 & La1 & Wk1). congruence. }
  assert (a0 = a) by congruence. subst a0.
  destruct Ld as [(Er & _)|(Nr & _)]; [|by destruct (Nr w)]. injection Er as ->.
  unfold CAEndp. rewrite CA. cbn [negb].
  eexists _, _, W. split; [reflexivity|]. split; [reflexivity|].
  cbn [endp.RcvrDID endp.PlRcvr endp.MsgRcvr endp.VerKey endp.BasePath].
  repeat split; try done.
  - rewrite Ar. apply lookup_insert_eq.
  - rewrite Ag. apply lookup_insert_eq.
  - by rewrite Tw.
Qed.

(** X17. [PwPipe] answers from the label index first: after
    [AddToPWMap(me, you, name)] it returns exactly that pipe for [name],
    whatever the wallet holds, and for every other label what it returned
    before; a label that is not indexed is looked up in the wallet, and a
    wallet record with an empty DID is the error "cannot find pw". *)
Theorem PwPipe_after_AddToPWMap a me you name p a' :
  AddToPWMap a me you name = Returns (p, a') ->
  PwPipe ext svc a' name = Returns {| sec.In := me; sec.Out := you |}
  /\ (forall n, n <> name -> PwPipe ext svc a' n = PwPipe ext svc a n)
  /\ (forall n in_ out,
        PwName a' n = None ->
        Pairwise svc (Wallet a') n = Returns (in_, out) ->
        (in_ = ""%string \/ out = ""%string ->
         PwPipe ext svc a' n = Fails "cannot find pw")
        /\ (in_ <> ""%string -> out <> ""%string ->
            PwPipe ext svc a' n
            = Returns {| sec.In := LoadDID ext in_; sec.Out := LoadDID ext out |})).
Proof.
  unfold AddToPWMap.
  destruct (pws a) as [byDID|] eqn:P; [|discriminate].
  destruct (pwNames a) as [byName|] eqn:N; [|discriminate].
  intros [= <- <-]. unfold PwPipe, PwName. cbn [pwNames set_maps Wallet]. rewrite N.
  split; [by rewrite lookup_insert_eq|]. split.
  - intros n Hn. by rewrite lookup_insert_ne.
  - intros n in_ out Hn Hp. rewrite Hn, Hp. cbn [bind]. split.
    + intros [->| ->]; [done|]. by rewrite String.eqb_refl, orb_true_r.
    + intros Hi Ho. destruct (String.eqb_spec in_ ""); [done|].
      destruct (String.eqb_spec out ""); [done|]. reflexivity.
Qed.

End AgentMethodFacts.

Lemma AttachSAImpl_sets_witness :
  let m0 := agent.update 1%positive (cloud.set_SAImplID "permissive_sa") machine0 in
  let w := returned (cloud.WEA ext0 1%positive m0).1 1%positive in
  exists m' A W,
    agent.AttachSAImpl ext0 svc0 1%positive "permissive_sa" true machine0 = (Returns tt, m')
    /\ cloud.agents m' !! 1%positive = Some A
    /\ cloud.agents m' !! w = Some W
    /\ cloud.SAImplID A = "permissive_sa"%string /\ cloud.SAImplID W = "permissive_sa"%string
    /\ cloud.AutoPermission A = String.eqb "permissive_sa" "permissive_sa"
    /\ cloud.AutoPermission W = String.eqb "permissive_sa" "permissive_sa"
    /\ (true = true -> cloud.EAEndp A = Some (implEndp "permissive_sa")).
Proof.
  intros m0 w.
  apply (AttachSAImpl_sets ext0 svc0 1%positive "permissive_sa" true machine0 ca0 w
           (cloud.WEA ext0 1%positive m0).2
           (default ca0 (cloud.agents (cloud.WEA ext0 1%positive m0).2 !! w))).
  - reflexivity.
  - reflexivity.
  - vm_compute. reflexivity.
  - vm_compute. reflexivity.
  - reflexivity.
Defined.

Lemma AttachSAImpl_refused_witness :
  let m0 := agent.update 1%positive (cloud.set_SAImplID "permissive_sa") machine0 in
  let w := returned (cloud.WEA ext0 1%positive m0).1 1%positive in
  exists m' A,
    agent.AttachSAImpl ext0 svc1 1%positive "permissive_sa" true machine0 = (Returns tt, m')
    /\ cloud.agents m' !! 1%positive = Some A
    /\ cloud.SAImplID A = "permissive_sa"%string
    /\ cloud.EAEndp A = Some (implEndp "permissive_sa")
    /\ cloud.agents m' !! w = cloud.agents (cloud.WEA ext0 1%positive m0).2 !! w.
Proof.
  intros m0 w.
  apply (AttachSAImpl_refused ext0 svc1 1%positive "permissive_sa" machine0 ca0 w
           (cloud.WEA ext0 1%positive m0).2 "wallet is closed").
  - reflexivity.
  - reflexivity.
  - vm_compute. reflexivity.
  - vm_compute. discriminate.
  - reflexivity.
Defined.

Lemma CAEndp_routes_to_worker_witness :
  let w := returned (cloud.WEA ext0 1%positive machine0).1 1%positive in
  let m' := (cloud.WEA ext0 1%positive machine0).2 in
  exists caEndp workerEndp W,
    agent.CAEndp ext0 svc0 ca0 false = Some caEndp
    /\ agent.CAEndp ext0 svc0 ca0 true = Some workerEndp
    /\ cloud.ActiveRcvrs m' !! endp.RcvrDID workerEndp = Some w
    /\ cloud.agents m' !! w = Some W
    /\ sec.In (trans.PayloadPipe (cloud.Tr W)) = cloud.LoadDID ext0 (endp.RcvrDID workerEndp)
    /\ endp.RcvrDID caEndp = endp.PlRcvr caEndp
    /\ endp.PlRcvr workerEndp = endp.PlRcvr caEndp
    /\ endp.MsgRcvr workerEndp = endp.PlRcvr caEndp
    /\ endp.MsgRcvr caEndp = endp.PlRcvr caEndp
    /\ endp.VerKey workerEndp = endp.VerKey caEndp
    /\ endp.BasePath workerEndp = endp.BasePath caEndp.
Proof.
  intros w m'.
  apply (CAEndp_routes_to_worker ext0 svc0 1%positive machine0 ca0 w m').
  - reflexivity.
  - reflexivity.
  - reflexivity.
  - vm_compute. reflexivity.
Defined.

Lemma PwPipe_after_AddToPWMap_witness :
  let a' := (returned (cloud.AddToPWMap worker0 didMe didYou "alice") (pipe0, worker0)).2 in
  agent.PwPipe ext0 svc0 a' "alice" = Returns {| sec.In := didMe; sec.Out := didYou |}
  /\ (forall n, n <> "alice"%string ->
        agent.PwPipe ext0 svc0 a' n = agent.PwPipe ext0 svc0 worker0 n)
  /\ (forall n in_ out,
        cloud.PwName a' n = None ->
        agent.Pairwise svc0 (cloud.Wallet a') n = Returns (in_, out) ->
        (in_ = ""%string \/ out = ""%string ->
         agent.PwPipe ext0 svc0 a' n = Fails "cannot find pw")
        /\ (in_ <> ""%string -> out <> ""%string ->
            agent.PwPipe ext0 svc0 a' n
            = Returns {| sec.In := cloud.LoadDID ext0 in_; sec.Out := cloud.LoadDID ext0 out |})).
Proof.
  intros a'.
  apply (PwPipe_after_AddToPWMap ext0 svc0 worker0 didMe didYou "alice" pipe0 a').
  reflexivity.
Defined.

(** ** Further entry points and tables of the protocol server *)

Section ServiceFacts.

Import pb server rpc.

Variable pl : pltype.Consts.
Variable Protocol_Role_num : Protocol_Role -> Z.
Variable UUID : nat -> string.
Variable InvitationFromJSON : string -> Invitation.
Variable CredAttrsFromJSON : string -> list Attribute.
Variable ProofAttrsFromJSON : string -> list ProofAttribute.
Variable agency : gmap string AgencyHandler.

Lemma ca_returns ctx caDID receiver :
  ca agency ctx = Returns (caDID, receiver) ->
  caDID = ctx /\ agency !! ctx = Some (Receiver receiver).
Proof.
  unfold ca. cbv zeta. destruct (agency !! ctx) as [[r|]|]; try discriminate.
  by intros [= <- <-].
Qed.

(** X18. [Start] names what it started.  When it returns an id, the caller
    is a receiver of this agency and exactly one task was handed to
    [prot.FindAndStartTask], for that receiver, whose nonce is the id: the
    invitation's id for CONNECT, the UUID drawn for it otherwise.  When it
    does not return an id nothing was started. *)
Theorem Start_names_started_task ctx protocol w started r w' started' :
  Start pl Protocol_Role_num UUID InvitationFromJSON CredAttrsFromJSON ProofAttrsFromJSON
        agency ctx protocol w started = (r, w', started') ->
  match r with
  | Returns pid =>
      exists receiver task,
        agency !! ctx = Some (Receiver receiver)
        /\ taskFrom pl Protocol_Role_num UUID InvitationFromJSON CredAttrsFromJSON
                    ProofAttrsFromJSON protocol w = (Returns task, w')
        /\ started' = started ++ [(receiver, task)]
        /\ pid_ID pid = Nonce task
        /\ (TypeId protocol = Protocol_CONNECT ->
            exists connAttr,
              GetConnAttr protocol = Some connAttr
              /\ pid_ID pid = ID (InvitationFromJSON (InvitationJson connAttr)))
        /\ (TypeId protocol <> Protocol_CONNECT -> pid_ID pid = UUID (drawn w))
  | _ => started' = started
  end.
Proof.
  unfold Start.
  destruct (ca agency ctx) as [[caDID receiver]| |] eqn:Ca;
    [|by intros [= <- <- <-]..].
  destruct (taskFrom _ _ _ _ _ _ protocol w) as [[task| |] w1] eqn:Tf;
    [|by intros [= <- <- <-]..].
  intros [= <- <- <-]. exists receiver, task.
  apply ca_returns in Ca as [_ Ca].
  repeat split; try done.
  - intros T. destruct (taskFrom_connect_inv _ _ _ _ _ _ _ _ _ _ T Tf) as (c & G & N).
    by exists c.
  - intros T. by destruct (taskFrom_nonce _ _ _ _ _ _ _ _ _ _ Tf T).
Qed.

(** X19. The two tables of protocol families are inverse to each other:
    looking the name of a type other than NONE up in [protocolType] gives
    the type back, every name in [protocolType] is the [protocolName] of
    its type, and a name that is no family gives NONE. *)
Theorem protocolType_protocolName f :
  NoDup (family_keys f) ->
  (forall t, t <> Protocol_NONE -> protocolTypeOf f (protocolName f t) = t)
  /\ (forall s t, protocolType f !! s = Some t ->
        protocolName f t = s /\ t <> Protocol_NONE)
  /\ (forall s, s ∉ family_keys f -> protocolTypeOf f s = Protocol_NONE).
Proof.
  intros Nd.
  assert (In : forall s t,
            protocolType f !! s = Some t <->
            (s, t) ∈ [ (AriesProtocolConnection f, Protocol_CONNECT);
                        (ProtocolIssueCredential f, Protocol_ISSUE);
                        (ProtocolPresentProof f, Protocol_PROOF);
                        (ProtocolTrustPing f, Protocol_TRUST_PING);
                        (ProtocolBasicMessage f, Protocol_BASIC_MESSAGE) ]).
  { intros s t. unfold protocolType. symmetry. by apply elem_of_list_to_map. }
  split; [|split].
  - intros t Ht. unfold protocolTypeOf.
    assert (E : protocolType f !! protocolName f t = Some t).
    { apply In. destruct t; try done; cbn [protocolName];
        repeat (first [apply list_elem_of_here | apply list_elem_of_further]). }
    by rewrite E.
  - intros s t Hs. apply In in Hs.
    repeat (apply elem_of_cons in Hs as [[= -> ->]|Hs]; [by split|]).
    by apply elem_of_nil in Hs.
  - intros s Hs. unfold protocolTypeOf.
    destruct (protocolType f !! s) as [t|] eqn:E; [|done].
    exfalso. apply Hs. apply In in E. unfold family_keys.
    repeat (apply elem_of_cons in E as [[= -> ->]|E];
            [repeat (first [apply list_elem_of_here | apply list_elem_of_further])|]).
    by apply elem_of_nil in E.
Qed.

End ServiceFacts.

Lemma Start_names_started_task_witness :
  exists receiver task,
    agency0 !! "ca-1"%string = Some (server.Receiver receiver)
    /\ server.taskFrom pl0 roleNum0 uuid0 invitation0 (fun _ => []) (fun _ => []) connect0 w0
       = (Returns task, (draw w0).2)
    /\ [] ++ [("w-1"%string, task0)] = [] ++ [(receiver, task)]
    /\ "inv-42"%string = server.Nonce task
    /\ (server.TypeId connect0 = pb.Protocol_CONNECT ->
        exists connAttr,
          server.GetConnAttr connect0 = Some connAttr
          /\ "inv-42"%string = server.ID (invitation0 (server.InvitationJson connAttr)))
    /\ (server.TypeId connect0 <> pb.Protocol_CONNECT -> "inv-42"%string = uuid0 (drawn w0)).
Proof.
  apply (Start_names_started_task pl0 roleNum0 uuid0 invitation0 (fun _ => []) (fun _ => [])
           agency0 "ca-1" connect0 w0 []
           (Returns {| server.pid_TypeID := pb.Protocol_NONE;
                       server.pid_Role := pb.Protocol_UNKNOWN;
                       server.pid_ID := "inv-42" |})
           (draw w0).2 ([] ++ [("w-1"%string, task0)])).
  vm_compute. reflexivity.
Defined.

Lemma protocolType_protocolName_witness :
  (forall t, t <> pb.Protocol_NONE ->
     rpc.protocolTypeOf families0 (rpc.protocolName families0 t) = t)
  /\ (forall s t, rpc.protocolType families0 !! s = Some t ->
        rpc.protocolName families0 t = s /\ t <> pb.Protocol_NONE)
  /\ (forall s, s ∉ rpc.family_keys families0 ->
        rpc.protocolTypeOf families0 s = pb.Protocol_NONE).
Proof.
  apply (protocolType_protocolName families0).
  apply (bool_decide_unpack _). vm_compute. exact I.
Defined.

(** ** The export command *)

Section ExportFacts.

Import cmds.

Variable k : Checks.

(** X20. [Validate] of the export command accepts a command exactly when
    the wallet check of its kind passes (the legacy wallet exists, or the
    command and the wallet's existence validate), the export path is not
    empty and the export key validates.  The wallet comes first: a missing
    legacy wallet is reported as such whatever the path and the key are,
    and with a wallet that passes an empty path is refused as such whatever
    the export key is. *)
Theorem Validate_accepts c :
  (Validate k c = None <->
   (if WalletKeyLegacy c
    then Exists_ k (WalletName c) (WalletKey c) false = true
    else Cmd_Validate k (WalletName c) (WalletKey c) = None
         /\ ValidateWalletExistence k (WalletName c) (WalletKey c) true = None)
   /\ Filename c <> ""%string
   /\ ValidateKey k (ExportKey c) "export" = None)
  /\ (WalletKeyLegacy c = true ->
      Exists_ k (WalletName c) (WalletKey c) false = false ->
      Validate k c = Some "legacy wallet not exist"%string)
  /\ ((if WalletKeyLegacy c
       then Exists_ k (WalletName c) (WalletKey c) false = true
       else Cmd_Validate k (WalletName c) (WalletKey c) = None
            /\ ValidateWalletExistence k (WalletName c) (WalletKey c) true = None) ->
      Filename c = ""%string ->
      Validate k c = Some "export path cannot be empty"%string).
Proof.
  unfold Validate.
  destruct (WalletKeyLegacy c); cbn [negb].
  - destruct (Exists_ k _ _ _); cbn [negb].
    + destruct (String.eqb_spec (Filename c) "") as [E|N].
      * split; [|split]; [split; [done|by intros (_ & ? & _)]|done|done].
      * destruct (ValidateKey k _ _) eqn:V.
        -- split; [|split]; [split; [done|by intros (_ & _ & ?)]|done|done].
        -- split; [|split]; [done|done|done].
    + split; [|split]; [split; [done|by intros (? & _)]|done|done].
  - destruct (Cmd_Validate k _ _) as [e|] eqn:C.
    + split; [|split]; [split; [done|by intros ((? & _) & _)]|done|by intros (? & _)].
    + destruct (ValidateWalletExistence k _ _ _) as [e|] eqn:X.
      * split; [|split]; [split; [done|by intros ((_ & ?) & _)]|done|by intros (_ & ?)].
      * destruct (String.eqb_spec (Filename c) "") as [E|N].
        -- split; [|split]; [split; [done|by intros (_ & ? & _)]|done|done].
        -- destruct (ValidateKey k _ _) eqn:V.
           ++ split; [|split]; [split; [done|by intros (_ & _ & ?)]|done|done].
           ++ split; [|split]; [done|done|done].
Qed.

End ExportFacts.

(** ** The present-proof processor *)

Section ProofRequestFacts.

Import proofreq.

(** What the loop over the attributes leaves under a key: the entry of the
    last attribute with that key, or what was there before. *)
Lemma rangeAttrs_lookup attrs : forall index reqAttrs k info,
  rangeAttrs index attrs reqAttrs !! k = Some info <->
  (exists i attr,
      attrs !! i = Some attr /\ attrKey (index + i) attr = k /\ attrInfo attr = info
      /\ forall j later, (i < j)%nat -> attrs !! j = Some later ->
           attrKey (index + j) later <> k)
  \/ (reqAttrs !! k = Some info
      /\ forall j later, attrs !! j = Some later -> attrKey (index + j) later <> k).
Proof.
  induction attrs as [|a attrs IH]; intros index reqAttrs k info.
  - cbn [rangeAttrs]. split.
    + intros M. right. by split.
    + intros [(i & b & L & _)|[M _]]; [done|done].
  - cbn [rangeAttrs]. rewrite IH. split.
    + intros [(i & b & L & K & I & Later)|[M Later]].
      * left. exists (S i), b. rewrite Nat.add_succ_r. repeat (split; [done|]).
        intros [|j] c Lt Lj; [lia|]. rewrite Nat.add_succ_r. apply (Later j c); [lia|done].
      * apply lookup_insert_Some in M as [[K I]|[K M]].
        -- left. exists 0%nat, a. rewrite Nat.add_0_r. repeat (split; [done|]).
           intros [|j] c Lt Lj; [lia|]. rewrite Nat.add_succ_r. by apply (Later j c).
        -- right. split; [done|].
           intros [|j] c Lj; [rewrite Nat.add_0_r; by simplify_eq/=|].
           rewrite Nat.add_succ_r. by apply (Later j c).
    + intros [(i & b & L & K & I & Later)|[M Later]].
      * destruct i as [|i].
        -- right. rewrite Nat.add_0_r in K. simplify_eq/=. split.
           ++ by rewrite lookup_insert_eq.
           ++ intros j c Lj. specialize (Later (S j) c). rewrite Nat.add_succ_r in Later.
              apply Later; [lia|done].
        -- left. exists i, b. rewrite Nat.add_succ_r in K. repeat (split; [done|]).
           intros j c Lt Lj. specialize (Later (S j) c). rewrite Nat.add_succ_r in Later.
           apply Later; [lia|done].
      * right. split.
        -- rewrite lookup_insert_ne; [done|]. specialize (Later 0%nat a).
           rewrite Nat.add_0_r in Later. by apply Later.
        -- intros j c Lj. specialize (Later (S j) c). rewrite Nat.add_succ_r in Later.
           by apply Later.
Qed.

Lemma rangePredicates_lookup predicates : forall index reqPredicates k info,
  rangePredicates index predicates reqPredicates !! k = Some info <->
  (exists i predicate,
      predicates !! i = Some predicate /\ predicateKey (index + i) predicate = k
      /\ predicateInfo predicate = info
      /\ forall j later, (i < j)%nat -> predicates !! j = Some later ->
           predicateKey (index + j) later <> k)
  \/ (reqPredicates !! k = Some info
      /\ forall j later, predicates !! j = Some later ->
           predicateKey (index + j) later <> k).
Proof.
  induction predicates as [|a predicates IH]; intros index reqPredicates k info.
  - cbn [rangePredicates]. split.
    + intros M. right. by split.
    + intros [(i & b & L & _)|[M _]]; [done|done].
  - cbn [rangePredicates]. rewrite IH. split.
    + intros [(i & b & L & K & I & Later)|[M Later]].
      * left. exists (S i), b. rewrite Nat.add_succ_r. repeat (split; [done|]).
        intros [|j] c Lt Lj; [lia|]. rewrite Nat.add_succ_r. apply (Later j c); [lia|done].
      * apply lookup_insert_Some in M as [[K I]|[K M]].
        -- left. exists 0%nat, a. rewrite Nat.add_0_r. repeat (split; [done|]).
           intros [|j] c Lt Lj; [lia|]. rewrite Nat.add_succ_r. by apply (Later j c).
        -- right. split; [done|].
           intros [|j] c Lj; [rewrite Nat.add_0_r; by simplify_eq/=|].
           rewrite Nat.add_succ_r. by apply (Later j c).
    + intros [(i & b & L & K & I & Later)|[M Later]].
      * destruct i as [|i].
        -- right. rewrite Nat.add_0_r in K. simplify_eq/=. split.
           ++ by rewrite lookup_insert_eq.
           ++ intros j c Lj. specialize (Later (S j) c). rewrite Nat.add_succ_r in Later.
              apply Later; [lia|done].
        -- left. exists i, b. rewrite Nat.add_succ_r in K. repeat (split; [done|]).
           intros j c Lt Lj. specialize (Later (S j) c). rewrite Nat.add_succ_r in Later.
           apply Later; [lia|done].
      * right. split.
        -- rewrite lookup_insert_ne; [done|]. specialize (Later 0%nat a).
           rewrite Nat.add_0_r in Later. by apply Later.
        -- intros j c Lj. specialize (Later (S j) c). rewrite Nat.add_succ_r in Later.
           by apply Later.
Qed.

Lemma attrKey_default index attr :
  pa_ID attr = ""%string ->
  attrKey index attr = ("attr_referent_" ++ pretty (index + 1)%nat)%string.
Proof. unfold attrKey. by intros ->. Qed.

Lemma attr_referent_inj (i j : nat) :
  ("attr_referent_" ++ pretty i)%string = ("attr_referent_" ++ pretty j)%string -> i = j.
Proof. intros E. simplify_eq/=. by apply (inj pretty). Qed.

Lemma rangeAttrs_size attrs : forall index reqAttrs,
  Forall (fun attr => pa_ID attr = ""%string) attrs ->
  (forall j, reqAttrs !! ("attr_referent_" ++ pretty (index + j + 1)%nat)%string = None) ->
  size (rangeAttrs index attrs reqAttrs) = (size reqAttrs + length attrs)%nat.
Proof.
  induction attrs as [|a attrs IH]; intros index reqAttrs Ids Free.
  - cbn [rangeAttrs length]. lia.
  - apply Forall_cons in Ids as [Ia Ids]. cbn [rangeAttrs length].
    rewrite IH; [|done|].
    + rewrite map_size_insert_None; [lia|].
      rewrite (attrKey_default _ _ Ia). specialize (Free 0%nat).
      by rewrite Nat.add_0_r in Free.
    + intros j. rewrite (attrKey_default _ _ Ia), lookup_insert_ne.
      * replace (S index + j + 1)%nat with (index + S j + 1)%nat by lia. apply Free.
      * intros E. apply attr_referent_inj in E. lia.
Qed.

Variable NewNonceStr : nat -> string.

Lemma attrKey_cases index attr :
  attrKey index attr
  = if String.eqb (pa_ID attr) ""
    then ("attr_referent_" ++ pretty (index + 1)%nat)%string else pa_ID attr.
Proof. unfold attrKey. by destruct (String.eqb _ _). Qed.

Lemma predicateKey_cases index predicate :
  predicateKey index predicate
  = if String.eqb (pp_ID predicate) ""
    then ("predicate_" ++ pretty (index + 1)%nat)%string else pp_ID predicate.
Proof. unfold predicateKey. by destruct (String.eqb _ _). Qed.

(** X21. The proof request [generateProofRequest] builds holds, under each
    key, the entry of the last attribute (predicate) of the task with that
    key, and nothing else.  The key of the [i]-th attribute, counted from 0,
    is its own ID, or ["attr_referent_" + Itoa(i+1)] when it has none; its
    entry has the attribute's name and is restricted to its credential
    definition exactly when it names one.  The key of a predicate is its own
    ID, or ["predicate_" + Itoa(i+1)]; its entry has the predicate's name,
    type and value.  An attribute or predicate whose key a later one takes
    again is not in the request.  The request is named "ProofReq", version
    "0.1", and its nonce is the one drawn for it. *)
Theorem generateProofRequest_entries proofTask w k :
  (forall info,
     RequestedAttributes (generateProofRequest NewNonceStr proofTask w).1 !! k = Some info <->
     exists i attr,
       ProofAttrs proofTask !! i = Some attr
       /\ k = (if String.eqb (pa_ID attr) ""
               then ("attr_referent_" ++ pretty (i + 1)%nat)%string else pa_ID attr)
       /\ Name info = pa_Name attr
       /\ Restrictions info
          = (if String.eqb (pa_CredDefID attr) ""
             then [] else [ {| CredDefID := pa_CredDefID attr |} ])
       /\ forall j later, (i < j)%nat -> ProofAttrs proofTask !! j = Some later ->
            (if String.eqb (pa_ID later) ""
             then ("attr_referent_" ++ pretty (j + 1)%nat)%string else pa_ID later) <> k)
  /\ (forall info,
        RequestedPredicates (generateProofRequest NewNonceStr proofTask w).1 !! k = Some info <->
        exists i predicate,
          ProofPredicates proofTask !! i = Some predicate
          /\ k = (if String.eqb (pp_ID predicate) ""
                  then ("predicate_" ++ pretty (i + 1)%nat)%string else pp_ID predicate)
          /\ didcomm.pred_Name info = pp_Name predicate
          /\ didcomm.pred_PType info = pp_PType predicate
          /\ didcomm.pred_PValue info = pp_PValue predicate
          /\ forall j later, (i < j)%nat -> ProofPredicates proofTask !! j = Some later ->
               (if String.eqb (pp_ID later) ""
                then ("predicate_" ++ pretty (j + 1)%nat)%string else pp_ID later) <> k)
  /\ pr_Name (generateProofRequest NewNonceStr proofTask w).1 = "ProofReq"%string
  /\ pr_Version (generateProofRequest NewNonceStr proofTask w).1 = "0.1"%string
  /\ pr_Nonce (generateProofRequest NewNonceStr proofTask w).1 = NewNonceStr (drawn w)
  /\ drawn (generateProofRequest NewNonceStr proofTask w).2 = S (drawn w).
Proof.
  unfold generateProofRequest. cbn [draw fst snd RequestedAttributes RequestedPredicates
                                     pr_Name pr_Version pr_Nonce drawn].
  split; [|split; [|done]].
  - intros info. rewrite rangeAttrs_lookup. split.
    + intros [(i & attr & L & K & I & Later)|[M _]]; [|by rewrite lookup_empty in M].
      exists i, attr. cbn [Nat.add] in K. rewrite attrKey_cases in K.
      split; [done|]. split; [done|]. subst info. split; [reflexivity|]. split.
      * unfold attrInfo. cbn [Restrictions]. by destruct (String.eqb (pa_CredDefID attr) "").
      * intros j later Lt Lj. rewrite <- attrKey_cases. by apply (Later j later).
    + intros (i & attr & L & K & N & R & Later). left. exists i, attr.
      split; [done|]. split; [by rewrite attrKey_cases|]. split.
      * destruct info as [n r]. cbn [Name Restrictions] in N, R. subst n r.
        unfold attrInfo. by destruct (String.eqb (pa_CredDefID attr) "").
      * intros j later Lt Lj. cbn [Nat.add]. rewrite attrKey_cases. by apply (Later j later).
  - intros info. rewrite rangePredicates_lookup. split.
    + intros [(i & p & L & K & I & Later)|[M _]]; [|by rewrite lookup_empty in M].
      exists i, p. cbn [Nat.add] in K. rewrite predicateKey_cases in K.
      split; [done|]. split; [done|]. subst info. repeat (split; [reflexivity|]).
      intros j later Lt Lj. rewrite <- predicateKey_cases. by apply (Later j later).
    + intros (i & p & L & K & N & T & V & Later). left. exists i, p.
      split; [done|]. split; [by rewrite predicateKey_cases|]. split.
      * destruct info as [n t v]. cbn in N, T, V. subst n t v. reflexivity.
      * intros j later Lt Lj. cbn [Nat.add]. rewrite predicateKey_cases.
        by apply (Later j later).
Qed.

(** X22. When no attribute of the task names an ID, the proof request has
    one requested attribute per attribute of the task: the [i]-th one,
    counted from 0, sits under ["attr_referent_" + Itoa(i+1)] with its name,
    restricted to its credential definition when it names one. *)
Theorem generateProofRequest_referents proofTask w :
  Forall (fun attr => pa_ID attr = ""%string) (ProofAttrs proofTask) ->
  size (RequestedAttributes (generateProofRequest NewNonceStr proofTask w).1)
  = length (ProofAttrs proofTask)
  /\ forall i attr,
       ProofAttrs proofTask !! i = Some attr ->
       RequestedAttributes (generateProofRequest NewNonceStr proofTask w).1
         !! ("attr_referent_" ++ pretty (i + 1)%nat)%string
       = Some {| Name := pa_Name attr;
                 Restrictions :=
                   if String.eqb (pa_CredDefID attr) ""
                   then [] else [ {| CredDefID := pa_CredDefID attr |} ] |}.
Proof.
  intros Ids.
  unfold generateProofRequest. cbn [draw fst snd RequestedAttributes].
  split.
  - rewrite rangeAttrs_size; [by rewrite map_size_empty| done |].
    intros j. apply lookup_empty.
  - intros i attr L. apply rangeAttrs_lookup. left. exists i, attr.
    assert (Ia : pa_ID attr = ""%string).
    { rewrite Forall_forall in Ids. apply Ids. by eapply list_elem_of_lookup_2. }
    split; [done|]. split; [by rewrite (attrKey_default _ _ Ia)|]. split.
    + unfold attrInfo. by destruct (String.eqb (pa_CredDefID attr) "").
    + intros j later Lt Lj E.
      assert (Il : pa_ID later = ""%string).
      { rewrite Forall_forall in Ids. apply Ids. by eapply list_elem_of_lookup_2. }
      rewrite (attrKey_default _ _ Il) in E. cbn [Nat.add] in E.
      apply attr_referent_inj in E. lia.
Qed.

End ProofRequestFacts.

Lemma generateProofRequest_referents_witness :
  size (proofreq.RequestedAttributes (proofreq.generateProofRequest nonce0 proofTask0 w0).1)
  = length (proofreq.ProofAttrs proofTask0)
  /\ forall i attr,
       proofreq.ProofAttrs proofTask0 !! i = Some attr ->
       proofreq.RequestedAttributes (proofreq.generateProofRequest nonce0 proofTask0 w0).1
         !! ("attr_referent_" ++ pretty (i + 1)%nat)%string
       = Some {| proofreq.Name := proofreq.pa_Name attr;
                 proofreq.Restrictions :=
                   if String.eqb (proofreq.pa_CredDefID attr) ""
                   then [] else [ {| proofreq.CredDefID := proofreq.pa_CredDefID attr |} ] |}.
Proof.
  apply (generateProofRequest_referents nonce0 proofTask0 w0).
  repeat constructor.
Defined.

Section DispatchFacts.

Import proofreq.

Variable pl : pltype.Consts.
Variable h : Handlers.
Variable permitted : psm.PSM -> comm.Packet -> bool.
Variable writable : string * string -> bool.
Variable pipeSend : prot.Envelope -> bool.
Variable HandleProposePresentation : Handler.
Variable HandleRequestPresentation : Handler.
Variable HandlePresentation : Handler.

(** X23. [handleProtocol] ends the PSM on an ACK or a NACK and refuses what
    it does not know.  When the instance of the packet's key is not terminal
    and the store takes its entries, the message [HandlerPresentProofACK]
    adds [Sending] and [ReadyACK] to the record and [HandlerPresentProofNACK]
    adds [Sending] and [ReadyNACK], both without sending; a message that is
    none of the five handlers gives the error "no present proof handler" and
    leaves the engine as it was, whatever the handlers of the verifier and
    the prover do. *)
Theorem handleProtocol_terminal_messages packet e :
  NoDup (handler_cases h) ->
  (comm.ProtocolMsg packet = HandlerPresentProofACK h ->
   prot.closed (prot.lookupPSM (keyOf packet) e) = false ->
   writable (keyOf packet) = true ->
   exists e',
     handleProtocol pl h permitted writable pipeSend HandleProposePresentation
       HandleRequestPresentation HandlePresentation packet e = (Returns tt, e')
     /\ ended (keyOf packet) psm.ReadyACK e e')
  /\ (comm.ProtocolMsg packet = HandlerPresentProofNACK h ->
      prot.closed (prot.lookupPSM (keyOf packet) e) = false ->
      writable (keyOf packet) = true ->
      exists e',
        handleProtocol pl h permitted writable pipeSend HandleProposePresentation
          HandleRequestPresentation HandlePresentation packet e = (Returns tt, e')
        /\ ended (keyOf packet) psm.ReadyNACK e e')
  /\ (comm.ProtocolMsg packet ∉ handler_cases h ->
      handleProtocol pl h permitted writable pipeSend HandleProposePresentation
        HandleRequestPresentation HandlePresentation packet e
      = (Fails "no present proof handler", e)).
Proof.
  intros Nd. unfold handler_cases in *.
  apply NoDup_cons in Nd as [N1 Nd]. apply NoDup_cons in Nd as [N2 Nd].
  apply NoDup_cons in Nd as [N3 Nd]. apply NoDup_cons in Nd as [N4 _].
  repeat (apply not_elem_of_cons in N1 as [? N1]).
  repeat (apply not_elem_of_cons in N2 as [? N2]).
  repeat (apply not_elem_of_cons in N3 as [? N3]).
  repeat (apply not_elem_of_cons in N4 as [? N4]).
  split; [|split].
  - intros M C W. unfold handleProtocol. rewrite M.
    repeat (rewrite (proj2 (String.eqb_neq _ _)); [|congruence]).
    rewrite String.eqb_refl. unfold presentproof.handleProofACK.
    by apply (ExecPSM_terminate pl permitted writable pipeSend
                (presentproof.proofACK pl packet (presentproof.taskOf packet)) e true).
  - intros M C W. unfold handleProtocol. rewrite M.
    repeat (rewrite (proj2 (String.eqb_neq _ _)); [|congruence]).
    rewrite String.eqb_refl. unfold presentproof.handleProofNACK.
    by apply (ExecPSM_terminate pl permitted writable pipeSend
                (presentproof.proofNACK pl packet (presentproof.taskOf packet)) e false).
  - intros U. repeat (apply not_elem_of_cons in U as [? U]). unfold handleProtocol.
    by repeat (rewrite (proj2 (String.eqb_neq _ _)); [|congruence]).
Qed.

End DispatchFacts.

Lemma handleProtocol_terminal_messages_witness :
  exists e',
    proofreq.handleProtocol pl0 handlers0 (fun _ _ => false) (fun _ => true) (fun _ => true)
      (fun _ _ e => (Returns tt, e)) (fun _ _ e => (Returns tt, e))
      (fun _ _ e => (Returns tt, e)) nackPacket engine1 = (Returns tt, e')
    /\ ended (keyOf nackPacket) psm.ReadyNACK engine1 e'.
Proof.
  refine (proj1 (proj2
    (handleProtocol_terminal_messages pl0 handlers0 (fun _ _ => false) (fun _ => true)
       (fun _ => true) (fun _ _ e => (Returns tt, e)) (fun _ _ e => (Returns tt, e))
       (fun _ _ e => (Returns tt, e)) nackPacket engine1 _)) _ _ _).
  - apply (bool_decide_unpack _). vm_compute. exact I.
  - reflexivity.
  - vm_compute. reflexivity.
  - reflexivity.
Defined.
